(** * TCP scenario evaluation: maneuver locator, behaviour injector,
      scenario session cleanup and the evaluation loop.

    A shallow embedding of [scenario_config/scenario_schema.py],
    [scenario_config/scenario_runner.py] and
    [scenario_config/tcp_evaluator.py].

    Numbers.  The Python code computes with binary floating point.  Every
    finite float is a rational, so the embedding uses [Q] with exact
    arithmetic: the definitions follow the source expression by expression
    and differ from it only in rounding.  Equality of numbers is [==].
    The two values that are not rationals are modelled apart: the initial
    [min_speed] ([float('inf')]) by the constructor [PosInf], and numpy's
    result on an empty array (not-a-number) by [None].

    Simulator.  CARLA is an external collaborator.  Its read-only map API
    is a record of functions ([CarlaMap]), its actors are identifiers with
    a set of live ones, and the calls the code makes on the traffic manager
    and on actors are recorded in a log, in program order.

    Randomness.  [random.random()] reads the next element of a stream of
    draws; the stream is an argument, so a statement over all streams is a
    statement over all outcomes of the generator. *)

From Stdlib Require Import QArith Qround Qabs Lqa ZArith List Lia Bool.
From stdpp Require Import base gmap.
Import ListNotations.

Set Warnings "-clear-no-such-hyp".

Open Scope Q_scope.

(* ===================================================================== *)
(** * Python arithmetic on rationals                                      *)
(* ===================================================================== *)

Module Py.

(** [a < b] as a boolean. *)
Definition Qltb (a b : Q) : bool := negb (Qle_bool b a).

(** Python's [x % y] on floats with [y > 0]: [x - y * floor(x / y)]. *)
Definition mod_ (x y : Q) : Q := x - y * inject_Z (Qfloor (x / y)).

(** Python's [max(a, b)]: the first argument unless the second is
    strictly greater. *)
Definition max (a b : Q) : Q := if Qltb a b then b else a.

(** Python's [min(a, b)]: the first argument unless the second is
    strictly smaller. *)
Definition min (a b : Q) : Q := if Qltb b a then b else a.

(** Sum and length of a list of numbers. *)
Definition sum (l : list Q) : Q := fold_right Qplus 0 l.

Definition len {A} (l : list A) : Q := inject_Z (Z.of_nat (length l)).

(** Python's truth value of a list: [if l:]. *)
Definition truthy {A} (l : list A) : bool :=
  match l with
  | [] => false
  | _ => true
  end.

(** The value of [np.mean] on a non-empty array. *)
Definition mean (l : list Q) : Q := sum l / len l.

(** The value of [np.var] on a non-empty array: the population
    variance, the mean of the squared deviations from the mean. *)
Definition var (l : list Q) : Q :=
  mean (map (fun x => (x - mean l) * (x - mean l)) l).

(** [np.mean] and [np.var] on any array: numpy's result on an empty
    array is not a number, which is [None] here. *)
Definition np_mean (l : list Q) : option Q :=
  if truthy l then Some (mean l) else None.

Definition np_var (l : list Q) : option Q :=
  if truthy l then Some (var l) else None.

End Py.

(* ===================================================================== *)
(** * scenario_schema.py                                                  *)
(* ===================================================================== *)

Module Schema.

Inductive ManeuverType := STRAIGHT | LEFT_TURN | RIGHT_TURN.

Inductive LocationType :=
  INTERSECTION_SIGNAL | INTERSECTION_NO_SIGNAL | ROAD_SEGMENT.

Definition ManeuverType_eqb (a b : ManeuverType) : bool :=
  match a, b with
  | STRAIGHT, STRAIGHT | LEFT_TURN, LEFT_TURN | RIGHT_TURN, RIGHT_TURN => true
  | _, _ => false
  end.

Definition LocationType_eqb (a b : LocationType) : bool :=
  match a, b with
  | INTERSECTION_SIGNAL, INTERSECTION_SIGNAL
  | INTERSECTION_NO_SIGNAL, INTERSECTION_NO_SIGNAL
  | ROAD_SEGMENT, ROAD_SEGMENT => true
  | _, _ => false
  end.

(** [VehicleBehaviors]: one probability per named behaviour. *)
Record VehicleBehaviors := {
  run_red_light : Q;
  ignore_stop_sign : Q;
  sudden_lane_change : Q;
  ignore_right_of_way : Q;
  sudden_brake : Q;
  tailgate : Q
}.

(** [PedestrianBehaviors]. *)
Record PedestrianBehaviors := {
  jaywalk : Q;
  ignore_signal : Q;
  sudden_crossing : Q;
  stop_in_road : Q
}.

Record VehicleTrafficConfig := {
  v_rule_break_probability : Q;
  v_behaviors : VehicleBehaviors
}.

Record PedestrianTrafficConfig := {
  p_rule_break_probability : Q;
  p_behaviors : PedestrianBehaviors
}.

(** The check of the [__post_init__] methods: a probability lies in
    [0.0, 1.0]. *)
Definition probability (p : Q) : Prop := 0 <= p /\ p <= 1.

Definition VehicleBehaviors_valid (b : VehicleBehaviors) : Prop :=
  probability (run_red_light b) /\ probability (ignore_stop_sign b) /\
  probability (sudden_lane_change b) /\ probability (ignore_right_of_way b) /\
  probability (sudden_brake b) /\ probability (tailgate b).

Definition VehicleTrafficConfig_valid (c : VehicleTrafficConfig) : Prop :=
  probability (v_rule_break_probability c) /\
  VehicleBehaviors_valid (v_behaviors c).

Definition PedestrianBehaviors_valid (b : PedestrianBehaviors) : Prop :=
  probability (jaywalk b) /\ probability (ignore_signal b) /\
  probability (sudden_crossing b) /\ probability (stop_in_road b).

Definition PedestrianTrafficConfig_valid (c : PedestrianTrafficConfig) : Prop :=
  probability (p_rule_break_probability c) /\
  PedestrianBehaviors_valid (p_behaviors c).

(** [ManeuverConfig]; [spawn_point_index] defaults to [-1]. *)
Record ManeuverConfig := {
  type : ManeuverType;
  location : LocationType;
  spawn_point_index : Z
}.

(** [EvaluationConfig]. *)
Record EvaluationConfig := {
  timeout : Q;
  stuck_timeout : Q;
  stuck_speed_threshold : Q
}.

End Schema.

(* ===================================================================== *)
(** * The simulator interface                                             *)
(* ===================================================================== *)

Module Carla.

Record Location := { x : Q; y : Q; z : Q }.

Record Vector3D := { vx : Q; vy : Q; vz : Q }.

Record Rotation := { pitch : Q; yaw : Q; roll : Q }.

Record Transform := { t_location : Location; t_rotation : Rotation }.

(** A waypoint: an identity, its transform and its junction flag. *)
Record Waypoint := {
  wp_id : nat;
  wp_transform : Transform;
  is_junction : bool
}.

(** A junction: its id and the (entry, exit) pairs that
    [get_waypoints(carla.LaneType.Driving)] returns. *)
Record Junction := {
  junction_id : nat;
  get_waypoints : list (Waypoint * Waypoint)
}.

(** The read-only queries on the map and the world. *)
Record CarlaMap := {
  get_spawn_points : list Transform;
  generate_waypoints : Q -> list Waypoint;
  get_junction : Waypoint -> option Junction;
  get_traffic_lights_in_junction : nat -> list nat;
  next : Waypoint -> Q -> list Waypoint;
  previous : Waypoint -> Q -> list Waypoint;
  get_waypoint : Location -> Waypoint;
  get_forward_vector : Transform -> Vector3D
}.

(** Actors are handles; the world knows which of them are alive. *)
Definition Actor := nat.

End Carla.

(* ===================================================================== *)
(** * The random generator                                                *)
(* ===================================================================== *)

Module Random.

(** The generator: a stream of draws and the position of the next one. *)
Record rng := { draws : nat -> Q; cursor : nat }.

(** Every draw of the stream lies in [0, 1). *)
Definition unit_draws (d : nat -> Q) : Prop := forall n, 0 <= d n /\ d n < 1.

(** [random.random()]. *)
Definition random (g : rng) : Q * rng :=
  (draws g (cursor g), {| draws := draws g; cursor := S (cursor g) |}).

(** [random.uniform(a, b)], that is [a + (b - a) * random()]. *)
Definition uniform (a b : Q) (g : rng) : Q * rng :=
  let (u, g') := random g in (a + (b - a) * u, g').

(** [random.choice(seq)]: the element at [floor(random() * len(seq))];
    [None] stands for the [IndexError] on an empty sequence. *)
Definition choice {A} (seq : list A) (g : rng) : option A * rng :=
  let (u, g') := random g in
  (nth_error seq (Z.to_nat (Qfloor (u * Py.len seq))), g').

End Random.

(* ===================================================================== *)
(** * scenario_runner.py: the maneuver locator                            *)
(* ===================================================================== *)

Module Locator.
Import Schema Carla.

(** The signed turn angle of [_find_maneuver_spawn_at_intersection]:
    [(exit_yaw - entry_yaw + 180) % 360 - 180]. *)
Definition angle_diff (entry_yaw exit_yaw : Q) : Q :=
  Py.mod_ (exit_yaw - entry_yaw + 180) 360 - 180.

(** The [if / elif / elif] chain that sets [is_match]. *)
Definition is_match (maneuver_type : ManeuverType) (angle : Q) : bool :=
  if ManeuverType_eqb maneuver_type STRAIGHT && Py.Qltb (Qabs angle) 30
  then true
  else if ManeuverType_eqb maneuver_type LEFT_TURN
          && (Py.Qltb (-120) angle && Py.Qltb angle (-60))
  then true
  else if ManeuverType_eqb maneuver_type RIGHT_TURN
          && (Py.Qltb 60 angle && Py.Qltb angle 120)
  then true
  else false.

(** [spawn_transform.location.z += 0.5]. *)
Definition lift (t : Transform) : Transform :=
  {| t_location := {| x := x (t_location t);
                      y := y (t_location t);
                      z := z (t_location t) + (1 # 2) |};
     t_rotation := t_rotation t |}.

(** The loop over the (entry, exit) pairs of a junction: the first pair
    of the requested class that has a waypoint 40 m before the entry and
    one 30 m after the exit. *)
Fixpoint scan_pairs (m : CarlaMap) (maneuver_type : ManeuverType)
    (junction_wps : list (Waypoint * Waypoint)) : option (Transform * Location) :=
  match junction_wps with
  | [] => None
  | (entry_wp, exit_wp) :: rest =>
      let entry_yaw := yaw (t_rotation (wp_transform entry_wp)) in
      let exit_yaw := yaw (t_rotation (wp_transform exit_wp)) in
      if is_match maneuver_type (angle_diff entry_yaw exit_yaw) then
        match previous m entry_wp 40 with
        | [] => scan_pairs m maneuver_type rest
        | spawn_wp :: _ =>
            match next m exit_wp 30 with
            | [] => scan_pairs m maneuver_type rest
            | dest_wp :: _ =>
                Some (lift (wp_transform spawn_wp),
                      t_location (wp_transform dest_wp))
            end
        end
      else scan_pairs m maneuver_type rest
  end.

(** [_find_maneuver_spawn_at_intersection]; [None] is the pair
    [(None, None)]. *)
Definition find_maneuver_spawn_at_intersection (m : CarlaMap)
    (intersection_wp : Waypoint) (maneuver_type : ManeuverType)
    : option (Transform * Location) :=
  match get_junction m intersection_wp with
  | None => None
  | Some junction => scan_pairs m maneuver_type (get_waypoints junction)
  end.

(** [_calculate_destination]: 100 m along the lane, or 100 m along the
    forward vector of the spawn transform when the lane ends. *)
Definition calculate_destination (m : CarlaMap) (spawn : Transform)
    (maneuver_type : ManeuverType) : Location :=
  let spawn_wp := get_waypoint m (t_location spawn) in
  let distance := 100 in
  match next m spawn_wp distance with
  | wp :: _ => t_location (wp_transform wp)
  | [] =>
      let forward := get_forward_vector m spawn in
      {| x := x (t_location spawn) + vx forward * distance;
         y := y (t_location spawn) + vy forward * distance;
         z := z (t_location spawn) |}
  end.

(** The first loop of [_find_intersections].  The third test sits under
    [if wp.is_junction], as in the source. *)
Definition selected (m : CarlaMap) (location_type : LocationType)
    (wp : Waypoint) : bool :=
  if is_junction wp then
    match get_junction m wp with
    | None => false
    | Some junction =>
        let has_signal :=
          (0 <? length (get_traffic_lights_in_junction m (junction_id junction)))%nat in
        if LocationType_eqb location_type INTERSECTION_SIGNAL && has_signal
        then true
        else if LocationType_eqb location_type INTERSECTION_NO_SIGNAL
                && negb has_signal
        then true
        else if LocationType_eqb location_type ROAD_SEGMENT
                && negb (is_junction wp)
        then true
        else false
    end
  else false.

(** The dictionary [unique_junctions], in insertion order. *)
Fixpoint has_key (k : nat) (d : list (nat * Waypoint)) : bool :=
  match d with
  | [] => false
  | (k', _) :: d' => (k =? k')%nat || has_key k d'
  end.

(** The second loop: keep the first waypoint of every junction.  A
    waypoint of [intersections] has a junction (the first loop skipped
    the others), so the [None] branch is never taken. *)
Fixpoint dedup (m : CarlaMap) (intersections : list Waypoint)
    (unique_junctions : list (nat * Waypoint)) : list (nat * Waypoint) :=
  match intersections with
  | [] => unique_junctions
  | wp :: rest =>
      if is_junction wp then
        match get_junction m wp with
        | None => dedup m rest unique_junctions
        | Some junction =>
            if has_key (junction_id junction) unique_junctions
            then dedup m rest unique_junctions
            else dedup m rest
                   (unique_junctions ++ [(junction_id junction, wp)])
        end
      else dedup m rest unique_junctions
  end.

(** [_find_intersections]. *)
Definition find_intersections (m : CarlaMap) (location_type : LocationType)
    : list Waypoint :=
  let waypoints := generate_waypoints m 5 in
  let intersections := filter (selected m location_type) waypoints in
  map snd (dedup m intersections []).

(** The [for intersection_wp in intersections] loop of
    [find_maneuver_location]. *)
Fixpoint first_spawn (m : CarlaMap) (maneuver_type : ManeuverType)
    (intersections : list Waypoint) : option (Transform * Location) :=
  match intersections with
  | [] => None
  | intersection_wp :: rest =>
      match find_maneuver_spawn_at_intersection m intersection_wp maneuver_type with
      | Some r => Some r
      | None => first_spawn m maneuver_type rest
      end
  end.

(** The three places that fall back on [random.choice(spawn_points)]. *)
Definition random_spawn (m : CarlaMap) (maneuver_type : ManeuverType)
    (g : Random.rng) : option (Transform * Location) * Random.rng :=
  match Random.choice (get_spawn_points m) g with
  | (Some spawn, g') =>
      (Some (spawn, calculate_destination m spawn maneuver_type), g')
  | (None, g') => (None, g')
  end.

(** The search that follows the [spawn_point_index] test. *)
Definition search_location (m : CarlaMap) (cfg : ManeuverConfig)
    (g : Random.rng) : option (Transform * Location) * Random.rng :=
  let maneuver_type := type cfg in
  match find_intersections m (location cfg) with
  | [] => random_spawn m maneuver_type g
  | intersections =>
      match first_spawn m maneuver_type intersections with
      | Some r => (Some r, g)
      | None => random_spawn m maneuver_type g
      end
  end.

(** [find_maneuver_location].  The result is [None] when the code raises
    ([random.choice] on a map without spawn points).  Under the test
    [idx < len(spawn_points)] the subscript [spawn_points[idx]] is in
    range, so the [None] of [nth_error] below is never met. *)
Definition find_maneuver_location (m : CarlaMap) (cfg : ManeuverConfig)
    (g : Random.rng) : option (Transform * Location) * Random.rng :=
  let maneuver_type := type cfg in
  let spawn_points := get_spawn_points m in
  if (0 <=? spawn_point_index cfg)%Z then
    let idx := spawn_point_index cfg in
    if (idx <? Z.of_nat (length spawn_points))%Z then
      match nth_error spawn_points (Z.to_nat idx) with
      | Some spawn =>
          (Some (spawn, calculate_destination m spawn maneuver_type), g)
      | None => (None, g)
      end
    else search_location m cfg g
  else search_location m cfg g.

End Locator.

(* ===================================================================== *)
(** * scenario_runner.py: the behaviour injector                          *)
(* ===================================================================== *)

Module Injector.
Import Schema Carla.

(** The setters the code calls on the traffic manager (first seven) and
    on a walker controller (last two). *)
Inductive call :=
| ignore_lights_percentage (vehicle : Actor) (p : Q)
| ignore_signs_percentage (vehicle : Actor) (p : Q)
| random_left_lanechange_percentage (vehicle : Actor) (p : Q)
| random_right_lanechange_percentage (vehicle : Actor) (p : Q)
| ignore_vehicles_percentage (vehicle : Actor) (p : Q)
| distance_to_leading_vehicle (vehicle : Actor) (d : Q)
| vehicle_percentage_speed_difference (vehicle : Actor) (p : Q)
| set_max_speed (controller : Actor) (s : Q)
| go_to_location (controller : Actor) (l : Location).

(** What the injector reads and writes: the generator and the log of
    calls, oldest first. *)
Record World := { gen : Random.rng; calls : list call }.

(** State passing over [World]. *)
Definition M (A : Type) : Type := World -> A * World.

Definition ret {A} (a : A) : M A := fun w => (a, w).

Definition bind {A B} (m : M A) (k : A -> M B) : M B :=
  fun w => let (a, w') := m w in k a w'.

Notation "x <- m ;; k" := (bind m (fun x => k))
  (at level 100, m at level 99, k at level 100, only parsing).
Notation "m ;;; k" := (bind m (fun _ => k))
  (at level 100, k at level 100, only parsing).

Definition random : M Q :=
  fun w => let (u, g') := Random.random (gen w) in
           (u, {| gen := g'; calls := calls w |}).

Definition uniform (a b : Q) : M Q :=
  fun w => let (u, g') := Random.uniform a b (gen w) in
           (u, {| gen := g'; calls := calls w |}).

Definition emit (c : call) : M unit :=
  fun w => (tt, {| gen := gen w; calls := calls w ++ [c] |}).

(** [if b: body], with nothing in the [else]. *)
Definition when (b : bool) (body : M unit) : M unit :=
  if b then body else ret tt.

(** [_apply_vehicle_behavior].  The unused [tm_port] is left out. *)
Definition apply_vehicle_behavior (vehicle : Actor)
    (config : VehicleTrafficConfig) : M unit :=
  let rule_break_prob := v_rule_break_probability config in
  let behaviors := v_behaviors config in
  u <- random ;;
  if Py.Qltb rule_break_prob u then ret tt
  else
    u1 <- random ;;
    when (Py.Qltb u1 (run_red_light behaviors))
      (emit (ignore_lights_percentage vehicle 100)) ;;;
    u2 <- random ;;
    when (Py.Qltb u2 (ignore_stop_sign behaviors))
      (emit (ignore_signs_percentage vehicle 100)) ;;;
    u3 <- random ;;
    when (Py.Qltb u3 (sudden_lane_change behaviors))
      (emit (random_left_lanechange_percentage vehicle 50) ;;;
       emit (random_right_lanechange_percentage vehicle 50)) ;;;
    u4 <- random ;;
    when (Py.Qltb u4 (ignore_right_of_way behaviors))
      (emit (ignore_vehicles_percentage vehicle 50)) ;;;
    u5 <- random ;;
    when (Py.Qltb u5 (tailgate behaviors))
      (emit (distance_to_leading_vehicle vehicle 1)) ;;;
    speed_diff <- uniform (-20) 30 ;;
    emit (vehicle_percentage_speed_difference vehicle speed_diff).

(** [_apply_pedestrian_behavior]; [ego_loc] is the location of the ego
    vehicle, [None] when there is no ego vehicle. *)
Definition apply_pedestrian_behavior (controller walker : Actor)
    (ego_loc : option Location) (config : PedestrianTrafficConfig) : M unit :=
  let rule_break_prob := p_rule_break_probability config in
  let behaviors := p_behaviors config in
  u <- random ;;
  if Py.Qltb rule_break_prob u then ret tt
  else
    u1 <- random ;;
    when (Py.Qltb u1 (jaywalk behaviors))
      (s <- uniform (3 # 2) 3 ;; emit (set_max_speed controller s)) ;;;
    u2 <- random ;;
    when (Py.Qltb u2 (ignore_signal behaviors)) (ret tt) ;;;
    u3 <- random ;;
    when (Py.Qltb u3 (sudden_crossing behaviors))
      match ego_loc with
      | Some ego =>
          ox <- uniform (-10) 10 ;;
          oy <- uniform (-10) 10 ;;
          emit (go_to_location controller
                  {| x := x ego + ox; y := y ego + oy; z := z ego |})
      | None => ret tt
      end.

(** The calls of a guarded block: [l] when the guard holds, none
    otherwise. *)
Definition opt (b : bool) (l : list call) : list call := if b then l else [].

(** Every behaviour probability of a configuration is [q]. *)
Definition every_vehicle_behavior (q : Q) (b : VehicleBehaviors) : Prop :=
  run_red_light b == q /\ ignore_stop_sign b == q /\
  sudden_lane_change b == q /\ ignore_right_of_way b == q /\
  sudden_brake b == q /\ tailgate b == q.

Definition every_pedestrian_behavior (q : Q) (b : PedestrianBehaviors) : Prop :=
  jaywalk b == q /\ ignore_signal b == q /\
  sudden_crossing b == q /\ stop_in_road b == q.

(** The calls a run of the injector adds to an empty log. *)
Definition vehicle_calls (vehicle : Actor) (config : VehicleTrafficConfig)
    (g : Random.rng) : list call :=
  calls (snd (apply_vehicle_behavior vehicle config {| gen := g; calls := [] |})).

Definition pedestrian_calls (controller walker : Actor)
    (ego_loc : option Location) (config : PedestrianTrafficConfig)
    (g : Random.rng) : list call :=
  calls (snd (apply_pedestrian_behavior controller walker ego_loc config
                {| gen := g; calls := [] |})).

(** The speed-difference calls of a log that concern [vehicle]. *)
Definition speed_calls (vehicle : Actor) (l : list call) : list Q :=
  flat_map (fun c => match c with
                     | vehicle_percentage_speed_difference v p =>
                         if (v =? vehicle)%nat then [p] else []
                     | _ => []
                     end) l.

End Injector.

(* ===================================================================== *)
(** * scenario_runner.py: cleanup of the session                          *)
(* ===================================================================== *)

Module Session.
Import Carla.

(** The actor fields of [ScenarioRunner]. *)
Record ScenarioRunner := {
  ego_vehicle : option Actor;
  vehicles : list Actor;
  pedestrians : list Actor;
  pedestrian_controllers : list Actor;
  sensors : list Actor
}.

(** The calls cleanup makes on actors. *)
Inductive call :=
| stop (a : Actor)
| destroy (a : Actor).

(** The simulator side: the live actors and the log of calls, oldest
    first.  [a.is_alive] is membership in [alive]; [a.destroy()] removes
    [a] from it. *)
Record World := { alive : gset Actor; log : list call }.

Definition is_alive (a : Actor) (w : World) : bool := bool_decide (a ∈ alive w).

Definition do_destroy (a : Actor) (w : World) : World :=
  {| alive := alive w ∖ {[ a ]}; log := log w ++ [destroy a] |}.

Definition do_stop (a : Actor) (w : World) : World :=
  {| alive := alive w; log := log w ++ [stop a] |}.

(** [for a in actors: if a.is_alive: a.destroy()]. *)
Fixpoint destroy_each (actors : list Actor) (w : World) : World :=
  match actors with
  | [] => w
  | a :: rest =>
      destroy_each rest (if is_alive a w then do_destroy a w else w)
  end.

(** [for c in controllers: if c.is_alive: c.stop(); c.destroy()]. *)
Fixpoint stop_and_destroy_each (actors : list Actor) (w : World) : World :=
  match actors with
  | [] => w
  | a :: rest =>
      stop_and_destroy_each rest
        (if is_alive a w then do_destroy a (do_stop a w) else w)
  end.

(** [if self.ego_vehicle and self.ego_vehicle.is_alive: destroy()]. *)
Definition destroy_ego (ego : option Actor) (w : World) : World :=
  match ego with
  | Some a => if is_alive a w then do_destroy a w else w
  | None => w
  end.

(** [cleanup]. *)
Definition cleanup (r : ScenarioRunner) (w : World) : ScenarioRunner * World :=
  let w1 := destroy_each (sensors r) w in
  let w2 := stop_and_destroy_each (pedestrian_controllers r) w1 in
  let w3 := destroy_each (pedestrians r) w2 in
  let w4 := destroy_each (vehicles r) w3 in
  let w5 := destroy_ego (ego_vehicle r) w4 in
  ({| ego_vehicle := None; vehicles := []; pedestrians := [];
      pedestrian_controllers := []; sensors := [] |}, w5).

(** The actors a log destroyed, in order. *)
Definition destroyed (l : list call) : list Actor :=
  flat_map (fun c => match c with destroy a => [a] | stop _ => [] end) l.

(** Every call of [l] is a [destroy] of an actor of [actors]. *)
Definition destroys_of (actors : list Actor) (l : list call) : Prop :=
  Forall (fun c => exists a, a ∈ actors /\ c = destroy a) l.

(** Every call of [l] is a [stop] or a [destroy] of an actor of
    [actors]. *)
Definition stops_and_destroys_of (actors : list Actor) (l : list call) : Prop :=
  Forall (fun c => exists a, a ∈ actors /\ (c = stop a \/ c = destroy a)) l.

(** The actors a session holds, in the order cleanup visits them. *)
Definition all_actors (r : ScenarioRunner) : list Actor :=
  sensors r ++ pedestrian_controllers r ++ pedestrians r ++ vehicles r
  ++ option_list (ego_vehicle r).

(** What a pass over [actors] does to the world: it appends the calls
    [new], which destroy every actor of [actors] that was alive, each
    once, and nothing else. *)
Definition effect (actors : list Actor) (w w' : World) (new : list call)
    : Prop :=
  log w' = log w ++ new /\
  NoDup (destroyed new) /\
  (forall a, a ∈ destroyed new <-> a ∈ alive w /\ a ∈ actors) /\
  alive w' = alive w ∖ list_to_set actors.

End Session.

(* ===================================================================== *)
(** * tcp_evaluator.py                                                    *)
(* ===================================================================== *)

Module Evaluator.
Import Schema Carla.

(** The value of [min_speed]: a number, or its initial [float('inf')]. *)
Inductive bound := Fin (q : Q) | PosInf.

(** [min(self.metrics.min_speed, speed)]. *)
Definition min_bound (b : bound) (speed : Q) : bound :=
  match b with
  | PosInf => Fin speed
  | Fin q => Fin (Py.min q speed)
  end.

(** [EvaluationMetrics]. *)
Record EvaluationMetrics := {
  completed : bool;
  completion_time : Q;
  timeout_reached : bool;
  stuck : bool;
  distance_traveled : Q;
  distance_to_destination : Q;
  average_speed : Q;
  max_speed : Q;
  min_speed : bound;
  num_collisions : nat;
  collision_types : list nat;
  red_lights_run : Z;
  lane_invasions : nat;
  max_acceleration : Q;
  max_deceleration : Q;
  max_lateral_acceleration : Q;
  comfort_score : Q;
  route_deviation : Q
}.

(** The defaults of the dataclass. *)
Definition EvaluationMetrics_default : EvaluationMetrics := {|
  completed := false;
  completion_time := 0;
  timeout_reached := false;
  stuck := false;
  distance_traveled := 0;
  distance_to_destination := 0;
  average_speed := 0;
  max_speed := 0;
  min_speed := PosInf;
  num_collisions := 0;
  collision_types := [];
  red_lights_run := 0;
  lane_invasions := 0;
  max_acceleration := 0;
  max_deceleration := 0;
  max_lateral_acceleration := 0;
  comfort_score := 0;
  route_deviation := 0
|}.

(** What the evaluator reads of its [ScenarioRunner]: the destination,
    the ego vehicle (is there one), and the event logs the sensor
    callbacks fill ([collisions] holds the [other_actor] of each entry,
    as a type id). *)
Record Runner := {
  destination : option Location;
  has_ego_vehicle : bool;
  collisions : list nat;
  runner_lane_invasions : list nat;
  runner_red_lights_run : Z
}.

(** The ego vehicle as one loop iteration sees it. *)
Record Ego := {
  get_location : Location;
  get_velocity : Vector3D;
  forward_vector : Vector3D
}.

(** The state fields of [TCPEvaluator]. *)
Record TCPEvaluator := {
  metrics : EvaluationMetrics;
  start_time : Q;
  start_location : option Location;
  last_location : option Location;
  last_velocity : option Vector3D;
  last_time : Q;
  speed_history : list Q;
  acceleration_history : list Q;
  stuck_start_time : option Q
}.

(** The state [__init__] builds. *)
Definition TCPEvaluator_init : TCPEvaluator := {|
  metrics := EvaluationMetrics_default;
  start_time := 0;
  start_location := None;
  last_location := None;
  last_velocity := None;
  last_time := 0;
  speed_history := [];
  acceleration_history := [];
  stuck_start_time := None
|}.

Section WithSqrt.

(** The square root ([np.sqrt], and the one inside CARLA's
    [Location.distance]) has no exact counterpart on rationals; the
    model takes it as given. *)
Variable sqrt : Q -> Q.

(** [Location.distance]. *)
Definition distance (a b : Location) : Q :=
  sqrt ((x a - x b) * (x a - x b) + (y a - y b) * (y a - y b)
        + (z a - z b) * (z a - z b)).

(** [np.sqrt(velocity.x**2 + velocity.y**2 + velocity.z**2)]. *)
Definition speed_of (velocity : Vector3D) : Q :=
  sqrt (vx velocity * vx velocity + vy velocity * vy velocity
        + vz velocity * vz velocity).

(** The stuck-detection block of [update_metrics]: the new values of
    [stuck_start_time] and [metrics.stuck]. *)
Definition stuck_detection (cfg : EvaluationConfig) (speed current_time : Q)
    (timer : option Q) (flag : bool) : option Q * bool :=
  if Py.Qltb speed (stuck_speed_threshold cfg) then
    match timer with
    | None => (Some current_time, flag)
    | Some t0 =>
        if Py.Qltb (stuck_timeout cfg) (current_time - t0)
        then (timer, true)
        else (timer, flag)
    end
  else (None, flag).

(** The acceleration block of [update_metrics]: the new
    [acceleration_history], [max_acceleration] and [max_deceleration]. *)
Definition acceleration_update (ego : Ego) (current_time : Q)
    (ev : TCPEvaluator) : list Q * Q * Q :=
  let m := metrics ev in
  let unchanged :=
    (acceleration_history ev, max_acceleration m, max_deceleration m) in
  match last_velocity ev with
  | None => unchanged
  | Some last =>
      if Py.Qltb 0 (last_time ev) then
        let dt := current_time - last_time ev in
        if Py.Qltb 0 dt then
          let velocity := get_velocity ego in
          let accel_x := (vx velocity - vx last) / dt in
          let accel_y := (vy velocity - vy last) / dt in
          let accel := sqrt (accel_x * accel_x + accel_y * accel_y) in
          let forward := forward_vector ego in
          let long_accel := accel_x * vx forward + accel_y * vy forward in
          if Py.Qltb 0 long_accel then
            (acceleration_history ev ++ [accel],
             Py.max (max_acceleration m) long_accel,
             max_deceleration m)
          else
            (acceleration_history ev ++ [accel],
             max_acceleration m,
             Py.max (max_deceleration m) (Qabs long_accel))
        else unchanged
      else unchanged
  end.

(** [update_metrics]. *)
Definition update_metrics (cfg : EvaluationConfig) (runner : option Runner)
    (ego : Ego) (current_time : Q) (ev : TCPEvaluator) : TCPEvaluator :=
  let m := metrics ev in
  let location := get_location ego in
  let velocity := get_velocity ego in
  let speed := speed_of velocity in
  let '(accels, max_acc, max_dec) := acceleration_update ego current_time ev in
  let '(timer, flag) :=
    stuck_detection cfg speed current_time (stuck_start_time ev) (stuck m) in
  {| metrics := {|
       completed := completed m;
       completion_time := completion_time m;
       timeout_reached := timeout_reached m;
       stuck := flag;
       distance_traveled :=
         match last_location ev with
         | Some last => distance_traveled m + distance location last
         | None => distance_traveled m
         end;
       distance_to_destination :=
         match runner with
         | Some r =>
             match destination r with
             | Some dest => distance location dest
             | None => distance_to_destination m
             end
         | None => distance_to_destination m
         end;
       average_speed := average_speed m;
       max_speed := Py.max (max_speed m) speed;
       min_speed := min_bound (min_speed m) speed;
       num_collisions := num_collisions m;
       collision_types := collision_types m;
       red_lights_run := red_lights_run m;
       lane_invasions := lane_invasions m;
       max_acceleration := max_acc;
       max_deceleration := max_dec;
       max_lateral_acceleration := max_lateral_acceleration m;
       comfort_score := comfort_score m;
       route_deviation := route_deviation m
     |};
     start_time := start_time ev;
     start_location := start_location ev;
     last_location := Some location;
     last_velocity := Some velocity;
     last_time := current_time;
     speed_history := speed_history ev ++ [speed];
     acceleration_history := accels;
     stuck_start_time := timer
  |}.

(** [check_completion]: within 5 m of the destination. *)
Definition check_completion (runner : option Runner) (ego : Ego) : bool :=
  match runner with
  | None => false
  | Some r =>
      match destination r with
      | None => false
      | Some dest =>
          if has_ego_vehicle r
          then Py.Qltb (distance (get_location ego) dest) 5
          else false
      end
  end.

(** [finalize_metrics]. *)
Definition finalize_metrics (runner : option Runner) (elapsed_time : Q)
    (ev : TCPEvaluator) : TCPEvaluator :=
  let m := metrics ev in
  {| metrics := {|
       completed := completed m;
       completion_time := elapsed_time;
       timeout_reached := timeout_reached m;
       stuck := stuck m;
       distance_traveled := distance_traveled m;
       distance_to_destination := distance_to_destination m;
       average_speed :=
         if Py.truthy (speed_history ev)
         then Py.mean (speed_history ev)
         else average_speed m;
       max_speed := max_speed m;
       min_speed := min_speed m;
       num_collisions :=
         match runner with
         | Some r => length (collisions r)
         | None => num_collisions m
         end;
       collision_types :=
         match runner with
         | Some r => collisions r
         | None => collision_types m
         end;
       red_lights_run :=
         match runner with
         | Some r => runner_red_lights_run r
         | None => red_lights_run m
         end;
       lane_invasions :=
         match runner with
         | Some r => length (runner_lane_invasions r)
         | None => lane_invasions m
         end;
       max_acceleration := max_acceleration m;
       max_deceleration := max_deceleration m;
       max_lateral_acceleration := max_lateral_acceleration m;
       comfort_score :=
         if Py.truthy (acceleration_history ev)
         then
           let accel_variance := Py.var (acceleration_history ev) in
           Py.max 0 (100 - accel_variance * 10)
         else comfort_score m;
       route_deviation := route_deviation m
     |};
     start_time := start_time ev;
     start_location := start_location ev;
     last_location := last_location ev;
     last_velocity := last_velocity ev;
     last_time := last_time ev;
     speed_history := speed_history ev;
     acceleration_history := acceleration_history ev;
     stuck_start_time := stuck_start_time ev
  |}.

(** What can cut an iteration short: an interrupt from the keyboard or
    any other exception, raised either before [update_metrics] has run
    in that iteration or after it (in [world.tick()] or in the sleep). *)
Inductive Fault := KeyboardInterrupt | Exception.

Inductive Phase := BeforeUpdate | AfterUpdate.

(** One iteration of the loop as the outside world shapes it: the value
    [time.time()] returns at its top, the ego vehicle, and the fault
    that strikes during it, if any. *)
Record Tick := {
  now : Q;
  ego : Ego;
  fault : option (Phase * Fault)
}.

(** How the [while True] loop ends. *)
Inductive Exit := Break | Raise (f : Fault).

Definition with_metrics (ev : TCPEvaluator) (m : EvaluationMetrics)
    : TCPEvaluator :=
  {| metrics := m;
     start_time := start_time ev;
     start_location := start_location ev;
     last_location := last_location ev;
     last_velocity := last_velocity ev;
     last_time := last_time ev;
     speed_history := speed_history ev;
     acceleration_history := acceleration_history ev;
     stuck_start_time := stuck_start_time ev |}.

(** [self.metrics.timeout_reached = True]. *)
Definition set_timeout_reached (ev : TCPEvaluator) : TCPEvaluator :=
  let m := metrics ev in
  with_metrics ev {|
    completed := completed m;
    completion_time := completion_time m;
    timeout_reached := true;
    stuck := stuck m;
    distance_traveled := distance_traveled m;
    distance_to_destination := distance_to_destination m;
    average_speed := average_speed m;
    max_speed := max_speed m;
    min_speed := min_speed m;
    num_collisions := num_collisions m;
    collision_types := collision_types m;
    red_lights_run := red_lights_run m;
    lane_invasions := lane_invasions m;
    max_acceleration := max_acceleration m;
    max_deceleration := max_deceleration m;
    max_lateral_acceleration := max_lateral_acceleration m;
    comfort_score := comfort_score m;
    route_deviation := route_deviation m |}.

(** [self.metrics.completed = b]. *)
Definition set_completed (b : bool) (ev : TCPEvaluator) : TCPEvaluator :=
  let m := metrics ev in
  with_metrics ev {|
    completed := b;
    completion_time := completion_time m;
    timeout_reached := timeout_reached m;
    stuck := stuck m;
    distance_traveled := distance_traveled m;
    distance_to_destination := distance_to_destination m;
    average_speed := average_speed m;
    max_speed := max_speed m;
    min_speed := min_speed m;
    num_collisions := num_collisions m;
    collision_types := collision_types m;
    red_lights_run := red_lights_run m;
    lane_invasions := lane_invasions m;
    max_acceleration := max_acceleration m;
    max_deceleration := max_deceleration m;
    max_lateral_acceleration := max_lateral_acceleration m;
    comfort_score := comfort_score m;
    route_deviation := route_deviation m |}.

(** The main evaluation loop of [run_evaluation], one [Tick] per
    iteration.  [None]: the ticks are used up and the loop is still
    running.  The control branch is left out: [get_camera_image] always
    returns [None], so no control is ever computed or applied. *)
Fixpoint loop (cfg : EvaluationConfig) (runner : Runner) (ticks : list Tick)
    (ev : TCPEvaluator) : option (Exit * TCPEvaluator) :=
  match ticks with
  | [] => None
  | t :: rest =>
      let current_time := now t in
      let elapsed := current_time - start_time ev in
      if Py.Qltb (timeout cfg) elapsed then
        Some (Break, set_timeout_reached ev)
      else if stuck (metrics ev) then
        Some (Break, ev)
      else if check_completion (Some runner) (ego t) then
        Some (Break, set_completed true ev)
      else
        match fault t with
        | Some (BeforeUpdate, f) => Some (Raise f, ev)
        | Some (AfterUpdate, f) =>
            Some (Raise f, update_metrics cfg (Some runner) (ego t) elapsed ev)
        | None =>
            loop cfg runner rest
              (update_metrics cfg (Some runner) (ego t) elapsed ev)
        end
  end.

(** What [run_evaluation] does besides computing: the calls of
    [finalize_metrics] and of [runner.cleanup], in order. *)
Inductive Event := Finalize (elapsed : Q) | Cleanup.

(** The surroundings of one run: whether [setup_scenario] succeeds, the
    runner it leaves behind (with its event logs as they stand at the
    end), the clock at the start, the location of the ego vehicle at the
    start, the iterations, and the clock when the loop is over. *)
Record Env := {
  setup_scenario : bool;
  runner : Runner;
  t_start : Q;
  start_loc : Location;
  ticks : list Tick;
  t_end : Q
}.

(** What [run_evaluation] returns, the state it leaves, and its calls. *)
Record Report := {
  returned : EvaluationMetrics;
  final : TCPEvaluator;
  events : list Event
}.

Definition report (ev : TCPEvaluator) (l : list Event) : Report :=
  {| returned := metrics ev; final := ev; events := l |}.

(** The statements between the ego check and the loop. *)
Definition initialize (env : Env) (ev : TCPEvaluator) : TCPEvaluator :=
  {| metrics := metrics ev;
     start_time := t_start env;
     start_location := Some (start_loc env);
     last_location := Some (start_loc env);
     last_velocity := last_velocity ev;
     last_time := last_time ev;
     speed_history := speed_history ev;
     acceleration_history := acceleration_history ev;
     stuck_start_time := stuck_start_time ev |}.

(** [run_evaluation]: the [try] body, its two handlers and the
    [finally] clause.  [setup_scenario] always leaves a runner, so the
    [finally] clause always calls [cleanup]. *)
Definition run_evaluation (cfg : EvaluationConfig) (env : Env)
    (ev : TCPEvaluator) : option Report :=
  if negb (setup_scenario env) then
    Some (report (set_completed false ev) [Cleanup])
  else if negb (has_ego_vehicle (runner env)) then
    Some (report ev [Cleanup])
  else
    match loop cfg (runner env) (ticks env) (initialize env ev) with
    | None => None
    | Some (Break, ev') | Some (Raise KeyboardInterrupt, ev') =>
        let elapsed := t_end env - start_time ev' in
        Some (report (finalize_metrics (Some (runner env)) elapsed ev')
                [Finalize elapsed; Cleanup])
    | Some (Raise Exception, ev') =>
        Some (report ev' [Cleanup])
    end.

(** The [update_metrics] calls of a run of samples, each the ego vehicle
    and the time passed. *)
Definition update_all (cfg : EvaluationConfig) (runner : option Runner)
    (samples : list (Ego * Q)) (ev : TCPEvaluator) : TCPEvaluator :=
  fold_left (fun e s => update_metrics cfg runner (fst s) (snd s) e) samples ev.

(** The speed of a sample is below the stuck threshold. *)
Definition below (cfg : EvaluationConfig) (s : Ego * Q) : bool :=
  Py.Qltb (speed_of (get_velocity (fst s))) (stuck_speed_threshold cfg).

(** The stuck timer and the stuck flag of an evaluator. *)
Definition stuck_state (ev : TCPEvaluator) : option Q * bool :=
  (stuck_start_time ev, stuck (metrics ev)).

(** The samples of index [i] to [j] form an uninterrupted below-threshold
    interval that begins at [i]: each of them is below the threshold,
    and the sample before [i], if there is one, is not. *)
Definition interval (cfg : EvaluationConfig) (samples : list (Ego * Q))
    (i j : nat) : Prop :=
  (i <= j)%nat /\
  (forall k, (i <= k <= j)%nat ->
     exists s, samples !! k = Some s /\ below cfg s = true) /\
  (i = 0%nat \/
   exists s, samples !! (i - 1)%nat = Some s /\ below cfg s = false).

(** Some sample lies more than [stuck_timeout] after the first sample
    of the uninterrupted below-threshold interval it belongs to. *)
Definition fires (cfg : EvaluationConfig) (samples : list (Ego * Q)) : Prop :=
  exists i j si sj,
    (i < j)%nat /\ interval cfg samples i j /\
    samples !! i = Some si /\ samples !! j = Some sj /\
    stuck_timeout cfg < snd sj - snd si.

(** No sample of the run lies more than [stuck_timeout] after its first
    sample: the run alone does not exceed the timeout. *)
Definition brief (cfg : EvaluationConfig) (run : list (Ego * Q)) : Prop :=
  match run with
  | [] => True
  | first :: _ => Forall (fun s => snd s - snd first <= stuck_timeout cfg) run
  end.

End WithSqrt.

End Evaluator.

(* ===================================================================== *)
(** * Concrete inputs                                                     *)
(* ===================================================================== *)

Module Examples.
Import Schema Carla.

(** A generator whose every draw is [u]. *)
Definition constant_draws (u : Q) : Random.rng :=
  {| Random.draws := fun _ => u; Random.cursor := 0 |}.

Definition origin : Location := {| x := 0; y := 0; z := 0 |}.

Definition heading (deg : Q) : Transform :=
  {| t_location := origin;
     t_rotation := {| pitch := 0; yaw := deg; roll := 0 |} |}.

(** A map with one spawn point, no junction, and lanes that end
    everywhere. *)
Definition bare_map : CarlaMap := {|
  get_spawn_points := [heading 0];
  generate_waypoints := fun _ => [];
  get_junction := fun _ => None;
  get_traffic_lights_in_junction := fun _ => [];
  next := fun _ _ => [];
  previous := fun _ _ => [];
  get_waypoint := fun l =>
    {| wp_id := 0;
       wp_transform := {| t_location := l; t_rotation := t_rotation (heading 0) |};
       is_junction := false |};
  get_forward_vector := fun _ => {| vx := 1; vy := 0; vz := 0 |}
|}.

(** A straight maneuver at a signalled intersection, with a spawn point
    index. *)
Definition indexed (i : Z) : ManeuverConfig :=
  {| type := STRAIGHT; location := INTERSECTION_SIGNAL;
     spawn_point_index := i |}.

(** A vehicle configuration with rule-break probability [p] and every
    behaviour probability [q]. *)
Definition vehicle_config (p q : Q) : VehicleTrafficConfig :=
  {| v_rule_break_probability := p;
     v_behaviors := {| run_red_light := q; ignore_stop_sign := q;
                       sudden_lane_change := q; ignore_right_of_way := q;
                       sudden_brake := q; tailgate := q |} |}.

(** The same for pedestrians. *)
Definition pedestrian_config (p q : Q) : PedestrianTrafficConfig :=
  {| p_rule_break_probability := p;
     p_behaviors := {| jaywalk := q; ignore_signal := q;
                       sudden_crossing := q; stop_in_road := q |} |}.

(** Three actors: a vehicle, a walker controller and its walker. *)
Definition car : Actor := 7%nat.
Definition walker_controller : Actor := 3%nat.
Definition walker : Actor := 4%nat.

(** A square root for the examples: the integer square root of the
    integer part, exact on perfect squares. *)
Definition sqrt_floor (q : Q) : Q := inject_Z (Z.sqrt (Qfloor q)).

(** Timeout 120 s, stuck after 30 s below 0.5 m/s. *)
Definition evaluation_config : EvaluationConfig :=
  {| timeout := 120; stuck_timeout := 30; stuck_speed_threshold := 1 # 2 |}.

(** A runner with an ego vehicle, a destination [dest] and empty event
    logs. *)
Definition runner_to (dest : Location) : Evaluator.Runner :=
  {| Evaluator.destination := Some dest;
     Evaluator.has_ego_vehicle := true;
     Evaluator.collisions := [];
     Evaluator.runner_lane_invasions := [];
     Evaluator.runner_red_lights_run := 0 |}.

Definition far_away : Location := {| x := 100; y := 0; z := 0 |}.

Definition nearby : Location := {| x := 3; y := 0; z := 0 |}.

(** The ego vehicle at the origin, heading along x, with velocity
    [(vx, vy, 0)]. *)
Definition ego_at_origin (vx vy : Q) : Evaluator.Ego :=
  {| Evaluator.get_location := origin;
     Evaluator.get_velocity := {| Carla.vx := vx; Carla.vy := vy; Carla.vz := 0 |};
     Evaluator.forward_vector := {| Carla.vx := 1; Carla.vy := 0; Carla.vz := 0 |} |}.

(** One iteration at clock [t], the ego at 5 m/s, cut short by [f]
    after the metrics update. *)
Definition tick_faulted (t : Q) (f : Evaluator.Fault) : Evaluator.Tick :=
  {| Evaluator.now := t;
     Evaluator.ego := ego_at_origin 3 4;
     Evaluator.fault := Some (Evaluator.AfterUpdate, f) |}.

(** One undisturbed iteration at clock [t]. *)
Definition tick_at (t : Q) : Evaluator.Tick :=
  {| Evaluator.now := t;
     Evaluator.ego := ego_at_origin 3 4;
     Evaluator.fault := None |}.

(** A run that starts at clock 1000 with the destination [dest], goes
    through [ticks] and reads the clock 1002 when the loop is over. *)
Definition run_of (dest : Location) (ticks : list Evaluator.Tick)
    : Evaluator.Env :=
  {| Evaluator.setup_scenario := true;
     Evaluator.runner := runner_to dest;
     Evaluator.t_start := 1000;
     Evaluator.start_loc := origin;
     Evaluator.ticks := ticks;
     Evaluator.t_end := 1002 |}.

(** A standing sample and a moving sample (5 m/s) at time [t]. *)
Definition standing (t : Q) : Evaluator.Ego * Q := (ego_at_origin 0 0, t).

Definition moving (t : Q) : Evaluator.Ego * Q := (ego_at_origin 3 4, t).

End Examples.

(* ===================================================================== *)
(** * Notions used to state further properties                            *)
(* ===================================================================== *)

Module LocatorSpec.
Import Schema Carla Locator.

(** The id of the junction a waypoint lies in, if any. *)
Definition junction_of (m : CarlaMap) (wp : Waypoint) : option nat :=
  option_map junction_id (get_junction m wp).

(** The junction of [wp] has traffic lights. *)
Definition signalled (m : CarlaMap) (wp : Waypoint) : Prop :=
  exists j, get_junction m wp = Some j /\
            get_traffic_lights_in_junction m (junction_id j) <> [].

Definition unsignalled (m : CarlaMap) (wp : Waypoint) : Prop :=
  exists j, get_junction m wp = Some j /\
            get_traffic_lights_in_junction m (junction_id j) = [].

(** The pair [(entry_wp, exit_wp)] of a junction serves the maneuver and
    yields the plan [(spawn, dest)]: its turn angle is of the requested
    class, the lane has a waypoint 40 m before the entry, whose
    transform lifted by 0.5 is [spawn], and a waypoint 30 m after the
    exit, whose location is [dest]. *)
Definition serves (m : CarlaMap) (maneuver_type : ManeuverType)
    (entry_wp exit_wp : Waypoint) (spawn : Transform) (dest : Location)
    : Prop :=
  is_match maneuver_type
    (angle_diff (yaw (t_rotation (wp_transform entry_wp)))
                (yaw (t_rotation (wp_transform exit_wp)))) = true /\
  (exists spawn_wp rest, previous m entry_wp 40 = spawn_wp :: rest /\
                         spawn = lift (wp_transform spawn_wp)) /\
  (exists dest_wp rest, next m exit_wp 30 = dest_wp :: rest /\
                        dest = t_location (wp_transform dest_wp)).

End LocatorSpec.

Module EvaluatorSpec.
Import Schema Carla Evaluator.

(** The samples [update_metrics] receives from a list of iterations of
    a loop started at clock [start]: the ego vehicle and the elapsed
    time. *)
Definition samples_of (start : Q) (ticks : list Tick) : list (Ego * Q) :=
  map (fun t => (ego t, now t - start)) ticks.

Section WithSqrt.

Variable sqrt : Q -> Q.

(** The length of the polyline through the locations, each leg measured
    by [Location.distance] from the later point to the earlier one. *)
Fixpoint path_length (l : list Location) : Q :=
  match l with
  | a :: (b :: _) as rest => distance sqrt b a + path_length rest
  | _ => 0
  end.

(** An iteration that runs to its end: no fault, the timeout has not
    passed, and the ego vehicle is not at the destination. *)
Definition calm (cfg : EvaluationConfig) (r : Runner) (start : Q) (t : Tick)
    : Prop :=
  fault t = None /\
  now t - start <= timeout cfg /\
  check_completion sqrt (Some r) (ego t) = false.

(** The invariant that ties the running extrema to the speed history. *)
Definition extrema_of_history (ev : TCPEvaluator) : Prop :=
  Forall (fun s => s <= max_speed (metrics ev)) (speed_history ev) /\
  (max_speed (metrics ev) = 0 \/
   In (max_speed (metrics ev)) (speed_history ev)) /\
  match min_speed (metrics ev) with
  | PosInf => speed_history ev = []
  | Fin m => In m (speed_history ev) /\
             Forall (fun s => m <= s) (speed_history ev)
  end.

End WithSqrt.

End EvaluatorSpec.

(* ===================================================================== *)
(** * Traffic: [scenario_schema.py] densities, [_spawn_vehicles]          *)
(* ===================================================================== *)

Module Traffic.
Import Schema Carla Injector.

Inductive TrafficDensity := NONE | LOW | MEDIUM | HIGH.

(** [VEHICLE_DENSITY_MAP] and [PEDESTRIAN_DENSITY_MAP]: the least and
    the greatest count of a density. *)
Definition VEHICLE_DENSITY_MAP (d : TrafficDensity) : Z * Z :=
  match d with
  | NONE => (0, 0)
  | LOW => (10, 20)
  | MEDIUM => (30, 50)
  | HIGH => (60, 100)
  end%Z.

Definition PEDESTRIAN_DENSITY_MAP (d : TrafficDensity) : Z * Z :=
  match d with
  | NONE => (0, 0)
  | LOW => (5, 10)
  | MEDIUM => (15, 30)
  | HIGH => (40, 60)
  end%Z.

(** A blueprint of the library, by its number. *)
Definition Blueprint := nat.

(** What [_spawn_vehicles] reads of the session: the density and the
    rest of the vehicle configuration; the value [random.randint]
    returns for a range; the vehicle blueprints left by the bike and
    motorcycle filter; the spawn points of the map as [random.shuffle]
    leaves them; the location of the ego vehicle, [None] without an ego
    vehicle; and [world.try_spawn_actor], whose answer may depend on
    the vehicles spawned before, [None] when the spawn fails.  The ego
    vehicle stays where it is while the traffic is spawned. *)
Record Session := {
  density : TrafficDensity;
  vehicle_config : VehicleTrafficConfig;
  randint : Z -> Z -> Z;
  vehicle_bps : list Blueprint;
  spawn_points : list Transform;
  ego_location : option Location;
  try_spawn_actor : list Actor -> Blueprint -> Transform -> option Actor
}.

(** One [try_spawn_actor] call and its result. *)
Record Attempt := {
  blueprint : Blueprint;
  point : Transform;
  result : option Actor
}.

(** What [_spawn_vehicles] writes: the generator and the traffic
    manager calls of the behaviour injector, [self.vehicles], the
    [try_spawn_actor] calls made, oldest first, and the vehicles
    [set_autopilot(True, port)] was called on. *)
Record Fleet := {
  world : Injector.World;
  vehicles : list Actor;
  attempts : list Attempt;
  autopilot : list Actor
}.

(** [get_vehicle_count_range]. *)
Definition get_vehicle_count_range (s : Session) : Z * Z :=
  VEHICLE_DENSITY_MAP (density s).

Section WithSqrt.

Variable sqrt : Q -> Q.

(** The test that skips a spawn point: there is an ego vehicle and the
    point is less than 20 m from it. *)
Definition too_close (s : Session) (spawn_point : Transform) : bool :=
  match ego_location s with
  | Some ego_loc =>
      Py.Qltb (Evaluator.distance sqrt (t_location spawn_point) ego_loc) 20
  | None => false
  end.

(** The [for] loop of [_spawn_vehicles] over the spawn points left,
    with the value of [spawned].  [None] stands for the [IndexError] of
    [random.choice] on an empty blueprint list.  Setting the role name
    of the blueprint is left out. *)
Fixpoint spawn_loop (s : Session) (target_count : Z)
    (points : list Transform) (spawned : Z) (st : Fleet)
    : option (Z * Fleet) :=
  match points with
  | [] => Some (spawned, st)
  | spawn_point :: rest =>
      if (target_count <=? spawned)%Z then Some (spawned, st)
      else if too_close s spawn_point then
        spawn_loop s target_count rest spawned st
      else
        let (choice, g) := Random.choice (vehicle_bps s) (gen (world st)) in
        match choice with
        | None => None
        | Some bp =>
            let w := {| gen := g; calls := calls (world st) |} in
            match try_spawn_actor s (vehicles st) bp spawn_point with
            | Some vehicle =>
                let (_, w') :=
                  apply_vehicle_behavior vehicle (vehicle_config s) w in
                spawn_loop s target_count rest (spawned + 1)
                  {| world := w';
                     vehicles := vehicles st ++ [vehicle];
                     attempts := attempts st
                                 ++ [{| blueprint := bp; point := spawn_point;
                                        result := Some vehicle |}];
                     autopilot := autopilot st ++ [vehicle] |}
            | None =>
                spawn_loop s target_count rest spawned
                  {| world := w;
                     vehicles := vehicles st;
                     attempts := attempts st
                                 ++ [{| blueprint := bp; point := spawn_point;
                                        result := None |}];
                     autopilot := autopilot st |}
            end
        end
  end.

(** [_spawn_vehicles]. *)
Definition spawn_vehicles (s : Session) (st : Fleet) : option Fleet :=
  let (min_count, max_count) := get_vehicle_count_range s in
  if (max_count =? 0)%Z then Some st
  else
    let target_count := randint s min_count max_count in
    match spawn_loop s target_count (spawn_points s) 0 st with
    | Some (_, st') => Some st'
    | None => None
    end.

End WithSqrt.

(** The actor a call is made for. *)
Definition subject (c : call) : Actor :=
  match c with
  | ignore_lights_percentage v _ => v
  | ignore_signs_percentage v _ => v
  | random_left_lanechange_percentage v _ => v
  | random_right_lanechange_percentage v _ => v
  | ignore_vehicles_percentage v _ => v
  | distance_to_leading_vehicle v _ => v
  | vehicle_percentage_speed_difference v _ => v
  | set_max_speed v _ => v
  | go_to_location v _ => v
  end.

(** The vehicles a list of attempts spawned. *)
Definition spawned_by (l : list Attempt) : list Actor := omap result l.

(** The spawn points the loop does not skip. *)
Definition eligible (sqrt : Q -> Q) (s : Session) (points : list Transform)
    : list Transform :=
  List.filter (fun p => negb (too_close sqrt s p)) points.

End Traffic.

Module Cases.
Import Schema Carla.

(** A waypoint at the origin with the given id, heading and junction
    flag. *)
Definition waypoint (id : nat) (deg : Q) (junction : bool) : Waypoint :=
  {| wp_id := id; wp_transform := Examples.heading deg; is_junction := junction |}.

(** A map with one signalled junction, number 1, sampled by the
    waypoints 10 and 11; its only pair enters heading 0 and leaves
    heading -90 (a left turn); every lane goes on in both directions. *)
Definition left_turn_map : CarlaMap := {|
  get_spawn_points := [Examples.heading 0];
  generate_waypoints := fun _ => [waypoint 10 0 true; waypoint 11 0 true];
  get_junction := fun wp =>
    if is_junction wp
    then Some {| junction_id := 1;
                 get_waypoints := [(waypoint 20 0 true, waypoint 21 (-90) true)] |}
    else None;
  get_traffic_lights_in_junction := fun _ => [5%nat];
  next := fun wp _ => [waypoint 31 (yaw (t_rotation (wp_transform wp))) false];
  previous := fun wp _ => [waypoint 30 (yaw (t_rotation (wp_transform wp))) false];
  get_waypoint := fun l => waypoint 0 0 false;
  get_forward_vector := fun _ => {| vx := 1; vy := 0; vz := 0 |}
|}.

(** A map with nothing on it: no spawn point, no junction. *)
Definition empty_map : CarlaMap := {|
  get_spawn_points := [];
  generate_waypoints := fun _ => [];
  get_junction := fun _ => None;
  get_traffic_lights_in_junction := fun _ => [];
  next := fun _ _ => [];
  previous := fun _ _ => [];
  get_waypoint := fun l => waypoint 0 0 false;
  get_forward_vector := fun _ => {| vx := 1; vy := 0; vz := 0 |}
|}.

(** A left turn at a signalled intersection, no spawn point index. *)
Definition left_turn : ManeuverConfig :=
  {| type := LEFT_TURN; location := INTERSECTION_SIGNAL;
     spawn_point_index := -1 |}.

(** A straight drive on a road segment, no spawn point index. *)
Definition road_segment : ManeuverConfig :=
  {| type := STRAIGHT; location := ROAD_SEGMENT; spawn_point_index := -1 |}.

(** The ego vehicle at rest at [l], heading along x. *)
Definition ego_at (l : Location) : Evaluator.Ego :=
  {| Evaluator.get_location := l;
     Evaluator.get_velocity := {| vx := 0; vy := 0; vz := 0 |};
     Evaluator.forward_vector := {| vx := 1; vy := 0; vz := 0 |} |}.

(** The evaluator of a run towards a far destination, just before its
    loop. *)
Definition fresh : Evaluator.TCPEvaluator :=
  Evaluator.initialize (Examples.run_of Examples.far_away [])
    Evaluator.TCPEvaluator_init.

(** One undisturbed iteration at clock [t] with the ego vehicle at
    rest. *)
Definition tick_at_rest (t : Q) : Evaluator.Tick :=
  {| Evaluator.now := t;
     Evaluator.ego := Examples.ego_at_origin 0 0;
     Evaluator.fault := None |}.

(** One undisturbed iteration at clock [t] with the ego vehicle at rest
    at [l]. *)
Definition tick_from (t : Q) (l : Location) : Evaluator.Tick :=
  {| Evaluator.now := t;
     Evaluator.ego := ego_at l;
     Evaluator.fault := None |}.

(** A transform [d] m along x from the origin. *)
Definition along_x (d : Q) : Transform :=
  {| t_location := {| x := d; y := 0; z := 0 |};
     t_rotation := t_rotation (Examples.heading 0) |}.

(** A session of low density in which [random.randint] returns the
    least count of the range, with the blueprints [bps] and spawn
    points 0 m, 100 m and 200 m from the ego vehicle, and in which every
    spawn succeeds and gives a new actor. *)
Definition town (bps : list Traffic.Blueprint) : Traffic.Session :=
  {| Traffic.density := Traffic.LOW;
     Traffic.vehicle_config := Examples.vehicle_config (1 # 2) 0;
     Traffic.randint := fun lo _ => lo;
     Traffic.vehicle_bps := bps;
     Traffic.spawn_points := [along_x 0; along_x 100; along_x 200];
     Traffic.ego_location := Some Examples.origin;
     Traffic.try_spawn_actor := fun vs _ _ => Some (100 + length vs)%nat |}.

(** No traffic yet, and a generator whose every draw is 1/4. *)
Definition no_traffic : Traffic.Fleet :=
  {| Traffic.world := {| Injector.gen := Examples.constant_draws (1 # 4);
                         Injector.calls := [] |};
     Traffic.vehicles := [];
     Traffic.attempts := [];
     Traffic.autopilot := [] |}.

End Cases.

(* ===================================================================== *)
(** * Arithmetic facts                                                    *)
(* ===================================================================== *)

Section Arithmetic.

Lemma Qltb_lt (a b : Q) : Py.Qltb a b = true <-> a < b.
Proof.
  unfold Py.Qltb. rewrite negb_true_iff.
  split.
  - intros H. apply Qnot_le_lt. intros Hle.
    apply Qle_bool_iff in Hle. congruence.
  - intros H. destruct (Qle_bool b a) eqn:E; [|reflexivity].
    apply Qle_bool_iff in E. lra.
Qed.

Lemma Qltb_ge (a b : Q) : Py.Qltb a b = false <-> b <= a.
Proof.
  unfold Py.Qltb. rewrite negb_false_iff. apply Qle_bool_iff.
Qed.

Lemma Qltb_comp (a a' b b' : Q) :
  a == a' -> b == b' -> Py.Qltb a b = Py.Qltb a' b'.
Proof.
  intros Ha Hb.
  destruct (Py.Qltb a b) eqn:E, (Py.Qltb a' b') eqn:E'; try reflexivity.
  - apply Qltb_lt in E. apply Qltb_ge in E'. lra.
  - apply Qltb_ge in E. apply Qltb_lt in E'. lra.
Qed.

(** [x % y] lies in [0, y) for a positive [y]. *)
Lemma mod_range (x y : Q) : 0 < y -> 0 <= Py.mod_ x y /\ Py.mod_ x y < y.
Proof.
  intros Hy. unfold Py.mod_.
  pose proof (Qfloor_le (x / y)) as Hlo.
  pose proof (Qlt_floor (x / y)) as Hhi.
  rewrite inject_Z_plus in Hhi.
  set (f := inject_Z (Qfloor (x / y))) in *.
  assert (Hx : x == (x / y) * y) by (field; lra).
  split.
  - assert (f * y <= (x / y) * y) by (apply Qmult_le_compat_r; lra).
    lra.
  - assert ((x / y) * y < (f + inject_Z 1) * y)
      by (apply Qmult_lt_compat_r; lra).
    change (inject_Z 1) with 1 in *. lra.
Qed.

Lemma max_ge_l (a b : Q) : a <= Py.max a b.
Proof.
  unfold Py.max. destruct (Py.Qltb a b) eqn:E; [|lra].
  apply Qltb_lt in E. lra.
Qed.

Lemma max_comp_r (a b b' : Q) : b == b' -> Py.max a b == Py.max a b'.
Proof.
  intros Hb. unfold Py.max. rewrite (Qltb_comp a a b b') by lra.
  destruct (Py.Qltb a b'); lra.
Qed.

(** [max(0, 100 - 10 v)] does not grow with [v]. *)
Lemma comfort_antitone (v v' : Q) :
  v <= v' -> Py.max 0 (100 - v' * 10) <= Py.max 0 (100 - v * 10).
Proof.
  intros H. unfold Py.max.
  destruct (Py.Qltb 0 (100 - v' * 10)) eqn:E';
    destruct (Py.Qltb 0 (100 - v * 10)) eqn:E;
    try apply Qltb_lt in E; try apply Qltb_lt in E';
    try apply Qltb_ge in E; try apply Qltb_ge in E'; lra.
Qed.

End Arithmetic.

(* ===================================================================== *)
(** * The maneuver locator                                                *)
(* ===================================================================== *)

Section LocatorFacts.
Import Schema Carla Locator.

(** The turn angle of a half turn is -180. *)
Lemma angle_diff_half_turn : angle_diff 0 180 == -180.
Proof. reflexivity. Qed.

(** C8, as the specification states it, fails: for the headings 0 and
    180 the normalised turn angle is -180, which is not in the interval
    (-180, 180]. *)
Lemma angle_diff_not_above_minus_180 :
  ~ (-180 < angle_diff 0 180 /\ angle_diff 0 180 <= 180).
Proof.
  intros [H _]. rewrite angle_diff_half_turn in H. lra.
Qed.

(** C8, amended: for all headings the normalised turn angle is the
    value [(exit - entry + 180) % 360 - 180] and lies in the closed
    interval [-180, 180]: at least -180, which it takes at a half turn,
    and at most 180.  The upper end is kept: the source computes the
    remainder in floating point, where it can round up to the modulus,
    so no strict bound is claimed there. *)
Theorem angle_diff_range (entry_heading exit_heading : Q) :
  angle_diff entry_heading exit_heading
  = Py.mod_ (exit_heading - entry_heading + 180) 360 - 180 /\
  -180 <= angle_diff entry_heading exit_heading /\
  angle_diff entry_heading exit_heading <= 180.
Proof.
  split; [reflexivity|].
  unfold angle_diff.
  destruct (mod_range (exit_heading - entry_heading + 180) 360) as [Hlo Hhi];
    [lra|].
  split; lra.
Qed.

Lemma is_match_straight (theta : Q) :
  is_match STRAIGHT theta = true <-> Qabs theta < 30.
Proof.
  unfold is_match. cbn [ManeuverType_eqb andb].
  destruct (Py.Qltb (Qabs theta) 30) eqn:E.
  - apply Qltb_lt in E. tauto.
  - apply Qltb_ge in E. split; [discriminate | lra].
Qed.

Lemma is_match_left (theta : Q) :
  is_match LEFT_TURN theta = true <-> -120 < theta /\ theta < -60.
Proof.
  unfold is_match. cbn [ManeuverType_eqb andb].
  destruct (Py.Qltb (-120) theta) eqn:E1, (Py.Qltb theta (-60)) eqn:E2;
    cbn [andb];
    try apply Qltb_lt in E1; try apply Qltb_lt in E2;
    try apply Qltb_ge in E1; try apply Qltb_ge in E2;
    (split; [ first [discriminate | tauto] | intros [? ?]; first [reflexivity | lra] ]).
Qed.

Lemma is_match_right (theta : Q) :
  is_match RIGHT_TURN theta = true <-> 60 < theta /\ theta < 120.
Proof.
  unfold is_match. cbn [ManeuverType_eqb andb].
  destruct (Py.Qltb 60 theta) eqn:E1, (Py.Qltb theta 120) eqn:E2;
    cbn [andb];
    try apply Qltb_lt in E1; try apply Qltb_lt in E2;
    try apply Qltb_ge in E1; try apply Qltb_ge in E2;
    (split; [ first [discriminate | tauto] | intros [? ?]; first [reflexivity | lra] ]).
Qed.

Lemma Qabs_lt_iff (a b : Q) : Qabs a < b <-> -b < a /\ a < b.
Proof.
  split.
  - intros H. pose proof (Qle_Qabs a). pose proof (Qle_Qabs (- a)) as H'.
    rewrite Qabs_opp in H'. split; lra.
  - intros [H1 H2]. apply Qabs_case; intros; lra.
Qed.

Lemma Qabs_ge_iff (a b : Q) : b <= Qabs a <-> a <= -b \/ b <= a.
Proof.
  split.
  - intros H. destruct (Qlt_le_dec a 0) as [Hn|Hp].
    + left. rewrite Qabs_neg in H by lra. lra.
    + right. rewrite Qabs_pos in H by lra. lra.
  - intros [H|H]; apply Qabs_case; intros; lra.
Qed.

Lemma is_match_comp (m : ManeuverType) (theta theta' : Q) :
  theta == theta' -> is_match m theta = is_match m theta'.
Proof.
  intros H. unfold is_match.
  assert (Ha : Qabs theta == Qabs theta') by (rewrite H; reflexivity).
  rewrite (Qltb_comp (Qabs theta) (Qabs theta') 30 30) by lra.
  rewrite (Qltb_comp (-120) (-120) theta theta') by lra.
  rewrite (Qltb_comp theta theta' (-60) (-60)) by lra.
  rewrite (Qltb_comp 60 60 theta theta') by lra.
  rewrite (Qltb_comp theta theta' 120 120) by lra.
  reflexivity.
Qed.

(** C1: for every (entry, exit) pair of a junction, with theta the
    normalised angle [(exit - entry + 180) % 360 - 180] of the headings
    of the pair, the test of the junction loop holds for STRAIGHT iff
    |theta| < 30, for LEFT_TURN iff -120 < theta < -60 and for
    RIGHT_TURN iff 60 < theta < 120; the loop passes over a pair that
    is outside the band of the requested maneuver and returns the plan
    of a pair inside it that has its two waypoints; two pairs with the
    same theta are classified alike; the three bands are pairwise
    disjoint; and a pair whose theta is in [30, 60], in [-60, -30] or
    has |theta| >= 120 (the region around +-180) matches none of the
    three. *)
Theorem turn_classification (m : CarlaMap) (entry_wp exit_wp : Waypoint)
    (rest : list (Waypoint * Waypoint)) :
  let entry_heading := yaw (t_rotation (wp_transform entry_wp)) in
  let exit_heading := yaw (t_rotation (wp_transform exit_wp)) in
  let theta := Py.mod_ (exit_heading - entry_heading + 180) 360 - 180 in
  let band (maneuver_type : ManeuverType) : Prop :=
    match maneuver_type with
    | STRAIGHT => Qabs theta < 30
    | LEFT_TURN => -120 < theta /\ theta < -60
    | RIGHT_TURN => 60 < theta /\ theta < 120
    end in
  (forall mt,
     is_match mt (angle_diff entry_heading exit_heading) = true <-> band mt) /\
  (forall mt,
     ~ band mt ->
     scan_pairs m mt ((entry_wp, exit_wp) :: rest) = scan_pairs m mt rest) /\
  (forall mt spawn_wp before dest_wp after,
     band mt ->
     previous m entry_wp 40 = spawn_wp :: before ->
     next m exit_wp 30 = dest_wp :: after ->
     scan_pairs m mt ((entry_wp, exit_wp) :: rest)
     = Some (lift (wp_transform spawn_wp), t_location (wp_transform dest_wp))) /\
  (forall (entry_wp' exit_wp' : Waypoint) mt,
     Py.mod_ (yaw (t_rotation (wp_transform exit_wp'))
              - yaw (t_rotation (wp_transform entry_wp')) + 180) 360 - 180
     == theta ->
     is_match mt (angle_diff (yaw (t_rotation (wp_transform entry_wp')))
                             (yaw (t_rotation (wp_transform exit_wp'))))
     = is_match mt (angle_diff entry_heading exit_heading)) /\
  (forall m1 m2, band m1 -> band m2 -> m1 = m2) /\
  (forall mt,
     (30 <= theta /\ theta <= 60) \/ (-60 <= theta /\ theta <= -30)
     \/ 120 <= Qabs theta ->
     ~ band mt).
Proof.
  intros entry_heading exit_heading theta band.
  change (angle_diff entry_heading exit_heading) with theta.
  assert (Hband : forall mt, is_match mt theta = true <-> band mt).
  { intros [| |]; cbn [band].
    - apply is_match_straight.
    - apply is_match_left.
    - apply is_match_right. }
  split; [exact Hband|].
  split.
  { intros mt Hout. cbn [scan_pairs].
    change (angle_diff (yaw (t_rotation (wp_transform entry_wp)))
                       (yaw (t_rotation (wp_transform exit_wp))))
      with theta.
    destruct (is_match mt theta) eqn:E; [|reflexivity].
    destruct Hout. apply Hband. exact E. }
  split.
  { intros mt spawn_wp before dest_wp after Hin Hprev Hnext.
    cbn [scan_pairs].
    change (angle_diff (yaw (t_rotation (wp_transform entry_wp)))
                       (yaw (t_rotation (wp_transform exit_wp))))
      with theta.
    apply Hband in Hin. rewrite Hin, Hprev, Hnext. reflexivity. }
  split.
  { intros entry_wp' exit_wp' mt Heq. apply is_match_comp. exact Heq. }
  split.
  - intros m1 m2 H1 H2.
    destruct m1, m2; try reflexivity; cbn [band] in H1, H2;
      try apply Qabs_lt_iff in H1; try apply Qabs_lt_iff in H2; lra.
  - intros mt Hdead Hin.
    assert (Hz : (30 <= theta /\ theta <= 60) \/ (-60 <= theta /\ theta <= -30)
                 \/ (theta <= -120 \/ 120 <= theta)).
    { destruct Hdead as [H|[H|H]]; [tauto|tauto|].
      right; right. apply Qabs_ge_iff in H. exact H. }
    destruct mt; cbn [band] in Hin; try apply Qabs_lt_iff in Hin; lra.
Qed.

(** The pair test of the junction loop is the classification of the
    pair's turn angle. *)
Lemma scan_pairs_skips_unmatched (m : CarlaMap) (mt : ManeuverType)
    (entry_wp exit_wp : Waypoint) (rest : list (Waypoint * Waypoint)) :
  is_match mt (angle_diff (yaw (t_rotation (wp_transform entry_wp)))
                          (yaw (t_rotation (wp_transform exit_wp)))) = false ->
  scan_pairs m mt ((entry_wp, exit_wp) :: rest) = scan_pairs m mt rest.
Proof. intros H. cbn [scan_pairs]. rewrite H. reflexivity. Qed.

(** C9, as the specification states it, fails: on a map with a single
    spawn point, the index 1 is a supplied index (it is >= 0), there is no
    spawn point of that index, and the code answers with the spawn point
    of index 0, picked by the random fallback. *)
Lemma supplied_index_out_of_range :
  (0 <= spawn_point_index (Examples.indexed 1))%Z /\
  nth_error (get_spawn_points Examples.bare_map)
            (Z.to_nat (spawn_point_index (Examples.indexed 1))) = None /\
  fst (find_maneuver_location Examples.bare_map (Examples.indexed 1)
         (Examples.constant_draws 0))
  = Some (Examples.heading 0, {| x := 0 + 1 * 100; y := 0 + 0 * 100; z := 0 |}) /\
  Random.cursor
    (snd (find_maneuver_location Examples.bare_map (Examples.indexed 1)
            (Examples.constant_draws 0))) = 1%nat.
Proof.
  split; [vm_compute; discriminate|].
  split; [reflexivity|].
  split; reflexivity.
Qed.

(** C9, amended: when the supplied index is at least 0 and below the
    number of spawn points, [find_maneuver_location] returns that spawn
    point, with the location 100 m down the lane as destination, or,
    when the lane has no waypoint there, the spawn location moved 100 m
    along the forward vector; no random draw is made.  When the index is
    not below the number of spawn points, the search goes on as if no
    index had been supplied. *)
Theorem find_maneuver_location_indexed (m : CarlaMap) (cfg : ManeuverConfig)
    (g : Random.rng) :
  (0 <= spawn_point_index cfg)%Z ->
  match nth_error (get_spawn_points m) (Z.to_nat (spawn_point_index cfg)) with
  | Some spawn =>
      find_maneuver_location m cfg g =
      (Some (spawn,
             match next m (get_waypoint m (t_location spawn)) 100 with
             | wp :: _ => t_location (wp_transform wp)
             | [] =>
                 {| x := x (t_location spawn)
                         + vx (get_forward_vector m spawn) * 100;
                    y := y (t_location spawn)
                         + vy (get_forward_vector m spawn) * 100;
                    z := z (t_location spawn) |}
             end), g)
  | None => find_maneuver_location m cfg g = search_location m cfg g
  end.
Proof.
  intros Hidx. unfold find_maneuver_location.
  apply Z.leb_le in Hidx. rewrite Hidx.
  destruct (nth_error (get_spawn_points m) (Z.to_nat (spawn_point_index cfg)))
    as [spawn|] eqn:E.
  - assert (Hlt : (Z.to_nat (spawn_point_index cfg) < length (get_spawn_points m))%nat)
      by (apply nth_error_Some; congruence).
    assert (Hb : (spawn_point_index cfg <? Z.of_nat (length (get_spawn_points m)))%Z = true).
    { apply Z.ltb_lt. apply Z.leb_le in Hidx. lia. }
    rewrite Hb. reflexivity.
  - apply nth_error_None in E.
    assert (Hb : (spawn_point_index cfg <? Z.of_nat (length (get_spawn_points m)))%Z = false).
    { apply Z.ltb_ge. apply Z.leb_le in Hidx. lia. }
    rewrite Hb. reflexivity.
Qed.

(** The amended C9 at the index 0 of the one-spawn-point map. *)
Lemma find_maneuver_location_indexed_witness :
  find_maneuver_location Examples.bare_map (Examples.indexed 0)
    (Examples.constant_draws 0)
  = (Some (Examples.heading 0, {| x := 0 + 1 * 100; y := 0 + 0 * 100; z := 0 |}),
     Examples.constant_draws 0).
Proof.
  exact (find_maneuver_location_indexed Examples.bare_map (Examples.indexed 0)
           (Examples.constant_draws 0) ltac:(vm_compute; discriminate)).
Defined.

End LocatorFacts.

(* ===================================================================== *)
(** * The behaviour injector                                              *)
(* ===================================================================== *)

Section InjectorFacts.
Import Schema Carla Injector.

(** The calls of [_apply_vehicle_behavior], draw by draw. *)
Lemma vehicle_calls_eq (vehicle : Actor) (config : VehicleTrafficConfig)
    (g : Random.rng) :
  let d := Random.draws g in
  let c := Random.cursor g in
  let b := v_behaviors config in
  vehicle_calls vehicle config g =
  if Py.Qltb (v_rule_break_probability config) (d c) then []
  else
    opt (Py.Qltb (d (1 + c)%nat) (run_red_light b))
      [ignore_lights_percentage vehicle 100]
    ++ opt (Py.Qltb (d (2 + c)%nat) (ignore_stop_sign b))
      [ignore_signs_percentage vehicle 100]
    ++ opt (Py.Qltb (d (3 + c)%nat) (sudden_lane_change b))
      [random_left_lanechange_percentage vehicle 50;
       random_right_lanechange_percentage vehicle 50]
    ++ opt (Py.Qltb (d (4 + c)%nat) (ignore_right_of_way b))
      [ignore_vehicles_percentage vehicle 50]
    ++ opt (Py.Qltb (d (5 + c)%nat) (tailgate b))
      [distance_to_leading_vehicle vehicle 1]
    ++ [vehicle_percentage_speed_difference vehicle
          (-20 + (30 - -20) * d (6 + c)%nat)].
Proof.
  destruct g as [d c].
  unfold vehicle_calls, apply_vehicle_behavior, bind, random, uniform, when,
    emit, ret, Random.uniform, Random.random, opt.
  cbn [gen calls Random.draws Random.cursor fst snd Nat.add].
  repeat (match goal with
          | |- context [if Py.Qltb ?a ?b then _ else _] =>
              destruct (Py.Qltb a b)
          end;
          cbn [gen calls Random.draws Random.cursor fst snd Nat.add app]).
  all: reflexivity.
Qed.

(** The calls of [_apply_pedestrian_behavior], draw by draw.  The
    jaywalk block draws the walking speed, so the later draws sit one
    place further when it runs. *)
Lemma pedestrian_calls_eq (controller walker : Actor)
    (ego_loc : option Location) (config : PedestrianTrafficConfig)
    (g : Random.rng) :
  let d := Random.draws g in
  let c := Random.cursor g in
  let b := p_behaviors config in
  pedestrian_calls controller walker ego_loc config g =
  if Py.Qltb (p_rule_break_probability config) (d c) then []
  else
    let j := Py.Qltb (d (1 + c)%nat) (jaywalk b) in
    let c' := if j then (3 + c)%nat else (2 + c)%nat in
    opt j [set_max_speed controller ((3 # 2) + (3 - (3 # 2)) * d (2 + c)%nat)]
    ++ opt (Py.Qltb (d (1 + c')%nat) (sudden_crossing b))
         match ego_loc with
         | Some ego =>
             [go_to_location controller
                {| x := x ego + (-10 + (10 - -10) * d (2 + c')%nat);
                   y := y ego + (-10 + (10 - -10) * d (3 + c')%nat);
                   z := z ego |}]
         | None => []
         end.
Proof.
  destruct g as [d c].
  unfold pedestrian_calls, apply_pedestrian_behavior, bind, random, uniform,
    when, emit, ret, Random.uniform, Random.random, opt.
  cbn [gen calls Random.draws Random.cursor fst snd Nat.add].
  destruct ego_loc as [ego|].
  all: repeat (match goal with
               | |- context [if Py.Qltb ?a ?b then _ else _] =>
                   destruct (Py.Qltb a b)
               end;
               cbn [gen calls Random.draws Random.cursor fst snd Nat.add app]).
  all: reflexivity.
Qed.

(** A probability test against 1 passes for every draw below 1. *)
Lemma draw_below_one (u p : Q) : u < 1 -> p == 1 -> Py.Qltb u p = true.
Proof. intros Hu Hp. apply Qltb_lt. lra. Qed.

(** A draw never exceeds the probability 1. *)
Lemma draw_not_above_one (u p : Q) : u < 1 -> p == 1 -> Py.Qltb p u = false.
Proof. intros Hu Hp. apply Qltb_ge. lra. Qed.

(** C4, as the specification states it, fails: with rule-break
    probability 1/2 and a first draw of 3/4 the vehicle is left alone,
    and no speed difference is set for it. *)
Lemma law_abiding_vehicle_gets_no_speed_difference :
  Random.unit_draws (Random.draws (Examples.constant_draws (3 # 4))) /\
  VehicleTrafficConfig_valid (Examples.vehicle_config (1 # 2) 1) /\
  vehicle_calls Examples.car (Examples.vehicle_config (1 # 2) 1)
    (Examples.constant_draws (3 # 4)) = [] /\
  speed_calls Examples.car
    (vehicle_calls Examples.car (Examples.vehicle_config (1 # 2) 1)
       (Examples.constant_draws (3 # 4))) = [].
Proof.
  split; [intros n; cbn; lra|].
  split; [unfold VehicleTrafficConfig_valid, VehicleBehaviors_valid, probability;
          cbn; repeat split; lra|].
  split; reflexivity.
Qed.

(** C4, amended: for every vehicle, configuration and stream of draws
    in [0, 1), a vehicle whose rule-break draw does not exceed the
    rule-break probability gets exactly one speed difference, whatever
    the behaviour draws are: the percentage [-20 + 50 u] for the seventh
    draw [u], which lies in [-20, 30); a vehicle whose draw exceeds the
    probability gets no call at all. *)
Theorem speed_variance_gated (vehicle : Actor) (config : VehicleTrafficConfig)
    (g : Random.rng) :
  Random.unit_draws (Random.draws g) ->
  let first := Random.draws g (Random.cursor g) in
  let seventh := Random.draws g (6 + Random.cursor g)%nat in
  let l := vehicle_calls vehicle config g in
  (first <= v_rule_break_probability config ->
     speed_calls vehicle l = [-20 + (30 - -20) * seventh] /\
     (exists before,
        l = before ++ [vehicle_percentage_speed_difference vehicle
                         (-20 + (30 - -20) * seventh)]) /\
     -20 <= -20 + (30 - -20) * seventh /\
     -20 + (30 - -20) * seventh < 30) /\
  (v_rule_break_probability config < first -> l = []).
Proof.
  intros Hd first seventh l.
  pose proof (vehicle_calls_eq vehicle config g) as E. cbv zeta in E.
  fold l first seventh in E.
  split.
  - intros Hle. apply Qltb_ge in Hle. rewrite Hle in E.
    split; [|split].
    + rewrite E. unfold opt, speed_calls.
      repeat match goal with
             | |- context [Py.Qltb ?a ?b] => destruct (Py.Qltb a b)
             end; cbn [app flat_map]; rewrite Nat.eqb_refl; reflexivity.
    + rewrite E. repeat rewrite app_assoc. eexists. reflexivity.
    + destruct (Hd (6 + Random.cursor g)%nat) as [H0 H1].
      fold seventh in H0, H1. split; lra.
  - intros Hlt. apply Qltb_lt in Hlt. rewrite Hlt in E. exact E.
Qed.

(** The amended C4 at the draws 1/4, with rule-break probability 1/2
    and every behaviour probability 0. *)
Lemma speed_variance_gated_witness :
  speed_calls Examples.car
    (vehicle_calls Examples.car (Examples.vehicle_config (1 # 2) 0)
       (Examples.constant_draws (1 # 4)))
  = [-20 + (30 - -20) * (1 # 4)].
Proof.
  refine (proj1 (proj1 (speed_variance_gated Examples.car (Examples.vehicle_config (1 # 2) 0)
                          (Examples.constant_draws (1 # 4)) _) _)).
  - intros n; cbn; lra.
  - cbn; lra.
Defined.

(** C6, as the specification states it, fails on both sides.  With
    rule-break probability 0 the draw 0.0 does not exceed it, so the
    vehicle gets every behaviour whose own test passes.  With every
    probability 1, a vehicle gets the calls of five of its six named
    behaviours and none for [sudden_brake], and a pedestrian in a
    session without ego vehicle gets the call for [jaywalk] only. *)
Lemma injector_boundary_failures :
  Random.unit_draws (Random.draws (Examples.constant_draws 0)) /\
  VehicleTrafficConfig_valid (Examples.vehicle_config 0 1) /\
  VehicleTrafficConfig_valid (Examples.vehicle_config 1 1) /\
  PedestrianTrafficConfig_valid (Examples.pedestrian_config 1 1) /\
  vehicle_calls Examples.car (Examples.vehicle_config 0 1) (Examples.constant_draws 0)
  = [ignore_lights_percentage Examples.car 100;
     ignore_signs_percentage Examples.car 100;
     random_left_lanechange_percentage Examples.car 50;
     random_right_lanechange_percentage Examples.car 50;
     ignore_vehicles_percentage Examples.car 50;
     distance_to_leading_vehicle Examples.car 1;
     vehicle_percentage_speed_difference Examples.car (-20 + (30 - -20) * 0)] /\
  vehicle_calls Examples.car (Examples.vehicle_config 1 1) (Examples.constant_draws 0)
  = [ignore_lights_percentage Examples.car 100;
     ignore_signs_percentage Examples.car 100;
     random_left_lanechange_percentage Examples.car 50;
     random_right_lanechange_percentage Examples.car 50;
     ignore_vehicles_percentage Examples.car 50;
     distance_to_leading_vehicle Examples.car 1;
     vehicle_percentage_speed_difference Examples.car (-20 + (30 - -20) * 0)] /\
  pedestrian_calls Examples.walker_controller Examples.walker None (Examples.pedestrian_config 1 1)
    (Examples.constant_draws 0)
  = [set_max_speed Examples.walker_controller ((3 # 2) + (3 - (3 # 2)) * 0)].
Proof.
  split; [intros n; cbn; lra|].
  split; [unfold VehicleTrafficConfig_valid, VehicleBehaviors_valid, probability;
          cbn; repeat split; lra|].
  split; [unfold VehicleTrafficConfig_valid, VehicleBehaviors_valid, probability;
          cbn; repeat split; lra|].
  split; [unfold PedestrianTrafficConfig_valid, PedestrianBehaviors_valid,
            probability; cbn; repeat split; lra|].
  split; [reflexivity|]. split; reflexivity.
Qed.

(** C6, amended: for every actor and every stream of draws in [0, 1):
    with rule-break probability 0 and a first draw above 0, no call is
    made for the actor; with rule-break probability 1 and every
    behaviour probability 1, a vehicle gets the calls of [run_red_light],
    [ignore_stop_sign], [sudden_lane_change], [ignore_right_of_way] and
    [tailgate] and its speed difference, and a pedestrian gets the call
    of [jaywalk] and, when the session has an ego vehicle, the call of
    [sudden_crossing]. *)
Theorem injector_boundaries (vehicle controller walker : Actor)
    (ego_loc : option Location) (vc : VehicleTrafficConfig)
    (pc : PedestrianTrafficConfig) (g : Random.rng) :
  Random.unit_draws (Random.draws g) ->
  let d := Random.draws g in
  let c := Random.cursor g in
  (v_rule_break_probability vc == 0 -> 0 < d c ->
     vehicle_calls vehicle vc g = []) /\
  (p_rule_break_probability pc == 0 -> 0 < d c ->
     pedestrian_calls controller walker ego_loc pc g = []) /\
  (v_rule_break_probability vc == 1 ->
   every_vehicle_behavior 1 (v_behaviors vc) ->
     vehicle_calls vehicle vc g =
     [ignore_lights_percentage vehicle 100;
      ignore_signs_percentage vehicle 100;
      random_left_lanechange_percentage vehicle 50;
      random_right_lanechange_percentage vehicle 50;
      ignore_vehicles_percentage vehicle 50;
      distance_to_leading_vehicle vehicle 1;
      vehicle_percentage_speed_difference vehicle
        (-20 + (30 - -20) * d (6 + c)%nat)]) /\
  (p_rule_break_probability pc == 1 ->
   every_pedestrian_behavior 1 (p_behaviors pc) ->
     pedestrian_calls controller walker ego_loc pc g =
     set_max_speed controller ((3 # 2) + (3 - (3 # 2)) * d (2 + c)%nat)
     :: match ego_loc with
        | Some ego =>
            [go_to_location controller
               {| x := x ego + (-10 + (10 - -10) * d (5 + c)%nat);
                  y := y ego + (-10 + (10 - -10) * d (6 + c)%nat);
                  z := z ego |}]
        | None => []
        end).
Proof.
  intros Hd d c. subst d c.
  pose proof (vehicle_calls_eq vehicle vc g) as EV.
  pose proof (pedestrian_calls_eq controller walker ego_loc pc g) as EP.
  cbv zeta in EV, EP.
  assert (Hlt : forall n, Random.draws g n < 1) by (intros n; apply (Hd n)).
  split; [|split; [|split]].
  - intros Hp Hpos. rewrite EV.
    assert (H : Py.Qltb (v_rule_break_probability vc)
                  (Random.draws g (Random.cursor g)) = true)
      by (apply Qltb_lt; lra).
    rewrite H. reflexivity.
  - intros Hp Hpos. rewrite EP.
    assert (H : Py.Qltb (p_rule_break_probability pc)
                  (Random.draws g (Random.cursor g)) = true)
      by (apply Qltb_lt; lra).
    rewrite H. reflexivity.
  - intros Hp (H1 & H2 & H3 & H4 & _ & H6). rewrite EV.
    rewrite (draw_not_above_one _ _ (Hlt _) Hp).
    rewrite (draw_below_one _ _ (Hlt _) H1), (draw_below_one _ _ (Hlt _) H2),
      (draw_below_one _ _ (Hlt _) H3), (draw_below_one _ _ (Hlt _) H4),
      (draw_below_one _ _ (Hlt _) H6).
    reflexivity.
  - intros Hp (H1 & _ & H3 & _). rewrite EP.
    rewrite (draw_not_above_one _ _ (Hlt _) Hp).
    rewrite (draw_below_one _ _ (Hlt _) H1).
    cbn iota.
    rewrite (draw_below_one _ _ (Hlt _) H3).
    destruct ego_loc; reflexivity.
Qed.

(** The amended C6 at the draws 1/2: a vehicle with rule-break
    probability 0 gets no call. *)
Lemma injector_boundaries_witness :
  vehicle_calls Examples.car (Examples.vehicle_config 0 1)
    (Examples.constant_draws (1 # 2)) = [].
Proof.
  refine (proj1 (injector_boundaries Examples.car Examples.walker_controller Examples.walker None (Examples.vehicle_config 0 1)
                   (Examples.pedestrian_config 0 1)
                   (Examples.constant_draws (1 # 2)) _) _ _).
  - intros n; cbn; lra.
  - reflexivity.
  - cbn; lra.
Defined.

End InjectorFacts.

(* ===================================================================== *)
(** * Cleanup of the session                                              *)
(* ===================================================================== *)

Section SessionFacts.
Import Carla Session.

Lemma destroyed_app (l k : list call) :
  destroyed (l ++ k) = destroyed l ++ destroyed k.
Proof. unfold destroyed. apply flat_map_app. Qed.

Lemma effect_nil (w : World) : effect [] w w [].
Proof.
  unfold effect. rewrite app_nil_r. cbn.
  split; [reflexivity|]. split; [constructor|].
  split; [|set_solver].
  intros a. split; [intros H; inversion H | intros [_ H]; inversion H].
Qed.

Lemma effect_app (l1 l2 : list Actor) (w w1 w2 : World) (n1 n2 : list call) :
  effect l1 w w1 n1 -> effect l2 w1 w2 n2 ->
  effect (l1 ++ l2) w w2 (n1 ++ n2).
Proof.
  intros (Hlog1 & Hnd1 & Hin1 & Hal1) (Hlog2 & Hnd2 & Hin2 & Hal2).
  unfold effect. rewrite destroyed_app.
  split; [rewrite Hlog2, Hlog1, app_assoc; reflexivity|].
  split.
  - apply NoDup_app. split; [exact Hnd1|]. split; [|exact Hnd2].
    intros a Ha1 Ha2. apply Hin1 in Ha1. apply Hin2 in Ha2.
    rewrite Hal1 in Ha2. set_solver.
  - split.
    + intros a. rewrite elem_of_app, Hin1, Hin2, Hal1, elem_of_app.
      rewrite elem_of_difference, elem_of_list_to_set.
      destruct (decide (a ∈ l1)); tauto.
    + rewrite Hal2, Hal1, list_to_set_app_L. set_solver.
Qed.

Lemma effect_destroy (a : Actor) (w : World) :
  effect [a] w (if is_alive a w then do_destroy a w else w)
    (if is_alive a w then [destroy a] else []).
Proof.
  unfold is_alive, effect. case_bool_decide as Ha; cbn.
  - split; [reflexivity|]. split; [apply NoDup_singleton|].
    split; [|set_solver]. intros b. set_solver.
  - rewrite app_nil_r. split; [reflexivity|]. split; [constructor|].
    split; [|set_solver]. intros b. set_solver.
Qed.

Lemma effect_stop_destroy (a : Actor) (w : World) :
  effect [a] w (if is_alive a w then do_destroy a (do_stop a w) else w)
    (if is_alive a w then [stop a; destroy a] else []).
Proof.
  unfold is_alive, effect. case_bool_decide as Ha; cbn.
  - rewrite <- app_assoc. split; [reflexivity|]. split; [apply NoDup_singleton|].
    split; [|set_solver]. intros b. set_solver.
  - rewrite app_nil_r. split; [reflexivity|]. split; [constructor|].
    split; [|set_solver]. intros b. set_solver.
Qed.

Lemma destroys_of_app (l1 l2 : list Actor) (n1 n2 : list call) :
  destroys_of l1 n1 -> destroys_of l2 n2 -> destroys_of (l1 ++ l2) (n1 ++ n2).
Proof.
  intros H1 H2. apply Forall_app. split.
  - eapply Forall_impl; [exact H1|]. intros c (a & Ha & ->).
    exists a. set_solver.
  - eapply Forall_impl; [exact H2|]. intros c (a & Ha & ->).
    exists a. set_solver.
Qed.

Lemma stops_and_destroys_of_app (l1 l2 : list Actor) (n1 n2 : list call) :
  stops_and_destroys_of l1 n1 -> stops_and_destroys_of l2 n2 ->
  stops_and_destroys_of (l1 ++ l2) (n1 ++ n2).
Proof.
  intros H1 H2. apply Forall_app. split.
  - eapply Forall_impl; [exact H1|]. intros c (a & Ha & Hc).
    exists a. split; [set_solver | exact Hc].
  - eapply Forall_impl; [exact H2|]. intros c (a & Ha & Hc).
    exists a. split; [set_solver | exact Hc].
Qed.

(** The loop over sensors, pedestrians or vehicles. *)
Lemma destroy_each_effect (actors : list Actor) (w : World) :
  exists new, effect actors w (destroy_each actors w) new /\
              destroys_of actors new.
Proof.
  revert w. induction actors as [|a rest IH]; intros w.
  - exists []. split; [apply effect_nil | constructor].
  - cbn [destroy_each].
    destruct (IH (if is_alive a w then do_destroy a w else w)) as (n & He & Hd).
    exists ((if is_alive a w then [destroy a] else []) ++ n). split.
    + apply (effect_app [a] rest _ _ _ _ _ (effect_destroy a w) He).
    + apply (destroys_of_app [a] rest); [|exact Hd].
      destruct (is_alive a w); repeat constructor.
      exists a. set_solver.
Qed.

(** The loop over the pedestrian controllers. *)
Lemma stop_and_destroy_each_effect (actors : list Actor) (w : World) :
  exists new, effect actors w (stop_and_destroy_each actors w) new /\
              stops_and_destroys_of actors new.
Proof.
  revert w. induction actors as [|a rest IH]; intros w.
  - exists []. split; [apply effect_nil | constructor].
  - cbn [stop_and_destroy_each].
    destruct (IH (if is_alive a w then do_destroy a (do_stop a w) else w))
      as (n & He & Hd).
    exists ((if is_alive a w then [stop a; destroy a] else []) ++ n). split.
    + apply (effect_app [a] rest _ _ _ _ _ (effect_stop_destroy a w) He).
    + apply (stops_and_destroys_of_app [a] rest); [|exact Hd].
      destruct (is_alive a w); repeat constructor;
        exists a; set_solver.
Qed.

(** The test on the ego vehicle. *)
Lemma destroy_ego_effect (ego : option Actor) (w : World) :
  exists new, effect (option_list ego) w (destroy_ego ego w) new /\
              destroys_of (option_list ego) new.
Proof.
  destruct ego as [a|]; cbn [destroy_ego option_list].
  - exists (if is_alive a w then [destroy a] else []). split.
    + apply effect_destroy.
    + destruct (is_alive a w); repeat constructor. exists a. set_solver.
  - exists []. split; [apply effect_nil | constructor].
Qed.

(** A second cleanup finds nothing to do. *)
Lemma cleanup_cleared (w : World) :
  cleanup {| ego_vehicle := None; vehicles := []; pedestrians := [];
             pedestrian_controllers := []; sensors := [] |} w
  = ({| ego_vehicle := None; vehicles := []; pedestrians := [];
        pedestrian_controllers := []; sensors := [] |}, w).
Proof. reflexivity. Qed.

(** C7: cleanup leaves every actor list empty and the ego handle
    cleared, so a second cleanup changes nothing and makes no call (no
    error can arise, no actor is destroyed again).  The calls of the
    first cleanup come in the order sensors, pedestrian controllers,
    pedestrians, vehicles, ego; they destroy no actor twice, and they
    destroy exactly the actors of the session that were alive, whatever
    part of the session had been set up. *)
Theorem cleanup_idempotent (r : ScenarioRunner) (w : World) :
  let r1 := fst (cleanup r w) in
  let w1 := snd (cleanup r w) in
  (ego_vehicle r1 = None /\ vehicles r1 = [] /\ pedestrians r1 = [] /\
   pedestrian_controllers r1 = [] /\ sensors r1 = []) /\
  cleanup r1 w1 = (r1, w1) /\
  exists ls lc lp lv le,
    log w1 = log w ++ ls ++ lc ++ lp ++ lv ++ le /\
    destroys_of (sensors r) ls /\
    stops_and_destroys_of (pedestrian_controllers r) lc /\
    destroys_of (pedestrians r) lp /\
    destroys_of (vehicles r) lv /\
    destroys_of (option_list (ego_vehicle r)) le /\
    NoDup (destroyed (ls ++ lc ++ lp ++ lv ++ le)) /\
    (forall a, a ∈ destroyed (ls ++ lc ++ lp ++ lv ++ le)
               <-> a ∈ alive w /\ a ∈ all_actors r) /\
    alive w1 = alive w ∖ list_to_set (all_actors r).
Proof.
  intros r1 w1. subst r1 w1. unfold cleanup. cbn [fst snd].
  split; [repeat split|].
  split; [reflexivity|].
  destruct (destroy_each_effect (sensors r) w) as (ls & E1 & D1).
  set (w1 := destroy_each (sensors r) w) in *.
  destruct (stop_and_destroy_each_effect (pedestrian_controllers r) w1)
    as (lc & E2 & D2).
  set (w2 := stop_and_destroy_each (pedestrian_controllers r) w1) in *.
  destruct (destroy_each_effect (pedestrians r) w2) as (lp & E3 & D3).
  set (w3 := destroy_each (pedestrians r) w2) in *.
  destruct (destroy_each_effect (vehicles r) w3) as (lv & E4 & D4).
  set (w4 := destroy_each (vehicles r) w3) in *.
  destruct (destroy_ego_effect (ego_vehicle r) w4) as (le & E5 & D5).
  set (w5 := destroy_ego (ego_vehicle r) w4) in *.
  pose proof (effect_app _ _ _ _ _ _ _ E4 E5) as E45.
  pose proof (effect_app _ _ _ _ _ _ _ E3 E45) as E345.
  pose proof (effect_app _ _ _ _ _ _ _ E2 E345) as E2345.
  pose proof (effect_app _ _ _ _ _ _ _ E1 E2345) as (Hlog & Hnd & Hin & Hal).
  exists ls, lc, lp, lv, le.
  repeat (split; [assumption|]).
  exact Hal.
Qed.

End SessionFacts.

(* ===================================================================== *)
(** * The evaluation loop and its metrics                                 *)
(* ===================================================================== *)

Section EvaluatorFacts.
Import Schema Carla Evaluator.

Variable sqrt : Q -> Q.

(** ** Finalization *)

(** C3, as the specification states it, fails on the empty list: a
    run without acceleration samples is finalized with the comfort score
    0 it started with.  The variance of no samples is not a number, so
    the score is not [max(0, 100 - 10 * variance)] for any variance; and
    it is not the value of the formula at variance 0 either. *)
Lemma comfort_score_without_samples :
  acceleration_history TCPEvaluator_init = [] /\
  comfort_score (metrics (finalize_metrics None 0 TCPEvaluator_init)) = 0 /\
  ~ (exists v,
       Py.np_var (acceleration_history TCPEvaluator_init) = Some v /\
       comfort_score (metrics (finalize_metrics None 0 TCPEvaluator_init))
       == Py.max 0 (100 - v * 10)) /\
  ~ comfort_score (metrics (finalize_metrics None 0 TCPEvaluator_init))
    == Py.max 0 (100 - 0 * 10).
Proof.
  split; [reflexivity|]. split; [reflexivity|]. split.
  - intros (v & Hv & _). discriminate Hv.
  - vm_compute. discriminate.
Qed.

Lemma np_var_some (l : list Q) (v : Q) :
  Py.np_var l = Some v -> l <> [] /\ v = Py.var l.
Proof.
  unfold Py.np_var. destruct l; cbn [Py.truthy]; [discriminate|].
  intros H. injection H as <-. split; [discriminate | reflexivity].
Qed.

Lemma finalize_comfort_nonempty (runner : option Runner) (elapsed : Q)
    (ev : TCPEvaluator) :
  acceleration_history ev <> [] ->
  comfort_score (metrics (finalize_metrics runner elapsed ev))
  = Py.max 0 (100 - Py.var (acceleration_history ev) * 10).
Proof.
  intros H. cbn. destruct (acceleration_history ev); [congruence | reflexivity].
Qed.

Lemma finalize_comfort_empty (runner : option Runner) (elapsed : Q)
    (ev : TCPEvaluator) :
  acceleration_history ev = [] ->
  comfort_score (metrics (finalize_metrics runner elapsed ev))
  = comfort_score (metrics ev).
Proof. intros H. cbn. rewrite H. reflexivity. Qed.

(** C3, amended: for every non-empty list of acceleration samples the
    finalized comfort score equals [max(0, 100 - 10 * variance(samples))];
    with no sample at all the score is left as it was, 0 in a fresh
    report.  Hence the finalized score is never negative when the score
    before was not, and among non-empty lists the one with the larger
    variance yields a score less than or equal to the other's. *)
Theorem comfort_score_finalized (runner : option Runner) (elapsed elapsed' : Q)
    (ev ev' : TCPEvaluator) :
  let score e t := comfort_score (metrics (finalize_metrics runner t e)) in
  (forall v, Py.np_var (acceleration_history ev) = Some v ->
     score ev elapsed = Py.max 0 (100 - v * 10)) /\
  (acceleration_history ev = [] ->
     score ev elapsed = comfort_score (metrics ev)) /\
  comfort_score EvaluationMetrics_default = 0 /\
  (0 <= comfort_score (metrics ev) -> 0 <= score ev elapsed) /\
  (forall v v',
     Py.np_var (acceleration_history ev) = Some v ->
     Py.np_var (acceleration_history ev') = Some v' ->
     v <= v' -> score ev' elapsed' <= score ev elapsed).
Proof.
  intros score. subst score. cbv beta.
  split; [|split; [|split; [|split]]].
  - intros v Hv. apply np_var_some in Hv as [Hne ->].
    apply finalize_comfort_nonempty. exact Hne.
  - apply finalize_comfort_empty.
  - reflexivity.
  - intros H0. destruct (acceleration_history ev) eqn:E.
    + rewrite finalize_comfort_empty by exact E. exact H0.
    + rewrite finalize_comfort_nonempty by (rewrite E; discriminate).
      apply max_ge_l.
  - intros v v' Hv Hv' Hle.
    apply np_var_some in Hv as [Hne ->]. apply np_var_some in Hv' as [Hne' ->].
    rewrite !finalize_comfort_nonempty by assumption.
    apply comfort_antitone. exact Hle.
Qed.

(** Finalization sets the average speed to the mean of the speed
    history when there is one, and leaves it otherwise; it never touches
    the minimum speed or the distance travelled. *)
Lemma finalize_speed_fields (runner : option Runner) (elapsed : Q)
    (ev : TCPEvaluator) :
  let m' := metrics (finalize_metrics runner elapsed ev) in
  match Py.np_mean (speed_history ev) with
  | Some mean => average_speed m' = mean
  | None => average_speed m' = average_speed (metrics ev)
  end /\
  min_speed m' = min_speed (metrics ev) /\
  distance_traveled m' = distance_traveled (metrics ev).
Proof.
  cbn. unfold Py.np_mean.
  destruct (Py.truthy (speed_history ev)); repeat split.
Qed.

(** ** The exits of the loop *)

(** How a run that gets past the set-up ends, by the exit of its loop:
    finalization and cleanup after a [break] and after an interrupt from
    the keyboard, cleanup alone after any other exception. *)
Lemma events_by_exit (cfg : EvaluationConfig) (env : Env) (ev : TCPEvaluator) :
  setup_scenario env = true -> has_ego_vehicle (runner env) = true ->
  match loop sqrt cfg (runner env) (ticks env) (initialize env ev) with
  | None => run_evaluation sqrt cfg env ev = None
  | Some (Raise Exception, ev') =>
      run_evaluation sqrt cfg env ev = Some (report ev' [Cleanup])
  | Some (_, ev') =>
      run_evaluation sqrt cfg env ev =
      Some (report (finalize_metrics (Some (runner env))
                      (t_end env - start_time ev') ev')
              [Finalize (t_end env - start_time ev'); Cleanup])
  end.
Proof.
  intros Hs He. unfold run_evaluation. rewrite Hs, He. cbn [negb].
  destruct (loop sqrt cfg (runner env) (ticks env) (initialize env ev))
    as [[[|[|]] ev']|]; reflexivity.
Qed.

(** ** A run without any metrics update *)

Lemma update_metrics_speed_history (cfg : EvaluationConfig)
    (r : option Runner) (e : Ego) (t : Q) (ev : TCPEvaluator) :
  speed_history (update_metrics sqrt cfg r e t ev)
  = speed_history ev ++ [speed_of sqrt (get_velocity e)].
Proof.
  unfold update_metrics.
  destruct (acceleration_update sqrt e t ev) as [[? ?] ?].
  destruct (stuck_detection _ _ _ _ _). reflexivity.
Qed.

(** The three fields of the claim. *)
Lemma loop_without_update (cfg : EvaluationConfig) (r : Runner)
    (ticks : list Tick) (ev ev' : TCPEvaluator) (e : Exit) :
  loop sqrt cfg r ticks ev = Some (e, ev') ->
  speed_history ev' = [] ->
  speed_history ev = [] /\
  min_speed (metrics ev') = min_speed (metrics ev) /\
  average_speed (metrics ev') = average_speed (metrics ev) /\
  distance_traveled (metrics ev') = distance_traveled (metrics ev).
Proof.
  revert ev. induction ticks as [|t rest IH]; intros ev Hloop Hnil.
  - discriminate Hloop.
  - cbn [loop] in Hloop.
    destruct (Py.Qltb (timeout cfg) (now t - start_time ev)).
    { injection Hloop as <- <-. cbn in *. auto. }
    destruct (stuck (metrics ev)).
    { injection Hloop as <- <-. auto. }
    destruct (check_completion sqrt (Some r) (ego t)).
    { injection Hloop as <- <-. cbn in *. auto. }
    destruct (fault t) as [[[|] f]|].
    + injection Hloop as <- <-. auto.
    + injection Hloop as <- <-.
      rewrite update_metrics_speed_history in Hnil.
      destruct (speed_history ev); discriminate Hnil.
    + apply IH in Hloop as [Hupd _]; [|exact Hnil].
      rewrite update_metrics_speed_history in Hupd.
      destruct (speed_history ev); discriminate Hupd.
Qed.

(** C10: when [run_evaluation] returns and no metrics update has run
    (the speed history is empty), the report has [min_speed] at its
    initial positive infinity, [average_speed] 0 and
    [distance_traveled] 0. *)
Theorem report_without_update (cfg : EvaluationConfig) (env : Env)
    (r : Report) :
  run_evaluation sqrt cfg env TCPEvaluator_init = Some r ->
  speed_history (final r) = [] ->
  min_speed (returned r) = PosInf /\
  average_speed (returned r) = 0 /\
  distance_traveled (returned r) = 0.
Proof.
  unfold run_evaluation.
  destruct (negb (setup_scenario env)).
  { intros H _. injection H as <-. repeat split. }
  destruct (negb (has_ego_vehicle (runner env))).
  { intros H _. injection H as <-. repeat split. }
  destruct (loop sqrt cfg (runner env) (ticks env)
              (initialize env TCPEvaluator_init)) as [[e ev']|] eqn:Hloop;
    [|discriminate].
  assert (Hfin : forall l t,
            Some (report (finalize_metrics (Some (runner env)) t ev') l) = Some r ->
            speed_history (final r) = [] ->
            min_speed (returned r) = PosInf /\
            average_speed (returned r) = 0 /\
            distance_traveled (returned r) = 0).
  { intros l t H Hnil. injection H as <-. cbn in Hnil.
    destruct (loop_without_update _ _ _ _ _ _ Hloop Hnil) as (_ & Hm & Ha & Hd).
    cbn. rewrite Hnil. cbn [Py.truthy]. rewrite Hm, Ha, Hd. repeat split. }
  destruct e as [|[|]].
  - apply Hfin.
  - apply Hfin.
  - intros H Hnil. injection H as <-. cbn in Hnil.
    destruct (loop_without_update _ _ _ _ _ _ Hloop Hnil) as (_ & Hm & Ha & Hd).
    cbn. rewrite Hm, Ha, Hd. repeat split.
Qed.

(** The case the claim names: the ego vehicle is within 5 m of the
    destination at the first iteration, and the timeout has not passed.
    The loop ends as completed before any update. *)
Lemma completion_at_first_iteration (cfg : EvaluationConfig) (env : Env)
    (t : Tick) (rest : list Tick) :
  setup_scenario env = true -> has_ego_vehicle (runner env) = true ->
  ticks env = t :: rest ->
  now t - t_start env <= timeout cfg ->
  check_completion sqrt (Some (runner env)) (ego t) = true ->
  exists r,
    run_evaluation sqrt cfg env TCPEvaluator_init = Some r /\
    events r = [Finalize (t_end env - t_start env); Cleanup] /\
    completed (returned r) = true /\
    speed_history (final r) = [].
Proof.
  intros Hs He Ht Hto Hc.
  unfold run_evaluation. rewrite Hs, He, Ht. cbn [negb loop].
  cbn [initialize start_time metrics].
  apply Qltb_ge in Hto. rewrite Hto. cbn [stuck EvaluationMetrics_default TCPEvaluator_init].
  rewrite Hc.
  eexists. split; [reflexivity|]. repeat split.
Qed.

End EvaluatorFacts.

(** C10 at a run whose destination is 3 m from the start. *)
Lemma report_without_update_witness :
  exists r,
    Evaluator.run_evaluation Examples.sqrt_floor Examples.evaluation_config
      (Examples.run_of Examples.nearby [Examples.tick_at 1001])
      Evaluator.TCPEvaluator_init = Some r /\
    Evaluator.completed (Evaluator.returned r) = true /\
    Evaluator.min_speed (Evaluator.returned r) = Evaluator.PosInf /\
    Evaluator.average_speed (Evaluator.returned r) = 0 /\
    Evaluator.distance_traveled (Evaluator.returned r) = 0.
Proof.
  eexists. split; [vm_compute; reflexivity|]. split; [reflexivity|].
  refine (report_without_update Examples.sqrt_floor Examples.evaluation_config
            (Examples.run_of Examples.nearby [Examples.tick_at 1001]) _ _ _).
  - vm_compute. reflexivity.
  - reflexivity.
Defined.

(** C5 on the code: an iteration is cut short by an exception (not a
    keyboard interrupt) after its metrics update.  [run_evaluation]
    returns after cleanup alone: [finalize_metrics] is not called, and
    the report has completion time 0 and average speed 0 although one
    speed sample of 5 m/s was recorded.  The same run cut short by a
    keyboard interrupt is finalized: completion time 2, average speed
    5. *)
Lemma exception_exit_skips_finalization :
  let cfg := Examples.evaluation_config in
  let run f :=
    Evaluator.run_evaluation Examples.sqrt_floor cfg
      (Examples.run_of Examples.far_away [Examples.tick_faulted 1001 f])
      Evaluator.TCPEvaluator_init in
  (exists r,
     run Evaluator.Exception = Some r /\
     Evaluator.events r = [Evaluator.Cleanup] /\
     Evaluator.speed_history (Evaluator.final r) = [inject_Z 5] /\
     Evaluator.completion_time (Evaluator.returned r) = 0 /\
     Evaluator.average_speed (Evaluator.returned r) = 0) /\
  (exists r,
     run Evaluator.KeyboardInterrupt = Some r /\
     Evaluator.events r = [Evaluator.Finalize (1002 - 1000); Evaluator.Cleanup] /\
     Evaluator.speed_history (Evaluator.final r) = [inject_Z 5] /\
     Evaluator.completion_time (Evaluator.returned r) == 2 /\
     Evaluator.average_speed (Evaluator.returned r) == 5).
Proof.
  split.
  - eexists. split; [vm_compute; reflexivity|]. repeat split.
  - eexists. split; [vm_compute; reflexivity|]. repeat split.
Qed.

(* ===================================================================== *)
(** * Stuck detection                                                     *)
(* ===================================================================== *)

Section StuckFacts.
Import Schema Carla Evaluator.

Variable sqrt : Q -> Q.
Variable cfg : EvaluationConfig.
Variable runner : option Runner.

Local Abbreviation update := (update_metrics sqrt cfg runner).
Local Abbreviation run := (update_all sqrt cfg runner).
Local Abbreviation low := (below sqrt cfg).

(** The timer and the flag after an update are those of the
    stuck-detection block. *)
Lemma update_stuck_state (e : Ego) (t : Q) (ev : TCPEvaluator) :
  stuck_state (update e t ev)
  = stuck_detection cfg (speed_of sqrt (get_velocity e)) t
      (stuck_start_time ev) (stuck (metrics ev)).
Proof.
  unfold stuck_state, update_metrics.
  destruct (acceleration_update sqrt e t ev) as [[? ?] ?].
  destruct (stuck_detection _ _ _ _ _). reflexivity.
Qed.

Lemma step_low_unset (s : Ego * Q) (ev : TCPEvaluator) (f : bool) :
  low s = true -> stuck_state ev = (None, f) ->
  stuck_state (update (fst s) (snd s) ev) = (Some (snd s), f).
Proof.
  unfold below. intros Hs Hst. rewrite update_stuck_state.
  unfold stuck_state in Hst. injection Hst as -> ->.
  unfold stuck_detection. rewrite Hs. reflexivity.
Qed.

Lemma step_low_set (s : Ego * Q) (ev : TCPEvaluator) (t0 : Q) (f : bool) :
  low s = true -> stuck_state ev = (Some t0, f) ->
  stuck_state (update (fst s) (snd s) ev)
  = (Some t0, if Py.Qltb (stuck_timeout cfg) (snd s - t0) then true else f).
Proof.
  unfold below. intros Hs Hst. rewrite update_stuck_state.
  unfold stuck_state in Hst. injection Hst as -> ->.
  unfold stuck_detection. rewrite Hs.
  destruct (Py.Qltb (stuck_timeout cfg) (snd s - t0)); reflexivity.
Qed.

Lemma step_high (s : Ego * Q) (ev : TCPEvaluator) :
  low s = false ->
  stuck_state (update (fst s) (snd s) ev) = (None, stuck (metrics ev)).
Proof.
  unfold below. intros Hs. rewrite update_stuck_state.
  unfold stuck_detection. rewrite Hs. reflexivity.
Qed.

Lemma run_snoc (l : list (Ego * Q)) (s : Ego * Q) (ev : TCPEvaluator) :
  run (l ++ [s]) ev = update (fst s) (snd s) (run l ev).
Proof. unfold update_all. rewrite fold_left_app. reflexivity. Qed.

Lemma run_app (l k : list (Ego * Q)) (ev : TCPEvaluator) :
  run (l ++ k) ev = run k (run l ev).
Proof. unfold update_all. apply fold_left_app. Qed.

(** ** Runs that stay low, runs that stay high *)

(** Over a low run that began at [t0], the flag stays as it is while no
    sample is later than [stuck_timeout] after [t0]. *)
Lemma run_low_set (l : list (Ego * Q)) (ev : TCPEvaluator) (t0 : Q) (f : bool) :
  Forall (fun s => low s = true) l ->
  Forall (fun s => snd s - t0 <= stuck_timeout cfg) l ->
  stuck_state ev = (Some t0, f) ->
  stuck_state (run l ev) = (Some t0, f).
Proof.
  revert ev. induction l as [|s l IH]; intros ev Hlow Hbrief Hst.
  - exact Hst.
  - inversion Hlow as [|? ? Hs Hlow']; subst.
    inversion Hbrief as [|? ? Hb Hbrief']; subst.
    change (run (s :: l) ev) with (run l (update (fst s) (snd s) ev)).
    apply IH; [assumption..|].
    rewrite (step_low_set s ev t0 f Hs Hst).
    apply Qltb_ge in Hb. rewrite Hb. reflexivity.
Qed.

(** A brief low run met with the timer unset sets the timer and leaves
    the flag. *)
Lemma run_low_brief (l : list (Ego * Q)) (ev : TCPEvaluator) (f : bool) :
  Forall (fun s => low s = true) l -> brief cfg l ->
  stuck_state ev = (None, f) ->
  snd (stuck_state (run l ev)) = f.
Proof.
  intros Hlow Hbrief Hst. destruct l as [|s l].
  - unfold update_all. cbn [fold_left]. rewrite Hst. reflexivity.
  - cbn [brief] in Hbrief.
    inversion Hlow as [|? ? Hs Hlow']; subst.
    inversion Hbrief as [|? ? _ Hbrief']; subst.
    change (run (s :: l) ev) with (run l (update (fst s) (snd s) ev)).
    rewrite (run_low_set l _ (snd s) f Hlow' Hbrief'); [reflexivity|].
    apply step_low_unset; assumption.
Qed.

(** A non-empty run at or above the threshold unsets the timer and
    leaves the flag. *)
Lemma run_high (l : list (Ego * Q)) (ev : TCPEvaluator) :
  l <> [] -> Forall (fun s => low s = false) l ->
  stuck_state (run l ev) = (None, stuck (metrics ev)).
Proof.
  intros Hne Hhigh. revert ev.
  induction l as [|s l IH]; intros ev; [congruence|].
  inversion Hhigh as [|? ? Hs Hhigh']; subst.
  change (run (s :: l) ev) with (run l (update (fst s) (snd s) ev)).
  destruct l as [|s' l'].
  - cbn [update_all fold_left]. apply step_high. exact Hs.
  - rewrite IH by (congruence || assumption).
    pose proof (step_high s ev Hs) as H. unfold stuck_state in H.
    injection H as _ ->. reflexivity.
Qed.

(** ** Intervals *)

Lemma interval_snoc_old (l : list (Ego * Q)) (s : Ego * Q) (i j : nat) :
  (j < length l)%nat ->
  interval sqrt cfg (l ++ [s]) i j <-> interval sqrt cfg l i j.
Proof.
  intros Hj. unfold interval. split.
  - intros (Hij & Hall & Hleft). split; [exact Hij|]. split.
    + intros k Hk. destruct (Hall k Hk) as (x & Hx & Hb).
      exists x. rewrite lookup_app_l in Hx by lia. auto.
    + destruct Hleft as [->|(x & Hx & Hb)]; [left; reflexivity|].
      right. exists x. rewrite lookup_app_l in Hx by lia. auto.
  - intros (Hij & Hall & Hleft). split; [exact Hij|]. split.
    + intros k Hk. destruct (Hall k Hk) as (x & Hx & Hb).
      exists x. rewrite lookup_app_l by lia. auto.
    + destruct Hleft as [->|(x & Hx & Hb)]; [left; reflexivity|].
      right. exists x. rewrite lookup_app_l by lia. auto.
Qed.

(** Two intervals that overlap begin at the same sample. *)
Lemma interval_start_unique (l : list (Ego * Q)) (i j i' j' : nat) :
  interval sqrt cfg l i j -> interval sqrt cfg l i' j' ->
  (i <= j')%nat -> (i' <= j)%nat -> i = i'.
Proof.
  intros (Hij & Hall & Hleft) (Hij' & Hall' & Hleft') H1 H2.
  destruct (Nat.lt_trichotomy i i') as [Hlt|[Heq|Hgt]]; [|exact Heq|].
  - exfalso. destruct Hleft' as [->|(x & Hx & Hb)]; [lia|].
    destruct (Hall (i' - 1)%nat ltac:(lia)) as (y & Hy & Hb').
    congruence.
  - exfalso. destruct Hleft as [->|(x & Hx & Hb)]; [lia|].
    destruct (Hall' (i - 1)%nat ltac:(lia)) as (y & Hy & Hb').
    congruence.
Qed.

(** The flag can fire at the new sample or could fire before. *)
Lemma fires_snoc (l : list (Ego * Q)) (s : Ego * Q) :
  fires sqrt cfg (l ++ [s]) <->
  fires sqrt cfg l \/
  exists i si, (i < length l)%nat /\
    interval sqrt cfg (l ++ [s]) i (length l) /\
    l !! i = Some si /\ stuck_timeout cfg < snd s - snd si.
Proof.
  split.
  - intros (i & j & si & sj & Hlt & Hint & Hi & Hj & Hto).
    pose proof (lookup_lt_Some _ _ _ Hj) as Hjlen.
    rewrite length_app in Hjlen. cbn [length] in Hjlen.
    destruct (decide (j < length l)%nat) as [Hjl|Hjl].
    + left. exists i, j, si, sj.
      rewrite lookup_app_l in Hi by lia. rewrite lookup_app_l in Hj by lia.
      rewrite interval_snoc_old in Hint by lia. auto.
    + right. assert (j = length l) as -> by lia.
      rewrite list_lookup_middle in Hj by reflexivity. injection Hj as <-.
      rewrite lookup_app_l in Hi by lia.
      exists i, si. auto.
  - intros [(i & j & si & sj & Hlt & Hint & Hi & Hj & Hto)
           |(i & si & Hlt & Hint & Hi & Hto)].
    + pose proof (lookup_lt_Some _ _ _ Hj) as Hjlen.
      exists i, j, si, sj.
      rewrite !lookup_app_l by lia. rewrite interval_snoc_old by lia. auto.
    + exists i, (length l), si, s.
      rewrite lookup_app_l by lia.
      rewrite list_lookup_middle by reflexivity. auto.
Qed.

(** The sample before the end of [l ++ [s]] is the last of [l]. *)
Lemma last_lookup_snoc (l : list (Ego * Q)) (s x : Ego * Q) :
  last l = Some x ->
  (1 <= length l)%nat /\ (l ++ [s]) !! (length l - 1)%nat = Some x.
Proof.
  intros Hlast. rewrite last_lookup in Hlast.
  pose proof (lookup_lt_Some _ _ _ Hlast) as Hlen.
  split; [lia|]. rewrite lookup_app_l by lia.
  replace (length l - 1)%nat with (pred (length l)) by lia. exact Hlast.
Qed.

(** After a run from an unset timer: the timer is unset exactly when
    the last sample is not low, otherwise it holds the time of the first
    sample of the interval that reaches the end; and the flag is set
    exactly when some interval of the run outlasted the timeout. *)
Lemma stuck_invariant (l : list (Ego * Q)) (ev : TCPEvaluator) :
  stuck_state ev = (None, false) ->
  match stuck_start_time (run l ev) with
  | None => l = [] \/ exists s, last l = Some s /\ low s = false
  | Some t0 =>
      exists i si, l !! i = Some si /\ snd si = t0 /\
                   interval sqrt cfg l i (length l - 1)
  end /\
  (stuck (metrics (run l ev)) = true <-> fires sqrt cfg l).
Proof.
  intros Hst. induction l as [|s l IH] using rev_ind.
  - unfold update_all. cbn [fold_left].
    unfold stuck_state in Hst. injection Hst as -> ->.
    split; [left; reflexivity|]. split; [discriminate|].
    intros (i & j & si & sj & _ & _ & Hi & _). rewrite lookup_nil in Hi.
    discriminate Hi.
  - destruct IH as [Htimer Hflag]. rewrite run_snoc.
    set (ev1 := run l ev) in *.
    rewrite length_app. cbn [length].
    replace (length l + 1 - 1)%nat with (length l) by lia.
    destruct (low s) eqn:Hs.
    + destruct (stuck_start_time ev1) as [t0|] eqn:Ht.
      * (* the interval goes on *)
        destruct Htimer as (i0 & si0 & Hi0 & Hsi0 & Hint0).
        pose proof (lookup_lt_Some _ _ _ Hi0) as Hi0len.
        assert (Hext : interval sqrt cfg (l ++ [s]) i0 (length l)).
        { destruct Hint0 as (Hij & Hall & Hleft).
          split; [lia|]. split.
          - intros k Hk. destruct (decide (k = length l)) as [->|Hne].
            + exists s. rewrite list_lookup_middle by reflexivity. auto.
            + destruct (Hall k ltac:(lia)) as (x & Hx & Hb).
              exists x. rewrite lookup_app_l by lia. auto.
          - destruct Hleft as [->|(x & Hx & Hb)]; [left; reflexivity|].
            right. exists x. rewrite lookup_app_l by lia. auto. }
        assert (Hst1 : stuck_state ev1 = (Some t0, stuck (metrics ev1)))
          by (unfold stuck_state; rewrite Ht; reflexivity).
        pose proof (step_low_set s ev1 t0 _ Hs Hst1) as Hstep.
        unfold stuck_state in Hstep.
        injection Hstep as Ht' Hf'. rewrite Ht', Hf'.
        split.
        { exists i0, si0. rewrite lookup_app_l by lia. auto. }
        rewrite fires_snoc. split.
        -- destruct (Py.Qltb (stuck_timeout cfg) (snd s - t0)) eqn:Hq.
           ++ intros _. right. exists i0, si0. apply Qltb_lt in Hq.
              rewrite Hsi0. auto.
           ++ intros Hf. left. apply Hflag. exact Hf.
        -- intros [Hold|(i & si & Hlt & Hint & Hi & Hto)].
           ++ apply Hflag in Hold. rewrite Hold.
              destruct (Py.Qltb _ _); reflexivity.
           ++ assert (i = i0) as ->
                by (apply (interval_start_unique _ _ _ _ _ Hint Hext); lia).
              assert (si = si0) as -> by congruence.
              rewrite Hsi0 in Hto. apply Qltb_lt in Hto. rewrite Hto.
              reflexivity.
      * (* a new interval begins *)
        assert (Hst1 : stuck_state ev1 = (None, stuck (metrics ev1)))
          by (unfold stuck_state; rewrite Ht; reflexivity).
        pose proof (step_low_unset s ev1 _ Hs Hst1) as Hstep.
        unfold stuck_state in Hstep.
        injection Hstep as Ht' Hf'. rewrite Ht', Hf'.
        split.
        { exists (length l), s.
          rewrite list_lookup_middle by reflexivity.
          split; [reflexivity|]. split; [reflexivity|].
          split; [lia|]. split.
          - intros k Hk. assert (k = length l) as -> by lia.
            exists s. rewrite list_lookup_middle by reflexivity. auto.
          - destruct Htimer as [->|(x & Hx & Hb)]; [left; reflexivity|].
            right. exists x. destruct (last_lookup_snoc l s x Hx) as [_ Hl].
            auto. }
        rewrite fires_snoc, Hflag. split; [auto|].
        intros [Hold|(i & si & Hlt & Hint & Hi & Hto)]; [exact Hold|].
        exfalso. destruct Htimer as [->|(x & Hx & Hb)]; [cbn in Hlt; lia|].
        destruct (last_lookup_snoc l s x Hx) as [Hlen Hl].
        destruct Hint as (_ & Hall & _).
        destruct (Hall (length l - 1)%nat ltac:(lia)) as (y & Hy & Hb').
        congruence.
    + (* the speed is at or above the threshold *)
      pose proof (step_high s ev1 Hs) as Hstep. unfold stuck_state in Hstep.
      injection Hstep as Ht' Hf'. rewrite Ht', Hf'.
      split.
      { right. exists s. rewrite last_snoc. auto. }
      rewrite fires_snoc, Hflag. split; [auto|].
      intros [Hold|(i & si & Hlt & Hint & Hi & Hto)]; [exact Hold|].
      exfalso. destruct Hint as (_ & Hall & _).
      destruct (Hall (length l) ltac:(lia)) as (y & Hy & Hb').
      rewrite list_lookup_middle in Hy by reflexivity. congruence.
Qed.

(** ** The claim *)

(** One update: the timer and the flag. *)
Lemma update_stuck_step (e : Ego) (t : Q) (ev : TCPEvaluator) :
  let speed := speed_of sqrt (get_velocity e) in
  let ev' := update e t ev in
  (speed < stuck_speed_threshold cfg -> stuck_start_time ev = None ->
     stuck_start_time ev' = Some t) /\
  (speed < stuck_speed_threshold cfg ->
     forall t0, stuck_start_time ev = Some t0 ->
                stuck_start_time ev' = Some t0) /\
  (stuck_speed_threshold cfg <= speed -> stuck_start_time ev' = None) /\
  (stuck (metrics ev) = false -> stuck (metrics ev') = true ->
     exists t0, stuck_start_time ev = Some t0 /\
                speed < stuck_speed_threshold cfg /\
                stuck_timeout cfg < t - t0).
Proof.
  intros speed ev'. pose proof (update_stuck_state e t ev) as H.
  fold ev' speed in H. unfold stuck_state, stuck_detection in H.
  destruct (Py.Qltb speed (stuck_speed_threshold cfg)) eqn:Hs.
  - apply Qltb_lt in Hs.
    destruct (stuck_start_time ev) as [t0|] eqn:Ht.
    + destruct (Py.Qltb (stuck_timeout cfg) (t - t0)) eqn:Hq;
        injection H as -> ->.
      * apply Qltb_lt in Hq.
        repeat split; try congruence; try (intros; lra).
        intros _ _. exists t0. auto.
      * repeat split; try congruence; try (intros; lra).
    + injection H as -> ->.
      repeat split; try congruence; try (intros; lra).
  - apply Qltb_ge in Hs. injection H as -> ->.
    repeat split; try congruence; try (intros; lra).
Qed.

(** Two low runs with a recovery in between. *)
Lemma two_brief_runs (ev : TCPEvaluator)
    (first recovery second : list (Ego * Q)) :
  stuck_state ev = (None, false) ->
  Forall (fun s => low s = true) first -> brief cfg first ->
  recovery <> [] -> Forall (fun s => low s = false) recovery ->
  Forall (fun s => low s = true) second -> brief cfg second ->
  stuck (metrics (run (first ++ recovery ++ second) ev)) = false.
Proof.
  intros Hst Hl1 Hb1 Hne Hh Hl2 Hb2.
  rewrite !run_app.
  pose proof (run_low_brief first ev false Hl1 Hb1 Hst) as H1.
  cbn [snd stuck_state] in H1.
  pose proof (run_high recovery (run first ev) Hne Hh) as H2.
  rewrite H1 in H2.
  exact (run_low_brief second _ false Hl2 Hb2 H2).
Qed.

(** C2: in [update_metrics] the stuck timer is set to the current time
    by an update with speed below the threshold that finds it unset, is
    kept by further such updates, and is unset by every update with
    speed at or above the threshold; the flag turns true only in an
    update below the threshold whose time is more than [stuck_timeout]
    after the timer.  Over the updates of a run, from an unset timer and
    a clear flag, the flag is set exactly when some sample lies more than
    [stuck_timeout] after the first sample of the uninterrupted
    below-threshold interval it belongs to.  Hence two below-threshold
    intervals, separated by a recovery, neither of which alone exceeds
    [stuck_timeout], never set the flag, whatever their joint duration.
    The loop breaks at the first iteration that finds the flag set. *)
Theorem stuck_requires_sustained_low_speed (ev : TCPEvaluator) :
  stuck_start_time ev = None -> stuck (metrics ev) = false ->
  (forall e t ev0,
     let speed := speed_of sqrt (get_velocity e) in
     let ev1 := update e t ev0 in
     (speed < stuck_speed_threshold cfg -> stuck_start_time ev0 = None ->
        stuck_start_time ev1 = Some t) /\
     (speed < stuck_speed_threshold cfg ->
        forall t0, stuck_start_time ev0 = Some t0 ->
                   stuck_start_time ev1 = Some t0) /\
     (stuck_speed_threshold cfg <= speed -> stuck_start_time ev1 = None) /\
     (stuck (metrics ev0) = false -> stuck (metrics ev1) = true ->
        exists t0, stuck_start_time ev0 = Some t0 /\
                   speed < stuck_speed_threshold cfg /\
                   stuck_timeout cfg < t - t0)) /\
  (forall samples,
     stuck (metrics (run samples ev)) = true <-> fires sqrt cfg samples) /\
  (forall first recovery second,
     Forall (fun s => low s = true) first -> brief cfg first ->
     recovery <> [] -> Forall (fun s => low s = false) recovery ->
     Forall (fun s => low s = true) second -> brief cfg second ->
     stuck (metrics (run (first ++ recovery ++ second) ev)) = false) /\
  (forall r t rest ev0,
     stuck (metrics ev0) = true -> now t - start_time ev0 <= timeout cfg ->
     loop sqrt cfg r (t :: rest) ev0 = Some (Break, ev0)).
Proof.
  intros Ht Hf.
  assert (Hst : stuck_state ev = (None, false))
    by (unfold stuck_state; rewrite Ht, Hf; reflexivity).
  split; [intros e t ev0; apply update_stuck_step|].
  split; [intros samples; apply (stuck_invariant samples ev Hst)|].
  split; [intros first recovery second; apply two_brief_runs; exact Hst|].
  intros r t rest ev0 Hstuck Hto. cbn [loop].
  apply Qltb_ge in Hto. rewrite Hto, Hstuck. reflexivity.
Qed.

End StuckFacts.

(** C2 at two low intervals of 20 s and 23 s around a recovery, with a
    timeout of 30 s: the flag stays clear although the intervals last
    43 s together. *)
Lemma stuck_requires_sustained_low_speed_witness :
  Evaluator.stuck
    (Evaluator.metrics
       (Evaluator.update_all Examples.sqrt_floor Examples.evaluation_config None
          ([Examples.standing 0; Examples.standing 20]
           ++ [Examples.moving 21]
           ++ [Examples.standing 22; Examples.standing 45])
          Evaluator.TCPEvaluator_init)) = false /\
  Schema.stuck_timeout Examples.evaluation_config < (20 - 0) + (45 - 22).
Proof.
  split; [|cbn; lra].
  refine (proj1 (proj2 (proj2
            (stuck_requires_sustained_low_speed Examples.sqrt_floor
               Examples.evaluation_config None Evaluator.TCPEvaluator_init
               eq_refl eq_refl)))
            [Examples.standing 0; Examples.standing 20]
            [Examples.moving 21]
            [Examples.standing 22; Examples.standing 45] _ _ _ _ _ _).
  - repeat constructor.
  - cbn. repeat constructor; cbn; lra.
  - discriminate.
  - repeat constructor.
  - repeat constructor.
  - cbn. repeat constructor; cbn; lra.
Defined.

(** One low interval of 31 s sets the flag. *)
Lemma sustained_low_speed_sets_stuck :
  Evaluator.stuck
    (Evaluator.metrics
       (Evaluator.update_all Examples.sqrt_floor Examples.evaluation_config None
          [Examples.standing 0; Examples.standing 20; Examples.standing 31]
          Evaluator.TCPEvaluator_init)) = true.
Proof. reflexivity. Qed.

(* ===================================================================== *)
(** * The maneuver locator: the search                                    *)
(* ===================================================================== *)

Section LocatorSearch.
Import Schema Carla Locator LocatorSpec.

(** ** The random fallback *)

(** A draw in [0, 1) picks an element of a non-empty sequence. *)
Lemma choice_some {A} (seq : list A) (g : Random.rng) :
  seq <> [] ->
  0 <= Random.draws g (Random.cursor g) /\ Random.draws g (Random.cursor g) < 1 ->
  exists a, fst (Random.choice seq g) = Some a /\ In a seq.
Proof.
  intros Hne [H0 H1]. unfold Random.choice, Random.random. cbn [fst].
  set (u := Random.draws g (Random.cursor g)) in *.
  assert (Hlen : (0 < length seq)%nat) by (destruct seq; [congruence | cbn; lia]).
  assert (Hn : 0 < Py.len seq).
  { unfold Py.len. change 0 with (inject_Z 0). rewrite <- Zlt_Qlt. lia. }
  assert (Hlo : (0 <= Qfloor (u * Py.len seq))%Z).
  { change 0%Z with (Qfloor 0). apply Qfloor_resp_le. nra. }
  assert (Hhi : (Qfloor (u * Py.len seq) < Z.of_nat (length seq))%Z).
  { rewrite Zlt_Qlt. fold (Py.len seq).
    pose proof (Qfloor_le (u * Py.len seq)). nra. }
  destruct (nth_error seq (Z.to_nat (Qfloor (u * Py.len seq)))) as [a|] eqn:E.
  - exists a. split; [reflexivity|]. eapply nth_error_In. exact E.
  - apply nth_error_None in E. lia.
Qed.

Lemma random_spawn_some (m : CarlaMap) (mt : ManeuverType) (g : Random.rng) :
  get_spawn_points m <> [] -> Random.unit_draws (Random.draws g) ->
  exists spawn,
    fst (random_spawn m mt g) = Some (spawn, calculate_destination m spawn mt) /\
    In spawn (get_spawn_points m).
Proof.
  intros Hne Hd. unfold random_spawn.
  destruct (choice_some (get_spawn_points m) g Hne (Hd _)) as (a & Ha & Hin).
  destruct (Random.choice (get_spawn_points m) g) as [[spawn|] g'];
    cbn [fst] in Ha; [|discriminate].
  injection Ha as ->. exists a. split; [reflexivity | exact Hin].
Qed.

Lemma random_spawn_none (m : CarlaMap) (mt : ManeuverType) (g : Random.rng) :
  get_spawn_points m = [] -> fst (random_spawn m mt g) = None.
Proof.
  intros H. unfold random_spawn, Random.choice, Random.random. rewrite H.
  destruct (Z.to_nat _); reflexivity.
Qed.

(** ** The junction loop *)

Lemma first_spawn_some (m : CarlaMap) (mt : ManeuverType)
    (l : list Waypoint) (r : Transform * Location) :
  first_spawn m mt l = Some r ->
  exists wp, In wp l /\ find_maneuver_spawn_at_intersection m wp mt = Some r.
Proof.
  induction l as [|wp l IH]; cbn [first_spawn]; [discriminate|].
  destruct (find_maneuver_spawn_at_intersection m wp mt) as [r'|] eqn:E.
  - intros H. injection H as <-. exists wp. split; [left; reflexivity | exact E].
  - intros H. destruct (IH H) as (wp' & Hin & Hwp').
    exists wp'. split; [right; exact Hin | exact Hwp'].
Qed.

Lemma first_spawn_complete (m : CarlaMap) (mt : ManeuverType)
    (l : list Waypoint) (wp : Waypoint) (r : Transform * Location) :
  In wp l -> find_maneuver_spawn_at_intersection m wp mt = Some r ->
  exists r', first_spawn m mt l = Some r'.
Proof.
  induction l as [|wp' l IH]; intros Hin Hr; [destruct Hin|].
  cbn [first_spawn].
  destruct (find_maneuver_spawn_at_intersection m wp' mt) as [r'|] eqn:E.
  - exists r'. reflexivity.
  - destruct Hin as [->|Hin]; [congruence|]. apply IH; assumption.
Qed.

Lemma search_location_cases (m : CarlaMap) (cfg : ManeuverConfig)
    (g : Random.rng) :
  search_location m cfg g =
  match first_spawn m (type cfg) (find_intersections m (location cfg)) with
  | Some r => (Some r, g)
  | None => random_spawn m (type cfg) g
  end.
Proof.
  unfold search_location.
  destruct (find_intersections m (location cfg)); reflexivity.
Qed.

(** Without a usable index the result is that of the search. *)
Lemma find_maneuver_location_unindexed (m : CarlaMap) (cfg : ManeuverConfig)
    (g : Random.rng) :
  (spawn_point_index cfg < 0)%Z ->
  find_maneuver_location m cfg g = search_location m cfg g.
Proof.
  intros H. unfold find_maneuver_location.
  apply Z.leb_gt in H. rewrite H. reflexivity.
Qed.

(** X1: [find_maneuver_location] never fails on a map with spawn points:
    it returns a spawn point of the map with the destination computed
    from it (by index or by the random fallback), or the plan of a
    junction the search has selected. *)
Theorem find_maneuver_location_returns (m : CarlaMap) (cfg : ManeuverConfig)
    (g : Random.rng) :
  get_spawn_points m <> [] -> Random.unit_draws (Random.draws g) ->
  exists spawn dest,
    fst (find_maneuver_location m cfg g) = Some (spawn, dest) /\
    ((In spawn (get_spawn_points m) /\
      dest = calculate_destination m spawn (type cfg)) \/
     (exists wp, In wp (find_intersections m (location cfg)) /\
        find_maneuver_spawn_at_intersection m wp (type cfg)
        = Some (spawn, dest))).
Proof.
  intros Hne Hd.
  assert (Hsearch : exists spawn dest,
            fst (search_location m cfg g) = Some (spawn, dest) /\
            ((In spawn (get_spawn_points m) /\
              dest = calculate_destination m spawn (type cfg)) \/
             (exists wp, In wp (find_intersections m (location cfg)) /\
                find_maneuver_spawn_at_intersection m wp (type cfg)
                = Some (spawn, dest)))).
  { rewrite search_location_cases.
    destruct (first_spawn m (type cfg) (find_intersections m (location cfg)))
      as [[spawn dest]|] eqn:E.
    - exists spawn, dest. split; [reflexivity|]. right.
      apply first_spawn_some. exact E.
    - destruct (random_spawn_some m (type cfg) g Hne Hd) as (spawn & Hs & Hin).
      exists spawn, (calculate_destination m spawn (type cfg)).
      split; [exact Hs|]. left. auto. }
  unfold find_maneuver_location.
  destruct (0 <=? spawn_point_index cfg)%Z eqn:Hge; [|exact Hsearch].
  destruct (spawn_point_index cfg <? Z.of_nat (length (get_spawn_points m)))%Z
    eqn:Hlt; [|exact Hsearch].
  destruct (nth_error (get_spawn_points m) (Z.to_nat (spawn_point_index cfg)))
    as [spawn|] eqn:E.
  - exists spawn, (calculate_destination m spawn (type cfg)).
    split; [reflexivity|]. left. split; [|reflexivity].
    eapply nth_error_In. exact E.
  - exfalso. apply nth_error_None in E. apply Z.ltb_lt in Hlt.
    apply Z.leb_le in Hge. lia.
Qed.

(** X1 at: the index 1 on the map with one spawn point: the fallback
    returns that spawn point. *)
Lemma find_maneuver_location_returns_witness :
  exists spawn dest,
    fst (find_maneuver_location Examples.bare_map (Examples.indexed 1)
           (Examples.constant_draws 0)) = Some (spawn, dest) /\
    ((In spawn (get_spawn_points Examples.bare_map) /\
      dest = calculate_destination Examples.bare_map spawn STRAIGHT) \/
     (exists wp,
        In wp (find_intersections Examples.bare_map INTERSECTION_SIGNAL) /\
        find_maneuver_spawn_at_intersection Examples.bare_map wp STRAIGHT
        = Some (spawn, dest))).
Proof.
  refine (find_maneuver_location_returns Examples.bare_map (Examples.indexed 1)
            (Examples.constant_draws 0) _ _).
  - discriminate.
  - intros n; cbn; lra.
Defined.

(** X2: On a map without spawn points the only plans are those of
    junctions: the call fails (the random fallback raises) exactly when
    the junction search finds none, whatever index is supplied. *)
Theorem find_maneuver_location_without_spawn_points (m : CarlaMap)
    (cfg : ManeuverConfig) (g : Random.rng) :
  get_spawn_points m = [] ->
  fst (find_maneuver_location m cfg g)
  = first_spawn m (type cfg) (find_intersections m (location cfg)).
Proof.
  intros Hnil.
  assert (Hsearch : fst (search_location m cfg g)
                    = first_spawn m (type cfg)
                        (find_intersections m (location cfg))).
  { rewrite search_location_cases.
    destruct (first_spawn m (type cfg) (find_intersections m (location cfg)));
      [reflexivity|].
    apply random_spawn_none. exact Hnil. }
  unfold find_maneuver_location. rewrite Hnil. cbn [length].
  destruct (0 <=? spawn_point_index cfg)%Z eqn:Hge; [|exact Hsearch].
  destruct (spawn_point_index cfg <? Z.of_nat 0)%Z eqn:Hlt; [|exact Hsearch].
  apply Z.ltb_lt in Hlt. apply Z.leb_le in Hge. lia.
Qed.

(** X2 at: the map without spawn points and junctions: the call fails. *)
Lemma find_maneuver_location_without_spawn_points_witness :
  fst (find_maneuver_location Cases.empty_map (Examples.indexed 0)
         (Examples.constant_draws 0)) = None.
Proof.
  exact (find_maneuver_location_without_spawn_points Cases.empty_map
           (Examples.indexed 0) (Examples.constant_draws 0) eq_refl).
Defined.

(** ** Road segments *)

Lemma selected_road_segment (m : CarlaMap) (wp : Waypoint) :
  selected m ROAD_SEGMENT wp = false.
Proof.
  unfold selected. destruct (is_junction wp) eqn:E; [|reflexivity].
  destruct (get_junction m wp); [|reflexivity].
  cbn [LocationType_eqb andb negb]. reflexivity.
Qed.

(** The waypoints the first loop keeps. *)
Lemma filter_bool_In {A} (f : A -> bool) (l : list A) (x : A) :
  In x (filter f l) <-> In x l /\ f x = true.
Proof.
  rewrite <- !list_elem_of_In, list_elem_of_filter, Is_true_true. tauto.
Qed.

Lemma filter_none {A} (f : A -> bool) (l : list A) :
  (forall x, f x = false) -> filter f l = [].
Proof.
  intros H. destruct (filter f l) as [|x l'] eqn:E; [reflexivity|].
  assert (Hin : In x (filter f l)) by (rewrite E; left; reflexivity).
  apply filter_bool_In in Hin as [_ Hx]. rewrite H in Hx. discriminate Hx.
Qed.

(** X3: For the location type ROAD_SEGMENT the junction search selects
    nothing on any map, so without an index the plan is always the
    random spawn point: the test for road segments sits under the test
    that the waypoint is in a junction. *)
Theorem road_segment_search_is_random (m : CarlaMap) (cfg : ManeuverConfig)
    (g : Random.rng) :
  location cfg = ROAD_SEGMENT -> (spawn_point_index cfg < 0)%Z ->
  find_intersections m (location cfg) = [] /\
  find_maneuver_location m cfg g = random_spawn m (type cfg) g.
Proof.
  intros Hloc Hidx.
  assert (Hnone : find_intersections m (location cfg) = []).
  { rewrite Hloc. unfold find_intersections.
    rewrite (filter_none _ _ (selected_road_segment m)). reflexivity. }
  split; [exact Hnone|].
  rewrite find_maneuver_location_unindexed by exact Hidx.
  rewrite search_location_cases, Hnone. reflexivity.
Qed.

(** X3 at: a road-segment request on the map with a signalled junction. *)
Lemma road_segment_search_is_random_witness :
  find_maneuver_location Cases.left_turn_map Cases.road_segment
    (Examples.constant_draws 0)
  = random_spawn Cases.left_turn_map STRAIGHT (Examples.constant_draws 0).
Proof.
  exact (proj2 (road_segment_search_is_random Cases.left_turn_map
                  Cases.road_segment (Examples.constant_draws 0)
                  eq_refl eq_refl)).
Defined.

(** ** The junctions the search selects *)

Lemma has_key_In (k : nat) (d : list (nat * Waypoint)) :
  has_key k d = true <-> In k (map fst d).
Proof.
  induction d as [|[k' wp] d IH]; cbn [has_key map fst In].
  - split; [discriminate | tauto].
  - rewrite orb_true_iff, Nat.eqb_eq, IH. split; intros [H|H]; auto.
Qed.

(** The second loop of [_find_intersections]: what it keeps of the
    dictionary, and what it adds. *)
Lemma dedup_spec (m : CarlaMap) (P : Waypoint -> Prop) (l : list Waypoint) :
  (forall wp, In wp l -> P wp) ->
  forall acc,
    (forall k wp, In (k, wp) acc -> P wp /\ junction_of m wp = Some k) ->
    NoDup (map fst acc) ->
    (forall k wp, In (k, wp) (dedup m l acc) ->
       P wp /\ junction_of m wp = Some k) /\
    NoDup (map fst (dedup m l acc)) /\
    (forall k, In k (map fst acc) -> In k (map fst (dedup m l acc))) /\
    (forall wp, In wp l -> is_junction wp = true ->
       forall k, junction_of m wp = Some k ->
                 In k (map fst (dedup m l acc))).
Proof.
  induction l as [|wp l IH]; intros HP acc Hacc Hnd.
  - cbn [dedup]. split; [exact Hacc|]. split; [exact Hnd|].
    split; [auto|]. intros wp' [].
  - assert (HPl : forall wp', In wp' l -> P wp') by (intros; apply HP; right; auto).
    cbn [dedup].
    destruct (is_junction wp) eqn:Ej.
    + destruct (get_junction m wp) as [j|] eqn:Eg.
      * destruct (has_key (junction_id j) acc) eqn:Eh.
        -- destruct (IH HPl acc Hacc Hnd) as (H1 & H2 & H3 & H4).
           split; [exact H1|]. split; [exact H2|]. split; [exact H3|].
           intros wp' [<-|Hin] Hj' k Hk; [|eapply H4; eauto].
           unfold junction_of in Hk. rewrite Eg in Hk. injection Hk as <-.
           apply H3. apply has_key_In. exact Eh.
        -- assert (Hacc' : forall k wp', In (k, wp') (acc ++ [(junction_id j, wp)]) ->
                             P wp' /\ junction_of m wp' = Some k).
           { intros k wp' Hin. apply in_app_or in Hin as [Hin|[Heq|[]]].
             - apply Hacc. exact Hin.
             - injection Heq as Hk Hw. subst k wp'.
               split; [apply HP; left; reflexivity|].
               unfold junction_of. rewrite Eg. reflexivity. }
           assert (Hnd' : NoDup (map fst (acc ++ [(junction_id j, wp)]))).
           { rewrite map_app. cbn [map fst]. apply NoDup_app.
             split; [exact Hnd|]. split; [|apply NoDup_singleton].
             intros k Hk Hk'. apply list_elem_of_In in Hk.
             apply list_elem_of_In in Hk'. destruct Hk' as [<-|[]].
             apply has_key_In in Hk. congruence. }
           destruct (IH HPl _ Hacc' Hnd') as (H1 & H2 & H3 & H4).
           split; [exact H1|]. split; [exact H2|]. split.
           ++ intros k Hk. apply H3. rewrite map_app. apply in_or_app. auto.
           ++ intros wp' [<-|Hin] Hj' k Hk; [|eapply H4; eauto].
              unfold junction_of in Hk. rewrite Eg in Hk. injection Hk as <-.
              apply H3. rewrite map_app. apply in_or_app. right. left.
              reflexivity.
      * destruct (IH HPl acc Hacc Hnd) as (H1 & H2 & H3 & H4).
        split; [exact H1|]. split; [exact H2|]. split; [exact H3|].
        intros wp' [<-|Hin] Hj' k Hk; [|eapply H4; eauto].
        unfold junction_of in Hk. rewrite Eg in Hk. discriminate Hk.
    + destruct (IH HPl acc Hacc Hnd) as (H1 & H2 & H3 & H4).
      split; [exact H1|]. split; [exact H2|]. split; [exact H3|].
      intros wp' [<-|Hin] Hj' k Hk; [congruence | eapply H4; eauto].
Qed.

Lemma NoDup_map_Some {A} (l : list A) : NoDup l -> NoDup (map Some l).
Proof.
  induction 1 as [|x l Hx Hl IH]; cbn [map]; constructor; [|exact IH].
  intros Hin. apply list_elem_of_In, in_map_iff in Hin as (y & Hy & Hin).
  injection Hy as ->. apply Hx, list_elem_of_In. exact Hin.
Qed.

Lemma selected_true (m : CarlaMap) (lt : LocationType) (wp : Waypoint) :
  selected m lt wp = true <->
  is_junction wp = true /\
  ((lt = INTERSECTION_SIGNAL /\ signalled m wp) \/
   (lt = INTERSECTION_NO_SIGNAL /\ unsignalled m wp)).
Proof.
  unfold selected, signalled, unsignalled.
  destruct (is_junction wp) eqn:Ej.
  - destruct (get_junction m wp) as [j|] eqn:Eg.
    + destruct (get_traffic_lights_in_junction m (junction_id j)) as [|tl tls] eqn:El;
        destruct lt; cbn; split; try discriminate; try (intros _; split; [reflexivity|]).
      all: try (intros [_ [[Hlt (j' & Hj' & Hl)]|[Hlt (j' & Hj' & Hl)]]];
                try discriminate Hlt; injection Hj' as <-; congruence).
      * right. split; [reflexivity|]. exists j. auto.
      * left. split; [reflexivity|]. exists j. split; [reflexivity|].
        rewrite El. discriminate.
    + split; [discriminate|].
      intros [_ [[_ (j & Hj & _)]|[_ (j & Hj & _)]]]; discriminate Hj.
  - split; [discriminate | intros [H _]; discriminate H].
Qed.

(** X4: [_find_intersections] returns sampled junction waypoints of the
    requested kind (with traffic lights for INTERSECTION_SIGNAL, without
    for INTERSECTION_NO_SIGNAL), one per junction id, and every junction
    that has a sampled waypoint of the requested kind is represented. *)
Theorem find_intersections_spec (m : CarlaMap) (lt : LocationType) :
  let r := find_intersections m lt in
  let wanted wp :=
    (lt = INTERSECTION_SIGNAL /\ signalled m wp) \/
    (lt = INTERSECTION_NO_SIGNAL /\ unsignalled m wp) in
  (forall wp, In wp r ->
     In wp (generate_waypoints m 5) /\ is_junction wp = true /\ wanted wp) /\
  NoDup (map (junction_of m) r) /\
  (forall wp, In wp (generate_waypoints m 5) -> is_junction wp = true ->
     wanted wp ->
     exists wp', In wp' r /\ junction_of m wp' = junction_of m wp).
Proof.
  intros r wanted. subst r. unfold find_intersections.
  set (l := filter (selected m lt) (generate_waypoints m 5)).
  set (P := fun wp => In wp (generate_waypoints m 5) /\ selected m lt wp = true).
  assert (HP : forall wp, In wp l -> P wp)
    by (intros wp Hin; apply filter_bool_In in Hin; exact Hin).
  destruct (dedup_spec m P l HP [] ltac:(intros k wp [])
              ltac:(constructor)) as (H1 & H2 & _ & H4).
  set (d := dedup m l []) in *.
  split; [|split].
  - intros wp Hin. apply in_map_iff in Hin as ([k wp'] & <- & Hin).
    destruct (H1 _ _ Hin) as [[Hw Hs] _]. apply selected_true in Hs.
    cbn [snd]. subst wanted. cbv beta. tauto.
  - rewrite map_map.
    assert (E : map (fun x => junction_of m (snd x)) d = map Some (map fst d)).
    { rewrite map_map. apply map_ext_in. intros [k wp] Hin.
      cbn [fst snd]. apply (H1 _ _ Hin). }
    rewrite E. apply NoDup_map_Some. exact H2.
  - intros wp Hin Hj Hw. subst wanted. cbv beta in Hw.
    assert (Hs : selected m lt wp = true) by (apply selected_true; tauto).
    assert (Hl : In wp l) by (apply filter_bool_In; tauto).
    destruct Hw as [[_ (j & Hg & _)]|[_ (j & Hg & _)]].
    all: assert (Hk : junction_of m wp = Some (junction_id j))
           by (unfold junction_of; rewrite Hg; reflexivity).
    all: pose proof (H4 wp Hl Hj _ Hk) as Hin'.
    all: apply in_map_iff in Hin' as ([k wp'] & Hfst & Hin').
    all: cbn [fst] in Hfst; subst k.
    all: exists wp'; split;
           [apply in_map_iff; exists (junction_id j, wp'); auto
           | rewrite Hk; apply (H1 _ _ Hin')].
Qed.

(** ** The plan of a junction *)

Lemma scan_pairs_sound (m : CarlaMap) (mt : ManeuverType)
    (pairs : list (Waypoint * Waypoint)) (spawn : Transform) (dest : Location) :
  scan_pairs m mt pairs = Some (spawn, dest) ->
  exists entry_wp exit_wp,
    In (entry_wp, exit_wp) pairs /\ serves m mt entry_wp exit_wp spawn dest.
Proof.
  induction pairs as [|[entry_wp exit_wp] rest IH]; cbn [scan_pairs];
    [discriminate|].
  intros H.
  assert (Hrest : scan_pairs m mt rest = Some (spawn, dest) ->
                  exists e x, In (e, x) ((entry_wp, exit_wp) :: rest) /\
                              serves m mt e x spawn dest).
  { intros Hr. destruct (IH Hr) as (e & x & Hin & Hs).
    exists e, x. split; [right; exact Hin | exact Hs]. }
  destruct (is_match mt _) eqn:Em; [|auto].
  destruct (previous m entry_wp 40) as [|spawn_wp ps] eqn:Ep; [auto|].
  destruct (next m exit_wp 30) as [|dest_wp ns] eqn:En; [auto|].
  injection H as <- <-. exists entry_wp, exit_wp.
  split; [left; reflexivity|]. unfold serves. rewrite Em, Ep, En.
  split; [reflexivity|]. split; eauto.
Qed.

Lemma scan_pairs_complete (m : CarlaMap) (mt : ManeuverType)
    (pairs : list (Waypoint * Waypoint)) (entry_wp exit_wp : Waypoint)
    (spawn : Transform) (dest : Location) :
  In (entry_wp, exit_wp) pairs -> serves m mt entry_wp exit_wp spawn dest ->
  exists plan, scan_pairs m mt pairs = Some plan.
Proof.
  intros Hin (Hm & (swp & ps & Hp & _) & (dwp & ns & Hn & _)).
  induction pairs as [|[e x] rest IH]; [destruct Hin|].
  cbn [scan_pairs].
  destruct Hin as [Heq|Hin].
  - injection Heq as -> ->. rewrite Hm, Hp, Hn. eauto.
  - pose proof (IH Hin) as Hr.
    destruct (is_match mt
                (angle_diff (yaw (t_rotation (wp_transform e)))
                            (yaw (t_rotation (wp_transform x)))));
      [|exact Hr].
    destruct (previous m e 40); [exact Hr|].
    destruct (next m x 30); [exact Hr|]. eauto.
Qed.

(** X5: [_find_maneuver_spawn_at_intersection] returns a plan exactly when
    some (entry, exit) pair of the junction has a turn angle of the
    requested class, a waypoint 40 m before its entry and a waypoint
    30 m after its exit; the plan returned is the one of such a pair:
    the spawn transform is the transform 40 m before the entry, lifted
    by 0.5, and the destination is the location 30 m after the exit. *)
Theorem junction_plan_spec (m : CarlaMap) (intersection_wp : Waypoint)
    (mt : ManeuverType) :
  (forall spawn dest,
     find_maneuver_spawn_at_intersection m intersection_wp mt
     = Some (spawn, dest) ->
     exists j entry_wp exit_wp,
       get_junction m intersection_wp = Some j /\
       In (entry_wp, exit_wp) (get_waypoints j) /\
       serves m mt entry_wp exit_wp spawn dest) /\
  (forall j entry_wp exit_wp spawn dest,
     get_junction m intersection_wp = Some j ->
     In (entry_wp, exit_wp) (get_waypoints j) ->
     serves m mt entry_wp exit_wp spawn dest ->
     exists plan,
       find_maneuver_spawn_at_intersection m intersection_wp mt = Some plan) /\
  (get_junction m intersection_wp = None ->
   find_maneuver_spawn_at_intersection m intersection_wp mt = None).
Proof.
  unfold find_maneuver_spawn_at_intersection. split; [|split].
  - intros spawn dest H.
    destruct (get_junction m intersection_wp) as [j|]; [|discriminate].
    destruct (scan_pairs_sound _ _ _ _ _ H) as (e & x & Hin & Hs).
    exists j, e, x. auto.
  - intros j e x spawn dest Hj Hin Hs. rewrite Hj.
    eapply scan_pairs_complete; eauto.
  - intros ->. reflexivity.
Qed.

(** X6: When no usable index is supplied and some selected junction yields
    a plan, [find_maneuver_location] returns the plan of a selected
    junction and makes no random draw. *)
Theorem junction_plan_preferred (m : CarlaMap) (cfg : ManeuverConfig)
    (g : Random.rng) (wp : Waypoint) (plan : Transform * Location) :
  (spawn_point_index cfg < 0)%Z \/
  (Z.of_nat (length (get_spawn_points m)) <= spawn_point_index cfg)%Z ->
  In wp (find_intersections m (location cfg)) ->
  find_maneuver_spawn_at_intersection m wp (type cfg) = Some plan ->
  exists wp' plan',
    In wp' (find_intersections m (location cfg)) /\
    find_maneuver_spawn_at_intersection m wp' (type cfg) = Some plan' /\
    find_maneuver_location m cfg g = (Some plan', g).
Proof.
  intros Hidx Hin Hplan.
  destruct (first_spawn_complete m (type cfg) _ wp plan Hin Hplan) as [plan' Hf].
  destruct (first_spawn_some _ _ _ _ Hf) as (wp' & Hin' & Hwp').
  exists wp', plan'. split; [exact Hin'|]. split; [exact Hwp'|].
  assert (Hs : find_maneuver_location m cfg g = search_location m cfg g).
  { unfold find_maneuver_location.
    destruct (0 <=? spawn_point_index cfg)%Z eqn:Hge; [|reflexivity].
    destruct (spawn_point_index cfg <? Z.of_nat (length (get_spawn_points m)))%Z
      eqn:Hlt; [|reflexivity].
    apply Z.leb_le in Hge. apply Z.ltb_lt in Hlt. lia. }
  rewrite Hs, search_location_cases, Hf. reflexivity.
Qed.

(** X6 at: a left turn requested on the map whose only junction,
    signalled, has one pair that turns by -90 degrees: the plan comes
    from that pair. *)
Lemma junction_plan_preferred_witness :
  exists wp plan,
    In wp (find_intersections Cases.left_turn_map INTERSECTION_SIGNAL) /\
    find_maneuver_spawn_at_intersection Cases.left_turn_map wp LEFT_TURN
    = Some plan /\
    find_maneuver_location Cases.left_turn_map Cases.left_turn
      (Examples.constant_draws 0)
    = (Some plan, Examples.constant_draws 0).
Proof.
  refine (junction_plan_preferred Cases.left_turn_map Cases.left_turn
            (Examples.constant_draws 0) (Cases.waypoint 10 0 true)
            (Locator.lift (Examples.heading 0), Examples.origin) _ _ _).
  - left. reflexivity.
  - left. reflexivity.
  - reflexivity.
Defined.

End LocatorSearch.

(* ===================================================================== *)
(** * The behaviour injector: what a run may and may not do               *)
(* ===================================================================== *)

Section InjectorShape.
Import Schema Carla Injector.

(** X7: [_apply_vehicle_behavior] in any world: it appends its calls to the
    log and leaves the earlier calls alone; its calls depend on the
    generator only; it reads one draw for a vehicle that follows the
    rules and seven otherwise, whatever the behaviours drawn. *)
Theorem vehicle_behavior_frame (vehicle : Actor) (config : VehicleTrafficConfig)
    (w : World) :
  let g := gen w in
  let w' := snd (apply_vehicle_behavior vehicle config w) in
  calls w' = calls w ++ vehicle_calls vehicle config g /\
  Random.draws (gen w') = Random.draws g /\
  Random.cursor (gen w') =
    ((if Py.Qltb (v_rule_break_probability config)
           (Random.draws g (Random.cursor g))
      then 1 else 7) + Random.cursor g)%nat.
Proof.
  destruct w as [[d c] l].
  unfold vehicle_calls, apply_vehicle_behavior, bind, random, uniform, when,
    emit, ret, Random.uniform, Random.random.
  cbn [gen calls Random.draws Random.cursor fst snd Nat.add].
  repeat (match goal with
          | |- context [if Py.Qltb ?a ?b then _ else _] =>
              destruct (Py.Qltb a b)
          end;
          cbn [gen calls Random.draws Random.cursor fst snd Nat.add app]).
  all: rewrite <- ?app_assoc; cbn [app]; rewrite ?app_nil_r; repeat split.
Qed.

Lemma in_opt (b : bool) (l : list call) (c : call) :
  In c (opt b l) -> b = true /\ In c l.
Proof. destruct b; cbn [opt]; [auto | intros []]. Qed.

(** X8: Every call [_apply_vehicle_behavior] makes is one of its seven
    setters, on the vehicle itself and with the fixed value of the code;
    a behaviour is applied only if its probability is above its draw,
    so a behaviour of probability 0 is never applied; the speed
    difference lies in [-20, 30). *)
Theorem vehicle_calls_shape (vehicle : Actor) (config : VehicleTrafficConfig)
    (g : Random.rng) (c : call) :
  Random.unit_draws (Random.draws g) ->
  In c (vehicle_calls vehicle config g) ->
  let b := v_behaviors config in
  (c = ignore_lights_percentage vehicle 100 /\ 0 < run_red_light b) \/
  (c = ignore_signs_percentage vehicle 100 /\ 0 < ignore_stop_sign b) \/
  ((c = random_left_lanechange_percentage vehicle 50 \/
    c = random_right_lanechange_percentage vehicle 50) /\
   0 < sudden_lane_change b) \/
  (c = ignore_vehicles_percentage vehicle 50 /\ 0 < ignore_right_of_way b) \/
  (c = distance_to_leading_vehicle vehicle 1 /\ 0 < tailgate b) \/
  (exists p, c = vehicle_percentage_speed_difference vehicle p /\
             -20 <= p /\ p < 30).
Proof.
  intros Hd Hin b. subst b.
  pose proof (vehicle_calls_eq vehicle config g) as E. cbv zeta in E.
  rewrite E in Hin. clear E.
  assert (Hpos : forall n p, Py.Qltb (Random.draws g n) p = true -> 0 < p).
  { intros n p H. apply Qltb_lt in H. destruct (Hd n) as [H0 _]. lra. }
  destruct (Py.Qltb (v_rule_break_probability config) _); [destruct Hin|].
  repeat (apply in_app_or in Hin as [Hin|Hin]).
  - apply in_opt in Hin as [Hb [<-|[]]]. left. eauto.
  - apply in_opt in Hin as [Hb [<-|[]]]. right; left. eauto.
  - apply in_opt in Hin as [Hb [<-|[<-|[]]]]; right; right; left; eauto.
  - apply in_opt in Hin as [Hb [<-|[]]]. right; right; right; left. eauto.
  - apply in_opt in Hin as [Hb [<-|[]]]. right; right; right; right; left. eauto.
  - destruct Hin as [<-|[]]. right; right; right; right; right.
    eexists. split; [reflexivity|].
    destruct (Hd (6 + Random.cursor g)%nat) as [H0 H1]. split; lra.
Qed.

(** X8 at: the draws 1/4 with rule-break probability 1/2 and no
    behaviour: the only call is a speed difference. *)
Lemma vehicle_calls_shape_witness :
  exists p,
    vehicle_percentage_speed_difference Examples.car (-20 + (30 - -20) * (1 # 4))
    = vehicle_percentage_speed_difference Examples.car p /\
    -20 <= p /\ p < 30.
Proof.
  destruct (vehicle_calls_shape Examples.car (Examples.vehicle_config (1 # 2) 0)
              (Examples.constant_draws (1 # 4))
              (vehicle_percentage_speed_difference Examples.car
                 (-20 + (30 - -20) * (1 # 4))))
    as [[H _]|[[H _]|[[[H|H] _]|[[H _]|[[H _]|H]]]]]; try discriminate H.
  - intros n; cbn; lra.
  - left. reflexivity.
  - exact H.
Defined.

(** X9: [_apply_pedestrian_behavior] in any world: it appends its calls to
    the log; it reads one draw for a pedestrian that follows the rules,
    and otherwise four, one more when it jaywalks and two more when it
    crosses towards an ego vehicle. *)
Theorem pedestrian_behavior_frame (controller walker : Actor)
    (ego_loc : option Location) (config : PedestrianTrafficConfig) (w : World) :
  let g := gen w in
  let d := Random.draws g in
  let c := Random.cursor g in
  let b := p_behaviors config in
  let w' := snd (apply_pedestrian_behavior controller walker ego_loc config w) in
  calls w' = calls w ++ pedestrian_calls controller walker ego_loc config g /\
  Random.draws (gen w') = d /\
  Random.cursor (gen w') =
    if Py.Qltb (p_rule_break_probability config) (d c) then (1 + c)%nat
    else
      let j := Py.Qltb (d (1 + c)%nat) (jaywalk b) in
      let c' := if j then (3 + c)%nat else (2 + c)%nat in
      if Py.Qltb (d (1 + c')%nat) (sudden_crossing b)
      then match ego_loc with
           | Some _ => (4 + c')%nat
           | None => (2 + c')%nat
           end
      else (2 + c')%nat.
Proof.
  destruct w as [[d c] l].
  unfold pedestrian_calls, apply_pedestrian_behavior, bind, random, uniform,
    when, emit, ret, Random.uniform, Random.random.
  cbn [gen calls Random.draws Random.cursor fst snd Nat.add].
  destruct ego_loc as [ego|].
  all: repeat (match goal with
               | |- context [if Py.Qltb ?a ?b then _ else _] =>
                   destruct (Py.Qltb a b)
               end;
               cbn [gen calls Random.draws Random.cursor fst snd Nat.add app]).
  all: rewrite <- ?app_assoc; cbn [app]; rewrite ?app_nil_r; repeat split.
Qed.



(** X11: Three probabilities of the configuration and the walker are never
    used: the calls of a vehicle do not depend on [sudden_brake], those
    of a pedestrian depend neither on [ignore_signal] and [stop_in_road]
    nor on the walker. *)
Theorem unused_probabilities (vehicle controller walker walker' : Actor)
    (ego_loc : option Location) (p q q' : Q) (vb : VehicleBehaviors)
    (pb : PedestrianBehaviors) (r r' s s' : Q) (g : Random.rng) :
  vehicle_calls vehicle
    {| v_rule_break_probability := p;
       v_behaviors := {| run_red_light := run_red_light vb;
                         ignore_stop_sign := ignore_stop_sign vb;
                         sudden_lane_change := sudden_lane_change vb;
                         ignore_right_of_way := ignore_right_of_way vb;
                         sudden_brake := q;
                         tailgate := tailgate vb |} |} g
  = vehicle_calls vehicle
      {| v_rule_break_probability := p;
         v_behaviors := {| run_red_light := run_red_light vb;
                           ignore_stop_sign := ignore_stop_sign vb;
                           sudden_lane_change := sudden_lane_change vb;
                           ignore_right_of_way := ignore_right_of_way vb;
                           sudden_brake := q';
                           tailgate := tailgate vb |} |} g /\
  pedestrian_calls controller walker ego_loc
    {| p_rule_break_probability := p;
       p_behaviors := {| jaywalk := jaywalk pb; ignore_signal := r;
                         sudden_crossing := sudden_crossing pb;
                         stop_in_road := s |} |} g
  = pedestrian_calls controller walker' ego_loc
      {| p_rule_break_probability := p;
         p_behaviors := {| jaywalk := jaywalk pb; ignore_signal := r';
                           sudden_crossing := sudden_crossing pb;
                           stop_in_road := s' |} |} g.
Proof.
  split.
  - rewrite !vehicle_calls_eq. reflexivity.
  - rewrite !pedestrian_calls_eq. reflexivity.
Qed.

End InjectorShape.

(* ===================================================================== *)
(** * The metrics: what the updates accumulate                            *)
(* ===================================================================== *)

Section MetricsFacts.
Import Schema Carla Evaluator EvaluatorSpec.

Variable sqrt : Q -> Q.
Variable cfg : EvaluationConfig.
Variable runner : option Runner.

Local Abbreviation update := (update_metrics sqrt cfg runner).
Local Abbreviation run := (update_all sqrt cfg runner).
Local Abbreviation speed := (fun s : Ego * Q => speed_of sqrt (get_velocity (fst s))).

(** ** The fields one update writes *)

Lemma update_fields (e : Ego) (t : Q) (ev : TCPEvaluator) :
  let ev' := update e t ev in
  let v := speed_of sqrt (get_velocity e) in
  max_speed (metrics ev') = Py.max (max_speed (metrics ev)) v /\
  min_speed (metrics ev') = min_bound (min_speed (metrics ev)) v /\
  speed_history ev' = speed_history ev ++ [v] /\
  distance_traveled (metrics ev') =
    match last_location ev with
    | Some last => distance_traveled (metrics ev)
                   + distance sqrt (get_location e) last
    | None => distance_traveled (metrics ev)
    end /\
  last_location ev' = Some (get_location e) /\
  last_velocity ev' = Some (get_velocity e) /\
  last_time ev' = t /\
  start_time ev' = start_time ev /\
  completed (metrics ev') = completed (metrics ev) /\
  timeout_reached (metrics ev') = timeout_reached (metrics ev) /\
  average_speed (metrics ev') = average_speed (metrics ev) /\
  comfort_score (metrics ev') = comfort_score (metrics ev) /\
  completion_time (metrics ev') = completion_time (metrics ev).
Proof.
  unfold update_metrics.
  destruct (acceleration_update sqrt e t ev) as [[? ?] ?].
  destruct (stuck_detection _ _ _ _ _). repeat split.
Qed.

Lemma max_cases (a b : Q) :
  (Py.max a b = a /\ b <= a) \/ (Py.max a b = b /\ a < b).
Proof.
  unfold Py.max. destruct (Py.Qltb a b) eqn:E.
  - right. apply Qltb_lt in E. auto.
  - left. apply Qltb_ge in E. auto.
Qed.

Lemma min_cases (a b : Q) :
  (Py.min a b = a /\ a <= b) \/ (Py.min a b = b /\ b < a).
Proof.
  unfold Py.min. destruct (Py.Qltb b a) eqn:E.
  - right. apply Qltb_lt in E. auto.
  - left. apply Qltb_ge in E. auto.
Qed.

Lemma run_cons (s : Ego * Q) (l : list (Ego * Q)) (ev : TCPEvaluator) :
  run (s :: l) ev = run l (update (fst s) (snd s) ev).
Proof. reflexivity. Qed.

Lemma run_speed_history (l : list (Ego * Q)) (ev : TCPEvaluator) :
  speed_history (run l ev) = speed_history ev ++ map speed l.
Proof.
  revert ev. induction l as [|s l IH]; intros ev.
  - cbn. rewrite app_nil_r. reflexivity.
  - rewrite run_cons, IH.
    destruct (update_fields (fst s) (snd s) ev) as (_ & _ & -> & _).
    rewrite <- app_assoc. reflexivity.
Qed.

(** ** Extrema *)

Lemma update_extrema (e : Ego) (t : Q) (ev : TCPEvaluator) :
  extrema_of_history ev -> extrema_of_history (update e t ev).
Proof.
  intros (Hmax & Hin & Hmin). unfold extrema_of_history.
  destruct (update_fields e t ev) as (-> & -> & -> & _).
  set (v := speed_of sqrt (get_velocity e)).
  split; [|split].
  - apply Forall_app. split.
    + eapply Forall_impl; [exact Hmax|]. cbv beta. intros s Hs.
      pose proof (max_ge_l (max_speed (metrics ev)) v). lra.
    + constructor; [|constructor].
      destruct (max_cases (max_speed (metrics ev)) v) as [[-> H]|[-> H]]; lra.
  - destruct (max_cases (max_speed (metrics ev)) v) as [[-> H]|[-> H]].
    + destruct Hin as [H0|H0]; [left; exact H0|].
      right. apply in_or_app. left. exact H0.
    + right. apply in_or_app. right. left. reflexivity.
  - destruct (min_speed (metrics ev)) as [m|]; cbn [min_bound].
    + destruct Hmin as [Hm Hall].
      destruct (min_cases m v) as [[-> H]|[-> H]].
      * split; [apply in_or_app; left; exact Hm|].
        apply Forall_app. split; [exact Hall|]. repeat constructor. exact H.
      * split; [apply in_or_app; right; left; reflexivity|].
        apply Forall_app. split.
        -- eapply Forall_impl; [exact Hall|]. cbv beta. intros s Hs. lra.
        -- repeat constructor. lra.
    + rewrite Hmin. cbn [app]. split; [left; reflexivity|].
      repeat constructor. lra.
Qed.

Lemma run_extrema (l : list (Ego * Q)) (ev : TCPEvaluator) :
  extrema_of_history ev -> extrema_of_history (run l ev).
Proof.
  revert ev. induction l as [|s l IH]; intros ev H; [exact H|].
  rewrite run_cons. apply IH. apply update_extrema. exact H.
Qed.

Lemma initialize_extrema (env : Env) :
  extrema_of_history (initialize env TCPEvaluator_init).
Proof.
  unfold extrema_of_history. cbn.
  split; [constructor|]. split; [left; reflexivity | reflexivity].
Qed.

(** X12: After any number of updates of a run, the speed history is the list
    of the speeds of the samples; the maximal speed bounds every speed
    of the history and is one of them or the initial 0; the minimal
    speed is positive infinity before the first update and afterwards
    the least speed of the history. *)
Theorem speed_extrema_follow_history (env : Env) (samples : list (Ego * Q)) :
  let ev := run samples (initialize env TCPEvaluator_init) in
  speed_history ev = map speed samples /\
  Forall (fun s => s <= max_speed (metrics ev)) (speed_history ev) /\
  (max_speed (metrics ev) = 0 \/
   In (max_speed (metrics ev)) (speed_history ev)) /\
  match min_speed (metrics ev) with
  | PosInf => samples = []
  | Fin m => In m (speed_history ev) /\
             Forall (fun s => m <= s) (speed_history ev)
  end.
Proof.
  intros ev. subst ev.
  pose proof (run_extrema samples _ (initialize_extrema env)) as (H1 & H2 & H3).
  pose proof (run_speed_history samples (initialize env TCPEvaluator_init)) as Hh.
  cbn [initialize speed_history TCPEvaluator_init app] in Hh.
  split; [exact Hh|]. split; [exact H1|]. split; [exact H2|].
  destruct (min_speed _); [exact H3|].
  rewrite Hh in H3. destruct samples; [reflexivity | discriminate H3].
Qed.

(** ** The distance travelled *)

(** X14: From a known last location, the updates add to the distance
    travelled the length of the path through the locations of the
    samples. *)
Theorem distance_traveled_is_path_length (samples : list (Ego * Q))
    (ev : TCPEvaluator) (origin : Location) :
  last_location ev = Some origin ->
  distance_traveled (metrics (run samples ev))
  == distance_traveled (metrics ev)
     + path_length sqrt (origin :: map (fun s => get_location (fst s)) samples).
Proof.
  revert ev origin. induction samples as [|s l IH]; intros ev origin Hlast.
  - cbn. lra.
  - rewrite run_cons.
    destruct (update_fields (fst s) (snd s) ev)
      as (_ & _ & _ & Hd & Hl & _).
    rewrite (IH _ _ Hl), Hd, Hlast.
    cbn [map path_length]. lra.
Qed.

(** ** The acceleration samples *)

Lemma update_acceleration_history (e : Ego) (t : Q) (ev : TCPEvaluator) :
  acceleration_history (update e t ev)
  = fst (fst (acceleration_update sqrt e t ev)).
Proof.
  unfold update_metrics.
  destruct (acceleration_update sqrt e t ev) as [[? ?] ?].
  destruct (stuck_detection _ _ _ _ _). reflexivity.
Qed.

Lemma acceleration_update_length (e : Ego) (t : Q) (ev : TCPEvaluator) :
  let h := fst (fst (acceleration_update sqrt e t ev)) in
  (last_velocity ev = None -> h = acceleration_history ev) /\
  (last_time ev <= 0 -> h = acceleration_history ev) /\
  (t <= last_time ev -> h = acceleration_history ev) /\
  (length h <= S (length (acceleration_history ev)))%nat.
Proof.
  unfold acceleration_update.
  destruct (last_velocity ev) as [last|].
  - destruct (Py.Qltb 0 (last_time ev)) eqn:E1.
    + destruct (Py.Qltb 0 (t - last_time ev)) eqn:E2.
      * apply Qltb_lt in E1. apply Qltb_lt in E2.
        destruct (Py.Qltb 0 _); cbn [fst];
          (split; [discriminate|]); (split; [intros; lra|]);
          (split; [intros; lra|]); rewrite length_app; cbn [length]; lia.
      * cbn [fst]. repeat split; lia.
    + cbn [fst]. repeat split; lia.
  - cbn [fst]. repeat split; lia.
Qed.

(** X15: An update records at most one acceleration sample, and none when
    there is no earlier velocity, when the earlier update was made at a
    time that is not positive, or when time has not advanced since. So
    a run of [n] updates from the initial state records at most
    [n - 1] acceleration samples. *)
Theorem acceleration_samples_bound (env : Env) (samples : list (Ego * Q)) :
  (forall e t ev,
     (length (acceleration_history (update e t ev))
      <= S (length (acceleration_history ev)))%nat) /\
  (forall e t ev,
     (last_velocity ev = None \/ last_time ev <= 0 \/ t <= last_time ev) ->
     acceleration_history (update e t ev) = acceleration_history ev) /\
  (length (acceleration_history
             (run samples (initialize env TCPEvaluator_init)))
   <= pred (length samples))%nat.
Proof.
  split.
  { intros e t ev. rewrite update_acceleration_history.
    apply (acceleration_update_length e t ev). }
  split.
  - intros e t ev H. rewrite update_acceleration_history.
    destruct (acceleration_update_length e t ev) as (H1 & H2 & H3 & _).
    destruct H as [H|[H|H]]; auto.
  - assert (Hgen : forall l ev,
              last_velocity ev <> None ->
              (length (acceleration_history (run l ev))
               <= length (acceleration_history ev) + length l)%nat).
    { induction l as [|s l IH]; intros ev Hv.
      - cbn. lia.
      - rewrite run_cons.
        destruct (update_fields (fst s) (snd s) ev)
          as (_ & _ & _ & _ & _ & Hlv & _).
        specialize (IH (update (fst s) (snd s) ev)).
        rewrite update_acceleration_history in IH.
        destruct (acceleration_update_length (fst s) (snd s) ev)
          as (_ & _ & _ & Hlen).
        cbn [length]. rewrite Hlv in IH. specialize (IH ltac:(discriminate)).
        lia. }
    destruct samples as [|s l]; [cbn; lia|].
    rewrite run_cons. cbn [length pred].
    set (ev0 := initialize env TCPEvaluator_init).
    destruct (update_fields (fst s) (snd s) ev0)
      as (_ & _ & _ & _ & _ & Hlv & _).
    specialize (Hgen l (update (fst s) (snd s) ev0)).
    rewrite Hlv in Hgen. specialize (Hgen ltac:(discriminate)).
    rewrite update_acceleration_history in Hgen.
    destruct (acceleration_update_length (fst s) (snd s) ev0) as (H1 & _).
    rewrite (H1 eq_refl) in Hgen. cbn [length] in Hgen. exact Hgen.
Qed.

(** ** Finalization *)

(** X16: Finalizing twice is finalizing once with the later elapsed time, and
    with a runner the report counts the logged events: as many
    collisions as collision types, both those of the runner's log, and
    the runner's lane invasions and red lights. *)
Theorem finalize_metrics_idempotent (r : Runner) (elapsed elapsed' : Q)
    (ev : TCPEvaluator) :
  finalize_metrics (Some r) elapsed' (finalize_metrics (Some r) elapsed ev)
  = finalize_metrics (Some r) elapsed' ev /\
  let m := metrics (finalize_metrics (Some r) elapsed ev) in
  collision_types m = collisions r /\
  num_collisions m = length (collision_types m) /\
  lane_invasions m = length (runner_lane_invasions r) /\
  red_lights_run m = runner_red_lights_run r /\
  completion_time m = elapsed.
Proof.
  split; [|repeat split].
  unfold finalize_metrics. cbn.
  destruct (Py.truthy (speed_history ev));
    destruct (Py.truthy (acceleration_history ev)); reflexivity.
Qed.

End MetricsFacts.

(** X14 at: a run that starts at the origin and moves to (3, 4, 0): 5 m. *)
Lemma distance_traveled_is_path_length_witness :
  Evaluator.distance_traveled
    (Evaluator.metrics
       (Evaluator.update_all Examples.sqrt_floor Examples.evaluation_config
          None
          [(Cases.ego_at {| Carla.x := 3; Carla.y := 4; Carla.z := 0 |}, 1)]
          Cases.fresh))
  == 0 + (Examples.sqrt_floor 25 + 0).
Proof.
  rewrite (distance_traveled_is_path_length Examples.sqrt_floor
             Examples.evaluation_config None
             [(Cases.ego_at {| Carla.x := 3; Carla.y := 4; Carla.z := 0 |}, 1)]
             Cases.fresh Examples.origin eq_refl).
  reflexivity.
Defined.

(* ===================================================================== *)
(** * The evaluation loop: how a run ends                                 *)
(* ===================================================================== *)

Section LoopFacts.
Import Schema Carla Evaluator EvaluatorSpec.

Variable sqrt : Q -> Q.
Variable cfg : EvaluationConfig.
Variable r : Runner.

Local Abbreviation update := (update_metrics sqrt cfg (Some r)).
Local Abbreviation run := (update_all sqrt cfg (Some r)).

(** The flag, once set, stays set. *)
Lemma stuck_sticky (l : list (Ego * Q)) (ev : TCPEvaluator) :
  stuck (metrics ev) = true -> stuck (metrics (run l ev)) = true.
Proof.
  revert ev. induction l as [|s l IH]; intros ev H; [exact H|].
  change (run (s :: l) ev) with (run l (update (fst s) (snd s) ev)).
  apply IH.
  pose proof (update_stuck_state sqrt cfg (Some r) (fst s) (snd s) ev) as E.
  unfold stuck_state, stuck_detection in E. rewrite H in E.
  destruct (Py.Qltb _ (stuck_speed_threshold cfg)).
  - destruct (stuck_start_time ev).
    + destruct (Py.Qltb (stuck_timeout cfg) _); congruence.
    + congruence.
  - congruence.
Qed.

(** The loop runs through a prefix of calm iterations that does not set
    the stuck flag, updating the metrics once per iteration. *)
Lemma loop_calm_prefix (before rest : list Tick) (ev : TCPEvaluator) :
  Forall (calm sqrt cfg r (start_time ev)) before ->
  stuck (metrics (run (samples_of (start_time ev) before) ev)) = false ->
  loop sqrt cfg r (before ++ rest) ev
  = loop sqrt cfg r rest (run (samples_of (start_time ev) before) ev).
Proof.
  revert ev. induction before as [|t before IH]; intros ev Hcalm Hns.
  - reflexivity.
  - inversion Hcalm as [|? ? (Hf & Hto & Hc) Hcalm']; subst.
    cbn [app loop]. apply Qltb_ge in Hto. rewrite Hto.
    destruct (stuck (metrics ev)) eqn:Hs.
    { rewrite (stuck_sticky _ _ Hs) in Hns. discriminate Hns. }
    rewrite Hc, Hf.
    cbn [samples_of map] in Hns.
    rewrite (run_cons sqrt cfg (Some r)) in Hns. cbn [fst snd] in Hns.
    cbn [samples_of map]. rewrite (run_cons sqrt cfg (Some r)). cbn [fst snd].
    set (ev1 := update (ego t) (now t - start_time ev) ev) in *.
    assert (Hst : start_time ev1 = start_time ev)
      by (apply (update_fields sqrt cfg (Some r))).
    fold (samples_of (start_time ev) before) in Hns |- *.
    rewrite <- Hst in Hcalm', Hns |- *. apply (IH ev1 Hcalm' Hns).
Qed.

Lemma loop_start_time (ticks : list Tick) (ev ev' : TCPEvaluator) (e : Exit) :
  loop sqrt cfg r ticks ev = Some (e, ev') -> start_time ev' = start_time ev.
Proof.
  revert ev. induction ticks as [|t ticks IH]; intros ev H; [discriminate H|].
  cbn [loop] in H.
  assert (Hst : start_time (update (ego t) (now t - start_time ev) ev)
                = start_time ev)
    by (apply (update_fields sqrt cfg (Some r))).
  destruct (Py.Qltb (timeout cfg) _); [injection H as <- <-; reflexivity|].
  destruct (stuck (metrics ev)); [injection H as <- <-; reflexivity|].
  destruct (check_completion sqrt (Some r) (ego t));
    [injection H as <- <-; reflexivity|].
  destruct (fault t) as [[[|] f]|].
  - injection H as <- <-. reflexivity.
  - injection H as <- <-. exact Hst.
  - rewrite (IH _ H). exact Hst.
Qed.

(** The loop ends at the latest at the first iteration that finds the
    timeout passed. *)
Lemma loop_returns (ticks : list Tick) (ev : TCPEvaluator) :
  Exists (fun t => timeout cfg < now t - start_time ev) ticks ->
  exists res, loop sqrt cfg r ticks ev = Some res.
Proof.
  intros H. revert ev H. induction ticks as [|t ticks IH]; intros ev H.
  - inversion H.
  - cbn [loop].
    destruct (Py.Qltb (timeout cfg) (now t - start_time ev)) eqn:Hto; [eauto|].
    destruct (stuck (metrics ev)); [eauto|].
    destruct (check_completion sqrt (Some r) (ego t)); [eauto|].
    destruct (fault t) as [[[|] f]|]; [eauto | eauto |].
    apply IH.
    assert (Hst : start_time (update (ego t) (now t - start_time ev) ev)
                  = start_time ev)
      by (apply (update_fields sqrt cfg (Some r))).
    rewrite Hst. inversion H as [? ? Hnow|? ? Hex]; subst; [|exact Hex].
    apply Qltb_ge in Hto. lra.
Qed.

(** What the terminal flags of the state the loop leaves say about the
    iterations, for a loop entered with both flags clear. *)
Lemma loop_flags (ticks : list Tick) (ev ev' : TCPEvaluator) (e : Exit) :
  completed (metrics ev) = false -> timeout_reached (metrics ev) = false ->
  loop sqrt cfg r ticks ev = Some (e, ev') ->
  (completed (metrics ev') = true ->
     e = Break /\ timeout_reached (metrics ev') = false /\
     stuck (metrics ev') = false /\
     exists t, In t ticks /\
               check_completion sqrt (Some r) (ego t) = true /\
               now t - start_time ev <= timeout cfg) /\
  (timeout_reached (metrics ev') = true ->
     e = Break /\ completed (metrics ev') = false /\
     exists t, In t ticks /\ timeout cfg < now t - start_time ev).
Proof.
  revert ev. induction ticks as [|t ticks IH]; intros ev Hc Ht H;
    [discriminate H|].
  cbn [loop] in H.
  destruct (update_fields sqrt cfg (Some r) (ego t) (now t - start_time ev) ev)
    as (_ & _ & _ & _ & _ & _ & _ & Hst & Hc' & Ht' & _).
  destruct (Py.Qltb (timeout cfg) (now t - start_time ev)) eqn:Hto.
  { injection H as <- <-. cbn. split; [congruence|].
    intros _. split; [reflexivity|]. split; [exact Hc|].
    exists t. split; [left; reflexivity|]. apply Qltb_lt. exact Hto. }
  destruct (stuck (metrics ev)) eqn:Hs.
  { injection H as <- <-. split; congruence. }
  destruct (check_completion sqrt (Some r) (ego t)) eqn:Hcc.
  { injection H as <- <-. cbn. split; [|congruence].
    intros _. split; [reflexivity|]. split; [exact Ht|]. split; [exact Hs|].
    exists t. split; [left; reflexivity|]. split; [exact Hcc|].
    apply Qltb_ge. exact Hto. }
  destruct (fault t) as [[[|] f]|].
  - injection H as <- <-. split; congruence.
  - injection H as <- <-. rewrite Hc', Ht'. split; congruence.
  - rewrite <- Hc' in Hc. rewrite <- Ht' in Ht.
    destruct (IH _ Hc Ht H) as [IH1 IH2]. rewrite Hst in IH1, IH2.
    split.
    + intros Hd. destruct (IH1 Hd) as (? & ? & ? & t' & Hin & ? & ?).
      repeat split; auto. exists t'. split; [right; exact Hin | auto].
    + intros Hd. destruct (IH2 Hd) as (? & ? & t' & Hin & ?).
      repeat split; auto. exists t'. split; [right; exact Hin | auto].
Qed.

(** Calm iterations whose updates set the stuck flag are followed by a
    [break], at the next iteration at the latest. *)
Lemma loop_breaks_when_stuck (ticks : list Tick) (tb : Tick)
    (rest : list Tick) (ev : TCPEvaluator) :
  Forall (calm sqrt cfg r (start_time ev)) ticks ->
  stuck (metrics (run (samples_of (start_time ev) ticks) ev)) = true ->
  now tb - start_time ev <= timeout cfg ->
  exists ev',
    loop sqrt cfg r (ticks ++ tb :: rest) ev = Some (Break, ev') /\
    stuck (metrics ev') = true /\
    completed (metrics ev') = completed (metrics ev) /\
    timeout_reached (metrics ev') = timeout_reached (metrics ev) /\
    start_time ev' = start_time ev.
Proof.
  revert ev. induction ticks as [|t ticks IH]; intros ev Hcalm Hs Htb.
  - cbn [app loop]. apply Qltb_ge in Htb. rewrite Htb.
    cbn in Hs. rewrite Hs. exists ev. auto.
  - inversion Hcalm as [|? ? (Hf & Hto & Hc) Hcalm']; subst.
    cbn [app loop]. apply Qltb_ge in Hto. rewrite Hto.
    destruct (stuck (metrics ev)) eqn:Hse; [exists ev; auto|].
    rewrite Hc, Hf.
    cbn [samples_of map] in Hs.
    rewrite (run_cons sqrt cfg (Some r)) in Hs. cbn [fst snd] in Hs.
    fold (samples_of (start_time ev) ticks) in Hs.
    set (ev1 := update (ego t) (now t - start_time ev) ev) in *.
    destruct (update_fields sqrt cfg (Some r) (ego t) (now t - start_time ev) ev)
      as (_ & _ & _ & _ & _ & _ & _ & Hst & Hc' & Ht' & _).
    fold ev1 in Hst, Hc', Ht'.
    rewrite <- Hst in Hcalm', Hs, Htb.
    destruct (IH ev1 Hcalm' Hs Htb) as (ev' & Hl & H1 & H2 & H3 & H4).
    exists ev'. rewrite Hl. repeat split; congruence.
Qed.

End LoopFacts.

Section RunFacts.
Import Schema Carla Evaluator EvaluatorSpec.

Variable sqrt : Q -> Q.
Variable cfg : EvaluationConfig.

(** X17: [run_evaluation] returns as soon as the clock has passed the
    timeout at the top of some iteration: the loop cannot go on beyond
    the first such iteration. *)
Theorem run_evaluation_returns (env : Env) (ev : TCPEvaluator) :
  Exists (fun t => timeout cfg < now t - t_start env) (ticks env) ->
  exists rep, run_evaluation sqrt cfg env ev = Some rep.
Proof.
  intros H. unfold run_evaluation.
  destruct (negb (setup_scenario env)); [eauto|].
  destruct (negb (has_ego_vehicle (runner env))); [eauto|].
  destruct (loop_returns sqrt cfg (runner env) (ticks env) (initialize env ev) H)
    as [[e ev'] ->].
  destruct e as [|[|]]; eauto.
Qed.

(** X19: In the report of a run from the initial state, [completed] excludes
    [timeout_reached] and [stuck], and is set only if at some iteration
    the timeout had not passed and the ego vehicle was within 5 m of
    the destination; [timeout_reached] excludes [completed] and is set
    only if some iteration found the timeout passed. *)
Theorem terminal_flags (env : Env) (rep : Report) :
  run_evaluation sqrt cfg env TCPEvaluator_init = Some rep ->
  let m := returned rep in
  (completed m = true ->
     timeout_reached m = false /\ stuck m = false /\
     exists t, In t (ticks env) /\
               check_completion sqrt (Some (runner env)) (ego t) = true /\
               now t - t_start env <= timeout cfg) /\
  (timeout_reached m = true ->
     completed m = false /\
     exists t, In t (ticks env) /\ timeout cfg < now t - t_start env).
Proof.
  unfold run_evaluation.
  destruct (negb (setup_scenario env)).
  { intros H. injection H as <-. cbn. split; discriminate. }
  destruct (negb (has_ego_vehicle (runner env))).
  { intros H. injection H as <-. cbn. split; discriminate. }
  destruct (loop sqrt cfg (runner env) (ticks env)
              (initialize env TCPEvaluator_init)) as [[e ev']|] eqn:Hloop;
    [|discriminate].
  destruct (loop_flags sqrt cfg (runner env) (ticks env)
              (initialize env TCPEvaluator_init) ev' e eq_refl eq_refl Hloop)
    as [H1 H2].
  cbn [initialize start_time] in H1, H2.
  assert (Hgoal :
    (completed (metrics ev') = true ->
       timeout_reached (metrics ev') = false /\ stuck (metrics ev') = false /\
       exists t, In t (ticks env) /\
                 check_completion sqrt (Some (runner env)) (ego t) = true /\
                 now t - t_start env <= timeout cfg) /\
    (timeout_reached (metrics ev') = true ->
       completed (metrics ev') = false /\
       exists t, In t (ticks env) /\ timeout cfg < now t - t_start env)).
  { split; intros Hd.
    - destruct (H1 Hd) as (_ & ? & ? & ?). auto.
    - destruct (H2 Hd) as (_ & ? & ?). auto. }
  destruct e as [|[|]]; intros H; injection H as <-; exact Hgoal.
Qed.

End RunFacts.

(* ===================================================================== *)
(** * The three ways a run ends                                           *)
(* ===================================================================== *)

Section Outcomes.
Import Schema Carla Evaluator EvaluatorSpec.

Variable sqrt : Q -> Q.
Variable cfg : EvaluationConfig.

Local Abbreviation speed := (fun s : Ego * Q => speed_of sqrt (get_velocity (fst s))).

(** What a run of updates leaves alone. *)
Lemma run_frame (runner : option Runner) (l : list (Ego * Q))
    (ev : TCPEvaluator) :
  let ev' := update_all sqrt cfg runner l ev in
  start_time ev' = start_time ev /\
  completed (metrics ev') = completed (metrics ev) /\
  timeout_reached (metrics ev') = timeout_reached (metrics ev).
Proof.
  revert ev. induction l as [|s l IH]; intros ev; [cbn; auto|].
  cbn zeta. rewrite (run_cons sqrt cfg runner).
  destruct (IH (update_metrics sqrt cfg runner (fst s) (snd s) ev))
    as (-> & -> & ->).
  destruct (update_fields sqrt cfg runner (fst s) (snd s) ev)
    as (_ & _ & _ & _ & _ & _ & _ & Hst & Hc & Ht & _).
  auto.
Qed.

(** The state of the loop after a prefix of undisturbed iterations
    during which the stuck detection did not fire. *)
Lemma calm_prefix_state (env : Env) (before rest : list Tick) :
  Forall (calm sqrt cfg (runner env) (t_start env)) before ->
  ~ fires sqrt cfg (samples_of (t_start env) before) ->
  let ev1 := update_all sqrt cfg (Some (runner env))
               (samples_of (t_start env) before)
               (initialize env TCPEvaluator_init) in
  loop sqrt cfg (runner env) (before ++ rest) (initialize env TCPEvaluator_init)
  = loop sqrt cfg (runner env) rest ev1 /\
  start_time ev1 = t_start env /\
  stuck (metrics ev1) = false /\
  completed (metrics ev1) = false /\
  timeout_reached (metrics ev1) = false /\
  speed_history ev1 = map speed (samples_of (t_start env) before).
Proof.
  intros Hcalm Hnf.
  pose (ev0 := initialize env TCPEvaluator_init).
  assert (Hst : start_time ev0 = t_start env) by reflexivity.
  fold ev0. intros ev1.
  assert (Hstuck : stuck (metrics ev1) = false).
  { destruct (stuck_invariant sqrt cfg (Some (runner env))
                (samples_of (t_start env) before) ev0 eq_refl) as [_ Hiff].
    fold ev1 in Hiff. destruct (stuck (metrics ev1)); [|reflexivity].
    exfalso. apply Hnf, Hiff. reflexivity. }
  pose proof (loop_calm_prefix sqrt cfg (runner env) before rest ev0) as HL.
  rewrite Hst in HL. fold ev1 in HL.
  destruct (run_frame (Some (runner env)) (samples_of (t_start env) before) ev0)
    as (H1 & H2 & H3).
  fold ev1 in H1, H2, H3.
  split; [exact (HL Hcalm Hstuck)|].
  split; [rewrite H1; exact Hst|].
  split; [exact Hstuck|].
  split; [rewrite H2; reflexivity|].
  split; [rewrite H3; reflexivity|].
  unfold ev1. rewrite (run_speed_history sqrt cfg (Some (runner env))).
  reflexivity.
Qed.

(** The stuck detection needs two samples to fire. *)
Lemma fires_needs_two (l : list (Ego * Q)) :
  fires sqrt cfg l -> (2 <= length l)%nat.
Proof.
  intros (i & j & si & sj & Hij & _ & _ & Hj & _).
  apply lookup_lt_Some in Hj. lia.
Qed.

(** X20: A run that goes through undisturbed iterations without the stuck
    detection firing and then finds the timeout passed ends there: it
    is reported as timed out, neither completed nor stuck, finalized
    once with the elapsed time and cleaned up; the speed samples are
    those of the iterations before, the one that found the timeout
    contributing none. *)
Theorem run_times_out (env : Env) (before after : list Tick) (t : Tick) :
  setup_scenario env = true ->
  has_ego_vehicle (runner env) = true ->
  ticks env = before ++ t :: after ->
  Forall (calm sqrt cfg (runner env) (t_start env)) before ->
  ~ fires sqrt cfg (samples_of (t_start env) before) ->
  timeout cfg < now t - t_start env ->
  exists rep,
    run_evaluation sqrt cfg env TCPEvaluator_init = Some rep /\
    timeout_reached (returned rep) = true /\
    completed (returned rep) = false /\
    stuck (returned rep) = false /\
    completion_time (returned rep) = t_end env - t_start env /\
    events rep = [Finalize (t_end env - t_start env); Cleanup] /\
    speed_history (final rep) = map speed (samples_of (t_start env) before).
Proof.
  intros Hsetup Hego Hticks Hcalm Hnf Hto.
  destruct (calm_prefix_state env before (t :: after) Hcalm Hnf)
    as (HL & Hst & Hstuck & Hc & Htr & Hsh).
  unfold run_evaluation. rewrite Hsetup, Hego, Hticks, HL. cbn [negb loop].
  rewrite Hst. apply Qltb_lt in Hto. rewrite Hto.
  eexists. split; [reflexivity|].
  cbn. rewrite Hst, Hc, Hstuck, Hsh. repeat split; reflexivity.
Qed.

(** X21: A run that goes through undisturbed iterations without the stuck
    detection firing and then, within the timeout, finds the ego
    vehicle within 5 m of the destination ends there: it is reported as
    completed, neither timed out nor stuck, finalized once with the
    elapsed time and cleaned up; the iteration that found the
    destination reached contributes no sample. *)
Theorem run_completes (env : Env) (before after : list Tick) (t : Tick) :
  setup_scenario env = true ->
  has_ego_vehicle (runner env) = true ->
  ticks env = before ++ t :: after ->
  Forall (calm sqrt cfg (runner env) (t_start env)) before ->
  ~ fires sqrt cfg (samples_of (t_start env) before) ->
  now t - t_start env <= timeout cfg ->
  check_completion sqrt (Some (runner env)) (ego t) = true ->
  exists rep,
    run_evaluation sqrt cfg env TCPEvaluator_init = Some rep /\
    completed (returned rep) = true /\
    timeout_reached (returned rep) = false /\
    stuck (returned rep) = false /\
    completion_time (returned rep) = t_end env - t_start env /\
    events rep = [Finalize (t_end env - t_start env); Cleanup] /\
    speed_history (final rep) = map speed (samples_of (t_start env) before).
Proof.
  intros Hsetup Hego Hticks Hcalm Hnf Hto Hdone.
  destruct (calm_prefix_state env before (t :: after) Hcalm Hnf)
    as (HL & Hst & Hstuck & Hc & Htr & Hsh).
  unfold run_evaluation. rewrite Hsetup, Hego, Hticks, HL. cbn [negb loop].
  rewrite Hst. apply Qltb_ge in Hto. rewrite Hto, Hstuck, Hdone.
  eexists. split; [reflexivity|].
  cbn. rewrite Hst, Htr, Hstuck, Hsh. repeat split; reflexivity.
Qed.

(** X22: A run whose undisturbed iterations contain a sample more than
    [stuck_timeout] after the start of its below-threshold interval,
    and which has one more iteration within the timeout, ends stuck:
    the report has [stuck] set, is neither completed nor timed out, and
    is finalized once with the elapsed time and cleaned up. *)
Theorem run_ends_stuck (env : Env) (before after : list Tick) (t : Tick) :
  setup_scenario env = true ->
  has_ego_vehicle (runner env) = true ->
  ticks env = before ++ t :: after ->
  Forall (calm sqrt cfg (runner env) (t_start env)) before ->
  fires sqrt cfg (samples_of (t_start env) before) ->
  now t - t_start env <= timeout cfg ->
  exists rep,
    run_evaluation sqrt cfg env TCPEvaluator_init = Some rep /\
    stuck (returned rep) = true /\
    completed (returned rep) = false /\
    timeout_reached (returned rep) = false /\
    completion_time (returned rep) = t_end env - t_start env /\
    events rep = [Finalize (t_end env - t_start env); Cleanup].
Proof.
  intros Hsetup Hego Hticks Hcalm Hf Hto.
  pose (ev0 := initialize env TCPEvaluator_init).
  assert (Hst : start_time ev0 = t_start env) by reflexivity.
  destruct (stuck_invariant sqrt cfg (Some (runner env))
              (samples_of (t_start env) before) ev0 eq_refl) as [_ Hiff].
  apply Hiff in Hf.
  pose proof (loop_breaks_when_stuck sqrt cfg (runner env) before t after ev0)
    as HB.
  rewrite Hst in HB.
  destruct (HB Hcalm Hf Hto) as (ev' & HL & Hs & Hc & Htr & Hst').
  unfold run_evaluation. rewrite Hsetup, Hego, Hticks. cbn [negb].
  fold ev0. rewrite HL.
  eexists. split; [reflexivity|].
  cbn. rewrite Hst', Hs, Hc, Htr. repeat split; reflexivity.
Qed.

End Outcomes.

(** X17 at: a run of two iterations, the second 200 s after the start
    with a timeout of 120 s. *)
Lemma run_evaluation_returns_witness :
  exists rep,
    Evaluator.run_evaluation Examples.sqrt_floor Examples.evaluation_config
      (Examples.run_of Examples.far_away
         [Examples.tick_at 1001; Examples.tick_at 1200])
      Evaluator.TCPEvaluator_init = Some rep.
Proof.
  apply run_evaluation_returns.
  apply Exists_cons_tl, Exists_cons_hd. vm_compute. reflexivity.
Defined.

(** X19 at: a run whose destination is 3 m from the start: completed at
    the first iteration, 1 s after the start. *)
Lemma terminal_flags_witness :
  exists rep,
    Evaluator.run_evaluation Examples.sqrt_floor Examples.evaluation_config
      (Examples.run_of Examples.nearby [Examples.tick_at 1001])
      Evaluator.TCPEvaluator_init = Some rep /\
    (Evaluator.completed (Evaluator.returned rep) = true ->
     Evaluator.timeout_reached (Evaluator.returned rep) = false /\
     Evaluator.stuck (Evaluator.returned rep) = false).
Proof.
  eexists. split; [vm_compute; reflexivity|].
  intros H.
  destruct (terminal_flags Examples.sqrt_floor Examples.evaluation_config
              (Examples.run_of Examples.nearby [Examples.tick_at 1001]) _
              ltac:(vm_compute; reflexivity)) as [Hc _].
  destruct (Hc H) as (Ht & Hs & _). split; [exact Ht | exact Hs].
Defined.

(** X20 at: one iteration 1 s after the start, the next 200 s after it,
    with a timeout of 120 s. *)
Lemma run_times_out_witness :
  exists rep,
    Evaluator.run_evaluation Examples.sqrt_floor Examples.evaluation_config
      (Examples.run_of Examples.far_away
         [Examples.tick_at 1001; Examples.tick_at 1200])
      Evaluator.TCPEvaluator_init = Some rep /\
    Evaluator.timeout_reached (Evaluator.returned rep) = true /\
    Evaluator.completed (Evaluator.returned rep) = false.
Proof.
  destruct (run_times_out Examples.sqrt_floor Examples.evaluation_config
              (Examples.run_of Examples.far_away
                 [Examples.tick_at 1001; Examples.tick_at 1200])
              [Examples.tick_at 1001] [] (Examples.tick_at 1200))
    as (rep & Hr & Ht & Hc & _).
  - reflexivity.
  - reflexivity.
  - reflexivity.
  - constructor; [|constructor].
    split; [reflexivity|]. split; [vm_compute; discriminate|].
    vm_compute. reflexivity.
  - intros H. apply fires_needs_two in H. cbn in H. lia.
  - vm_compute. reflexivity.
  - exists rep. auto.
Defined.

(** X21 at: the ego vehicle 100 m from the destination at the first
    iteration and 2 m from it at the second. *)
Lemma run_completes_witness :
  exists rep,
    Evaluator.run_evaluation Examples.sqrt_floor Examples.evaluation_config
      (Examples.run_of Examples.far_away
         [Cases.tick_from 1001 Examples.origin;
          Cases.tick_from 1002 {| Carla.x := 98; Carla.y := 0; Carla.z := 0 |}])
      Evaluator.TCPEvaluator_init = Some rep /\
    Evaluator.completed (Evaluator.returned rep) = true /\
    Evaluator.timeout_reached (Evaluator.returned rep) = false.
Proof.
  destruct (run_completes Examples.sqrt_floor Examples.evaluation_config
              (Examples.run_of Examples.far_away
                 [Cases.tick_from 1001 Examples.origin;
                  Cases.tick_from 1002
                    {| Carla.x := 98; Carla.y := 0; Carla.z := 0 |}])
              [Cases.tick_from 1001 Examples.origin] []
              (Cases.tick_from 1002
                 {| Carla.x := 98; Carla.y := 0; Carla.z := 0 |}))
    as (rep & Hr & Hc & Ht & _).
  - reflexivity.
  - reflexivity.
  - reflexivity.
  - constructor; [|constructor].
    split; [reflexivity|]. split; [vm_compute; discriminate|].
    vm_compute. reflexivity.
  - intros H. apply fires_needs_two in H. cbn in H. lia.
  - vm_compute. discriminate.
  - vm_compute. reflexivity.
  - exists rep. auto.
Defined.

(** X22 at: the ego vehicle at rest 1 s and 40 s after the start, with a
    stuck timeout of 30 s, and one more iteration. *)
Lemma run_ends_stuck_witness :
  exists rep,
    Evaluator.run_evaluation Examples.sqrt_floor Examples.evaluation_config
      (Examples.run_of Examples.far_away
         [Cases.tick_at_rest 1001; Cases.tick_at_rest 1040;
          Cases.tick_at_rest 1041])
      Evaluator.TCPEvaluator_init = Some rep /\
    Evaluator.stuck (Evaluator.returned rep) = true /\
    Evaluator.completed (Evaluator.returned rep) = false.
Proof.
  destruct (run_ends_stuck Examples.sqrt_floor Examples.evaluation_config
              (Examples.run_of Examples.far_away
                 [Cases.tick_at_rest 1001; Cases.tick_at_rest 1040;
                  Cases.tick_at_rest 1041])
              [Cases.tick_at_rest 1001; Cases.tick_at_rest 1040] []
              (Cases.tick_at_rest 1041))
    as (rep & Hr & Hs & Hc & _).
  - reflexivity.
  - reflexivity.
  - reflexivity.
  - constructor; [|constructor; [|constructor]];
      (split; [reflexivity|]; split; [vm_compute; discriminate|];
       vm_compute; reflexivity).
  - exists 0%nat, 1%nat. do 2 eexists.
    split; [lia|]. split; [|split; [reflexivity|split; [reflexivity|]]].
    + split; [lia|]. split; [|left; reflexivity].
      intros k Hk. destruct k as [|[|k]]; [| |lia];
        (eexists; split; [reflexivity|vm_compute; reflexivity]).
    + vm_compute. reflexivity.
  - vm_compute. discriminate.
  - exists rep. auto.
Defined.

(* ===================================================================== *)
(** * Traffic: what [_spawn_vehicles] spawns                              *)
(* ===================================================================== *)

Section TrafficFacts.
Import Schema Carla Injector Traffic.

Variable sqrt : Q -> Q.

(** ** The pieces of one iteration *)

Lemma choice_frame {A} (seq : list A) (g : Random.rng) :
  Random.draws (snd (Random.choice seq g)) = Random.draws g /\
  (forall a, fst (Random.choice seq g) = Some a -> In a seq).
Proof.
  unfold Random.choice, Random.random. cbn [fst snd Random.draws].
  split; [reflexivity|]. intros a H. eapply nth_error_In. exact H.
Qed.

Lemma choice_empty {A} (g : Random.rng) :
  fst (Random.choice (@nil A) g) = None.
Proof.
  unfold Random.choice, Random.random. cbn [fst].
  destruct (Z.to_nat _); reflexivity.
Qed.

(** The injector appends its calls and keeps the stream of draws. *)
Lemma behavior_appends (vehicle : Actor) (config : VehicleTrafficConfig)
    (w : World) :
  let w' := snd (apply_vehicle_behavior vehicle config w) in
  calls w' = calls w ++ vehicle_calls vehicle config (gen w) /\
  Random.draws (gen w') = Random.draws (gen w).
Proof.
  destruct w as [[d c] l].
  unfold vehicle_calls, apply_vehicle_behavior, bind, random, uniform, when,
    emit, ret, Random.uniform, Random.random.
  cbn [gen calls Random.draws Random.cursor fst snd Nat.add].
  repeat (match goal with
          | |- context [if Py.Qltb ?a ?b then _ else _] =>
              destruct (Py.Qltb a b)
          end;
          cbn [gen calls Random.draws Random.cursor fst snd Nat.add app]).
  all: rewrite <- ?app_assoc; cbn [app]; rewrite ?app_nil_r; split; reflexivity.
Qed.

(** Every call of the injector is made for the vehicle it is given. *)
Lemma vehicle_calls_subject (vehicle : Actor) (config : VehicleTrafficConfig)
    (g : Random.rng) (c : call) :
  In c (vehicle_calls vehicle config g) -> subject c = vehicle.
Proof.
  intros Hin.
  pose proof (vehicle_calls_eq vehicle config g) as E. cbv zeta in E.
  rewrite E in Hin. clear E.
  destruct (Py.Qltb (v_rule_break_probability config) _); [destruct Hin|].
  repeat (apply in_app_or in Hin as [Hin|Hin]).
  - apply in_opt in Hin as [_ [<-|[]]]. reflexivity.
  - apply in_opt in Hin as [_ [<-|[]]]. reflexivity.
  - apply in_opt in Hin as [_ [<-|[<-|[]]]]; reflexivity.
  - apply in_opt in Hin as [_ [<-|[]]]. reflexivity.
  - apply in_opt in Hin as [_ [<-|[]]]. reflexivity.
  - destruct Hin as [<-|[]]. reflexivity.
Qed.

Lemma spawned_by_cons (a : Attempt) (l : list Attempt) :
  spawned_by (a :: l)
  = match result a with Some v => v :: spawned_by l | None => spawned_by l end.
Proof. reflexivity. Qed.

(** ** The loop *)

(** What the loop has done when it is over: the attempts it made, at
    spawn points taken in order among those not too close to the ego
    vehicle; the vehicles these gave, appended to [self.vehicles] and
    set to autopilot; the calls of the injector, each for one of these
    vehicles. *)
Lemma spawn_loop_spec (s : Session) (target : Z) (pts : list Transform)
    (spawned : Z) (st : Fleet) (n : Z) (st' : Fleet) :
  spawn_loop sqrt s target pts spawned st = Some (n, st') ->
  exists (new : list Attempt) (cs : list call),
    attempts st' = attempts st ++ new /\
    vehicles st' = vehicles st ++ spawned_by new /\
    autopilot st' = autopilot st ++ spawned_by new /\
    calls (world st') = calls (world st) ++ cs /\
    Random.draws (gen (world st')) = Random.draws (gen (world st)) /\
    n = (spawned + Z.of_nat (length (spawned_by new)))%Z /\
    (n <= Z.max spawned target)%Z /\
    sublist (map point new) pts /\
    Forall (fun a => too_close sqrt s (point a) = false /\
                     In (blueprint a) (vehicle_bps s)) new /\
    Forall (fun c => In (subject c) (spawned_by new)) cs /\
    (forall i a, new !! i = Some a ->
       result a = try_spawn_actor s (vehicles st ++ spawned_by (take i new))
                    (blueprint a) (point a)).
Proof.
  revert spawned st.
  induction pts as [|p rest IH]; intros spawned st H.
  - cbn [spawn_loop] in H. injection H as <- <-.
    exists [], []. change (spawned_by []) with (@nil Actor).
    cbn [length map]. rewrite !app_nil_r.
    do 6 (split; [reflexivity + lia|]). split; [lia|].
    split; [constructor|]. split; [constructor|]. split; [constructor|].
    intros i a Hi. rewrite lookup_nil in Hi. discriminate Hi.
  - cbn [spawn_loop] in H.
    destruct (target <=? spawned)%Z eqn:Hge.
    { injection H as <- <-.
      exists [], []. change (spawned_by []) with (@nil Actor).
    cbn [length map]. rewrite !app_nil_r.
      do 6 (split; [reflexivity + lia|]). split; [lia|].
      split; [apply sublist_nil_l|]. split; [constructor|].
      split; [constructor|].
      intros i a Hi. rewrite lookup_nil in Hi. discriminate Hi. }
    apply Z.leb_gt in Hge.
    destruct (too_close sqrt s p) eqn:Hclose.
    { destruct (IH _ _ H)
        as (new & cs & H1 & H2 & H3 & H4 & H5 & H6 & H7 & H8 & H9 & H10 & H11).
      exists new, cs.
      do 7 (split; [assumption|]).
      split; [apply sublist_cons; exact H8|]. auto. }
    destruct (choice_frame (vehicle_bps s) (gen (world st))) as [Hdraws Hbp].
    destruct (Random.choice (vehicle_bps s) (gen (world st))) as [[bp|] g];
      [|discriminate H].
    cbn [fst snd] in Hdraws, Hbp. specialize (Hbp bp eq_refl).
    destruct (try_spawn_actor s (vehicles st) bp p) as [v|] eqn:Hspawn.
    + pose proof (behavior_appends v (vehicle_config s)
                    {| gen := g; calls := calls (world st) |}) as [Hc Hd].
      destruct (apply_vehicle_behavior v (vehicle_config s)
                  {| gen := g; calls := calls (world st) |}) as [u w'].
      cbn [snd gen calls] in Hc, Hd.
      destruct (IH _ _ H)
        as (new & cs & H1 & H2 & H3 & H4 & H5 & H6 & H7 & H8 & H9 & H10 & H11).
      cbn [attempts vehicles autopilot world] in H1, H2, H3, H4, H5, H11.
      exists ({| blueprint := bp; point := p; result := Some v |} :: new),
             (vehicle_calls v (vehicle_config s) g ++ cs).
      rewrite spawned_by_cons. cbn [result length map point].
      split; [rewrite H1, <- app_assoc; reflexivity|].
      split; [rewrite H2, <- app_assoc; reflexivity|].
      split; [rewrite H3, <- app_assoc; reflexivity|].
      split; [rewrite H4, Hc, <- app_assoc; reflexivity|].
      split; [rewrite H5, Hd, Hdraws; reflexivity|].
      split; [lia|]. split; [lia|].
      split; [apply sublist_skip; exact H8|].
      split; [constructor; [split; assumption | exact H9]|].
      split.
      * apply Forall_app. split.
        -- apply Forall_forall. intros c Hin. apply list_elem_of_In in Hin.
           rewrite (vehicle_calls_subject _ _ _ _ Hin). left. reflexivity.
        -- eapply Forall_impl; [exact H10|]. intros c Hin. right. exact Hin.
      * intros [|i] a Hi.
        -- cbn in Hi. injection Hi as <-. cbn [take result blueprint point].
           change (spawned_by []) with (@nil Actor). rewrite app_nil_r. symmetry. exact Hspawn.
        -- cbn [lookup list_lookup] in Hi. rewrite (H11 i a Hi).
           cbn [take]. rewrite spawned_by_cons. cbn [result].
           rewrite <- app_assoc. reflexivity.
    + destruct (IH _ _ H)
        as (new & cs & H1 & H2 & H3 & H4 & H5 & H6 & H7 & H8 & H9 & H10 & H11).
      cbn [attempts vehicles autopilot world gen calls] in H1, H2, H3, H4, H5, H11.
      exists ({| blueprint := bp; point := p; result := None |} :: new), cs.
      rewrite spawned_by_cons. cbn [result length map point].
      split; [rewrite H1, <- app_assoc; reflexivity|].
      split; [exact H2|]. split; [exact H3|]. split; [exact H4|].
      split; [rewrite H5, Hdraws; reflexivity|].
      split; [exact H6|]. split; [exact H7|].
      split; [apply sublist_skip; exact H8|].
      split; [constructor; [split; assumption | exact H9]|].
      split; [exact H10|].
      intros [|i] a Hi.
      * cbn in Hi. injection Hi as <-. cbn [take result blueprint point].
        change (spawned_by []) with (@nil Actor). rewrite app_nil_r. symmetry. exact Hspawn.
      * cbn [lookup list_lookup] in Hi. rewrite (H11 i a Hi).
        cbn [take]. rewrite spawned_by_cons. cbn [result]. reflexivity.
Qed.

(** With a blueprint to choose and draws in [0, 1) the loop ends
    normally. *)
Lemma spawn_loop_returns (s : Session) (target : Z) (pts : list Transform)
    (spawned : Z) (st : Fleet) :
  vehicle_bps s <> [] ->
  Random.unit_draws (Random.draws (gen (world st))) ->
  exists res, spawn_loop sqrt s target pts spawned st = Some res.
Proof.
  intros Hne. revert spawned st.
  induction pts as [|p rest IH]; intros spawned st Hd; cbn [spawn_loop].
  - eauto.
  - destruct (target <=? spawned)%Z; [eauto|].
    destruct (too_close sqrt s p); [apply IH; exact Hd|].
    destruct (choice_some (vehicle_bps s) (gen (world st)) Hne (Hd _))
      as (bp & Hbp & _).
    destruct (choice_frame (vehicle_bps s) (gen (world st))) as [Hdraws _].
    destruct (Random.choice (vehicle_bps s) (gen (world st))) as [c g].
    cbn [fst snd] in Hbp, Hdraws. subst c.
    destruct (try_spawn_actor s (vehicles st) bp p) as [v|].
    + pose proof (behavior_appends v (vehicle_config s)
                    {| gen := g; calls := calls (world st) |}) as [_ Hb].
      destruct (apply_vehicle_behavior v (vehicle_config s)
                  {| gen := g; calls := calls (world st) |}) as [u w'].
      cbn [snd gen] in Hb.
      apply IH. cbn [world]. rewrite Hb, Hdraws. exact Hd.
    + apply IH. cbn [world gen]. rewrite Hdraws. exact Hd.
Qed.

(** When no spawn fails the loop spawns until the target is reached or
    the spawn points that are not too close are used up. *)
Lemma spawn_loop_full (s : Session) (target : Z) (pts : list Transform)
    (spawned : Z) (st : Fleet) :
  vehicle_bps s <> [] ->
  Random.unit_draws (Random.draws (gen (world st))) ->
  (forall vs bp p, try_spawn_actor s vs bp p <> None) ->
  exists n st',
    spawn_loop sqrt s target pts spawned st = Some (n, st') /\
    length (vehicles st')
    = (length (vehicles st)
       + Nat.min (Z.to_nat (target - spawned)) (length (eligible sqrt s pts)))%nat.
Proof.
  intros Hne Hd Hok. revert spawned st Hd.
  induction pts as [|p rest IH]; intros spawned st Hd; cbn [spawn_loop].
  - exists spawned, st. split; [reflexivity|].
    cbn [eligible List.filter length]. lia.
  - destruct (target <=? spawned)%Z eqn:Hge.
    { exists spawned, st. split; [reflexivity|].
      apply Z.leb_le in Hge. lia. }
    apply Z.leb_gt in Hge.
    unfold eligible. cbn [List.filter]. fold (eligible sqrt s rest).
    destruct (too_close sqrt s p); cbn [negb]; [apply IH; exact Hd|].
    destruct (choice_some (vehicle_bps s) (gen (world st)) Hne (Hd _))
      as (bp & Hbp & _).
    destruct (choice_frame (vehicle_bps s) (gen (world st))) as [Hdraws _].
    destruct (Random.choice (vehicle_bps s) (gen (world st))) as [c g].
    cbn [fst snd] in Hbp, Hdraws. subst c.
    destruct (try_spawn_actor s (vehicles st) bp p) as [v|] eqn:Hv;
      [|destruct (Hok _ _ _ Hv)].
    pose proof (behavior_appends v (vehicle_config s)
                  {| gen := g; calls := calls (world st) |}) as [_ Hb].
    destruct (apply_vehicle_behavior v (vehicle_config s)
                {| gen := g; calls := calls (world st) |}) as [u w'].
    cbn [snd gen] in Hb.
    edestruct (IH (spawned + 1)%Z) as (n & st' & -> & Hlen).
    { cbn [world]. rewrite Hb, Hdraws. exact Hd. }
    exists n, st'. split; [reflexivity|].
    rewrite Hlen. cbn [vehicles length]. rewrite length_app. cbn [length].
    lia.
Qed.

(** Without a blueprint the loop fails at the first spawn point it
    does not skip, if it gets that far. *)
Lemma spawn_loop_no_blueprint (s : Session) (target : Z)
    (pts : list Transform) (spawned : Z) (st : Fleet) :
  vehicle_bps s = [] ->
  spawn_loop sqrt s target pts spawned st
  = if (target <=? spawned)%Z then Some (spawned, st)
    else match eligible sqrt s pts with
         | [] => Some (spawned, st)
         | _ :: _ => None
         end.
Proof.
  intros Hbps. induction pts as [|p rest IH]; cbn [spawn_loop].
  - destruct (target <=? spawned)%Z; reflexivity.
  - rewrite IH. destruct (target <=? spawned)%Z; [reflexivity|].
    unfold eligible. cbn [List.filter].
    destruct (too_close sqrt s p); cbn [negb]; [reflexivity|].
    pose proof (choice_empty (A := Blueprint) (gen (world st))) as He.
    rewrite Hbps.
    destruct (Random.choice [] (gen (world st))) as [c g].
    cbn [fst] in He. subst c. reflexivity.
Qed.

(** ** [_spawn_vehicles] *)

(** X23: [_spawn_vehicles] never adds more vehicles than the target count
    drawn, which lies within the range of the density, nor more than
    there are spawn points; with density [none] it changes nothing. *)
Theorem spawn_vehicles_count (s : Session) (st st' : Fleet) :
  let r := get_vehicle_count_range s in
  (fst r <= randint s (fst r) (snd r) <= snd r)%Z ->
  spawn_vehicles sqrt s st = Some st' ->
  exists new,
    vehicles st' = vehicles st ++ new /\
    (Z.of_nat (length new) <= randint s (fst r) (snd r))%Z /\
    (Z.of_nat (length new) <= snd r)%Z /\
    (length new <= length (spawn_points s))%nat /\
    (density s = NONE -> st' = st).
Proof.
  intros r Hr. subst r. unfold spawn_vehicles.
  destruct (get_vehicle_count_range s) as [lo hi] eqn:Er.
  cbn [fst snd] in Hr |- *.
  assert (Hlo0 : (0 <= lo)%Z).
  { unfold get_vehicle_count_range in Er.
    destruct (density s); cbn in Er; injection Er as <- <-; lia. }
  destruct (hi =? 0)%Z eqn:Hz.
  - intros H. injection H as <-. exists []. rewrite app_nil_r.
    apply Z.eqb_eq in Hz. cbn [length].
    assert (Hlo : lo = 0%Z).
    { unfold get_vehicle_count_range in Er.
      destruct (density s); cbn in Er; injection Er as <- <-;
        [reflexivity | discriminate Hz..]. }
    split; [reflexivity|]. split; [lia|]. split; [lia|]. split; [lia|].
    reflexivity.
  - intros H.
    destruct (spawn_loop sqrt s (randint s lo hi) (spawn_points s) 0 st)
      as [[n st1]|] eqn:Hloop; [|discriminate H].
    injection H as <-.
    destruct (spawn_loop_spec _ _ _ _ _ _ _ Hloop)
      as (new & cs & _ & H2 & _ & _ & _ & H6 & H7 & H8 & _).
    exists (spawned_by new). split; [exact H2|].
    assert (Hlen : (length (spawned_by new) <= length new)%nat).
    { unfold spawned_by. clear. induction new as [|a new IH]; [cbn; lia|].
      change (omap result (a :: new))
        with (match result a with
              | Some v => v :: omap result new
              | None => omap result new
              end).
      destruct (result a); cbn [length]; lia. }
    apply sublist_length in H8. rewrite length_map in H8.
    split; [lia|]. split; [lia|]. split; [lia|].
    intros Hn. unfold get_vehicle_count_range in Er. rewrite Hn in Er.
    cbn in Er. injection Er as <- <-. discriminate Hz.
Qed.

(** X24: Every vehicle [_spawn_vehicles] adds is the answer of one
    [try_spawn_actor] call, made with a blueprint of the list at a
    spawn point of the map that is at least 20 m from the ego vehicle
    when there is one; the spawn points are tried at most once each, in
    their order; the vehicles are added in the order of the calls. *)
Theorem spawn_vehicles_placement (s : Session) (st st' : Fleet) :
  spawn_vehicles sqrt s st = Some st' ->
  exists new,
    attempts st' = attempts st ++ new /\
    vehicles st' = vehicles st ++ spawned_by new /\
    sublist (map point new) (spawn_points s) /\
    Forall (fun a =>
              In (blueprint a) (vehicle_bps s) /\
              match ego_location s with
              | Some ego_loc =>
                  20 <= Evaluator.distance sqrt (t_location (point a)) ego_loc
              | None => True
              end) new /\
    (forall i a, new !! i = Some a ->
       result a = try_spawn_actor s (vehicles st ++ spawned_by (take i new))
                    (blueprint a) (point a)).
Proof.
  unfold spawn_vehicles.
  destruct (get_vehicle_count_range s) as [lo hi].
  destruct (hi =? 0)%Z.
  - intros H. injection H as <-. exists [].
    change (spawned_by []) with (@nil Actor). rewrite !app_nil_r.
    split; [reflexivity|]. split; [reflexivity|].
    split; [apply sublist_nil_l|]. split; [constructor|].
    intros i a Hi. rewrite lookup_nil in Hi. discriminate Hi.
  - intros H.
    destruct (spawn_loop sqrt s (randint s lo hi) (spawn_points s) 0 st)
      as [[n st1]|] eqn:Hloop; [|discriminate H].
    injection H as <-.
    destruct (spawn_loop_spec _ _ _ _ _ _ _ Hloop)
      as (new & cs & H1 & H2 & _ & _ & _ & _ & _ & H8 & H9 & _ & H11).
    exists new. split; [exact H1|]. split; [exact H2|]. split; [exact H8|].
    split; [|exact H11].
    eapply Forall_impl; [exact H9|]. intros a [Hc Hb]. split; [exact Hb|].
    unfold too_close in Hc. destruct (ego_location s); [|exact I].
    apply Qltb_ge in Hc. exact Hc.
Qed.

(** X25: [_spawn_vehicles] sets the autopilot on the vehicles it adds and on
    no other; the traffic manager calls it makes come after those
    already made, and each is for a vehicle it has added; the stream of
    draws is the one it started with. *)
Theorem spawn_vehicles_behavior (s : Session) (st st' : Fleet) :
  spawn_vehicles sqrt s st = Some st' ->
  exists new cs,
    vehicles st' = vehicles st ++ new /\
    autopilot st' = autopilot st ++ new /\
    calls (world st') = calls (world st) ++ cs /\
    Forall (fun c => In (subject c) new) cs /\
    Random.draws (gen (world st')) = Random.draws (gen (world st)).
Proof.
  unfold spawn_vehicles.
  destruct (get_vehicle_count_range s) as [lo hi].
  destruct (hi =? 0)%Z.
  - intros H. injection H as <-. exists [], []. rewrite !app_nil_r.
    repeat split; constructor.
  - intros H.
    destruct (spawn_loop sqrt s (randint s lo hi) (spawn_points s) 0 st)
      as [[n st1]|] eqn:Hloop; [|discriminate H].
    injection H as <-.
    destruct (spawn_loop_spec _ _ _ _ _ _ _ Hloop)
      as (new & cs & _ & H2 & H3 & H4 & H5 & _ & _ & _ & _ & H10 & _).
    exists (spawned_by new), cs. auto.
Qed.

(** X26: With a blueprint to choose and draws in [0, 1), [_spawn_vehicles]
    returns normally. *)
Theorem spawn_vehicles_returns (s : Session) (st : Fleet) :
  vehicle_bps s <> [] ->
  Random.unit_draws (Random.draws (gen (world st))) ->
  exists st', spawn_vehicles sqrt s st = Some st'.
Proof.
  intros Hne Hd. unfold spawn_vehicles.
  destruct (get_vehicle_count_range s) as [lo hi].
  destruct (hi =? 0)%Z; [eauto|].
  destruct (spawn_loop_returns s (randint s lo hi) (spawn_points s) 0 st Hne Hd)
    as [[n st'] ->].
  eauto.
Qed.

(** X27: With no blueprint left by the filter, [_spawn_vehicles] raises the
    [IndexError] of [random.choice] exactly when the density is not
    [none], the target count drawn is positive and some spawn point is
    not skipped; otherwise it returns and changes nothing. *)
Theorem spawn_vehicles_without_blueprint (s : Session) (st : Fleet) :
  vehicle_bps s = [] ->
  let r := get_vehicle_count_range s in
  (spawn_vehicles sqrt s st = None <->
   snd r <> 0%Z /\ (0 < randint s (fst r) (snd r))%Z /\
   eligible sqrt s (spawn_points s) <> []) /\
  (spawn_vehicles sqrt s st <> None -> spawn_vehicles sqrt s st = Some st).
Proof.
  intros Hbps r. unfold spawn_vehicles. fold r.
  destruct r as [lo hi]. cbn [fst snd].
  destruct (hi =? 0)%Z eqn:Hz.
  - apply Z.eqb_eq in Hz. split; [|reflexivity].
    split; [discriminate|]. intros (H & _). contradiction.
  - apply Z.eqb_neq in Hz.
    rewrite (spawn_loop_no_blueprint s _ _ _ _ Hbps).
    destruct (randint s lo hi <=? 0)%Z eqn:Hge.
    + apply Z.leb_le in Hge. split; [|reflexivity].
      split; [discriminate|]. intros (_ & H & _). lia.
    + apply Z.leb_gt in Hge.
      destruct (eligible sqrt s (spawn_points s)) as [|p l].
      * split; [|reflexivity].
        split; [discriminate|]. intros (_ & _ & H). contradiction.
      * split; [|intros H; contradiction].
        split; [|reflexivity]. intros _. repeat split; [exact Hz|exact Hge|discriminate].
Qed.

(** X28: When no spawn fails, with a blueprint to choose and draws in
    [0, 1), [_spawn_vehicles] of a density other than [none] adds as
    many vehicles as the target count drawn, or as many as there are
    spawn points not too close to the ego vehicle if these are
    fewer. *)
Theorem spawn_vehicles_reaches_target (s : Session) (st : Fleet) :
  vehicle_bps s <> [] ->
  Random.unit_draws (Random.draws (gen (world st))) ->
  (forall vs bp p, try_spawn_actor s vs bp p <> None) ->
  density s <> NONE ->
  let r := get_vehicle_count_range s in
  exists st',
    spawn_vehicles sqrt s st = Some st' /\
    length (vehicles st')
    = (length (vehicles st)
       + Nat.min (Z.to_nat (randint s (fst r) (snd r)))
                 (length (eligible sqrt s (spawn_points s))))%nat.
Proof.
  intros Hne Hd Hok Hdens r. unfold spawn_vehicles. fold r.
  assert (Hhi : (snd r =? 0)%Z = false).
  { subst r. unfold get_vehicle_count_range.
    destruct (density s); [contradiction | reflexivity..]. }
  destruct r as [lo hi]. cbn [fst snd] in Hhi |- *. rewrite Hhi.
  destruct (spawn_loop_full s (randint s lo hi) (spawn_points s) 0 st Hne Hd Hok)
    as (n & st' & -> & Hlen).
  exists st'. split; [reflexivity|].
  rewrite Hlen, Z.sub_0_r. reflexivity.
Qed.

End TrafficFacts.

(** X23 at: low density, three spawn points: at most 20 vehicles are
    added. *)
Lemma spawn_vehicles_count_witness :
  exists st' new,
    Traffic.spawn_vehicles Examples.sqrt_floor (Cases.town [1; 2]%nat)
      Cases.no_traffic = Some st' /\
    Traffic.vehicles st' = Traffic.vehicles Cases.no_traffic ++ new /\
    (Z.of_nat (length new) <= 20)%Z.
Proof.
  destruct (Traffic.spawn_vehicles Examples.sqrt_floor
              (Cases.town [1; 2]%nat) Cases.no_traffic) as [st'|] eqn:E;
    [|vm_compute in E; discriminate E].
  destruct (spawn_vehicles_count Examples.sqrt_floor (Cases.town [1; 2]%nat)
              Cases.no_traffic st' ltac:(cbn; lia) E)
    as (new & H1 & _ & H3 & _).
  exists st', new. split; [reflexivity|]. split; [exact H1 | exact H3].
Defined.

(** X24 at: the spawn point at the ego vehicle is not among those tried. *)
Lemma spawn_vehicles_placement_witness :
  exists st' new,
    Traffic.spawn_vehicles Examples.sqrt_floor (Cases.town [1; 2]%nat)
      Cases.no_traffic = Some st' /\
    Traffic.attempts st' = Traffic.attempts Cases.no_traffic ++ new /\
    sublist (map Traffic.point new)
      [Cases.along_x 0; Cases.along_x 100; Cases.along_x 200].
Proof.
  destruct (Traffic.spawn_vehicles Examples.sqrt_floor
              (Cases.town [1; 2]%nat) Cases.no_traffic) as [st'|] eqn:E;
    [|vm_compute in E; discriminate E].
  destruct (spawn_vehicles_placement Examples.sqrt_floor
              (Cases.town [1; 2]%nat) Cases.no_traffic st' E)
    as (new & H1 & _ & H3 & _).
  exists st', new. split; [reflexivity|]. split; [exact H1 | exact H3].
Defined.

(** X25 at: the autopilot is set on the vehicles added. *)
Lemma spawn_vehicles_behavior_witness :
  exists st' new,
    Traffic.spawn_vehicles Examples.sqrt_floor (Cases.town [1; 2]%nat)
      Cases.no_traffic = Some st' /\
    Traffic.vehicles st' = Traffic.vehicles Cases.no_traffic ++ new /\
    Traffic.autopilot st' = Traffic.autopilot Cases.no_traffic ++ new.
Proof.
  destruct (Traffic.spawn_vehicles Examples.sqrt_floor
              (Cases.town [1; 2]%nat) Cases.no_traffic) as [st'|] eqn:E;
    [|vm_compute in E; discriminate E].
  destruct (spawn_vehicles_behavior Examples.sqrt_floor
              (Cases.town [1; 2]%nat) Cases.no_traffic st' E)
    as (new & cs & H1 & H2 & _).
  exists st', new. split; [reflexivity|]. split; [exact H1 | exact H2].
Defined.

(** X26 at: two blueprints and draws of 1/4. *)
Lemma spawn_vehicles_returns_witness :
  exists st',
    Traffic.spawn_vehicles Examples.sqrt_floor (Cases.town [1; 2]%nat)
      Cases.no_traffic = Some st'.
Proof.
  apply spawn_vehicles_returns.
  - discriminate.
  - intros n. cbn. split; lra.
Defined.

(** X27 at: no blueprint, low density and a spawn point 100 m from the
    ego vehicle: the [IndexError]. *)
Lemma spawn_vehicles_without_blueprint_witness :
  Traffic.spawn_vehicles Examples.sqrt_floor (Cases.town []) Cases.no_traffic
  = None.
Proof.
  apply (proj1 (spawn_vehicles_without_blueprint Examples.sqrt_floor
                  (Cases.town []) Cases.no_traffic eq_refl)).
  split; [cbn; lia|]. split; [cbn; lia|]. vm_compute. discriminate.
Defined.

(** X28 at: a target of 10 and two spawn points away from the ego
    vehicle: two vehicles. *)
Lemma spawn_vehicles_reaches_target_witness :
  exists st',
    Traffic.spawn_vehicles Examples.sqrt_floor (Cases.town [1; 2]%nat)
      Cases.no_traffic = Some st' /\
    length (Traffic.vehicles st') = 2%nat.
Proof.
  destruct (spawn_vehicles_reaches_target Examples.sqrt_floor
              (Cases.town [1; 2]%nat) Cases.no_traffic)
    as (st' & H & Hlen).
  - discriminate.
  - intros n. cbn. split; lra.
  - intros vs bp p. discriminate.
  - discriminate.
  - exists st'. split; [exact H|]. rewrite Hlen. vm_compute. reflexivity.
Defined.
